(** * FiveM MLO cleaner: the classification-and-copy engine

    A shallow embedding of [mlo_cleaner_gui_dark_multi.py]: the classifier
    [should_keep_file], the per-job worker [CleanerWorker.clean_one], the
    progress mapping [CleanerWorker._update_progress] and the queue loop
    [App.start.run_queue], over an explicit model of the file system, of the
    two log channels, of the progress sink and of the stop event.

    Modelling conventions
    - a [Path] is the list of the components of an absolute, normalised
      path, root first; components hold no separator;
    - file names and file contents are byte strings; [str.lower] is the
      ASCII lower-casing (bytes above 127 are left alone);
    - [Path.suffix] and [Path.stem] follow pathlib up to Python 3.13;
    - Python floats are IEEE binary64 numbers ([SpecFloat], precision 53);
    - the SHA-1 function of [hashlib] is a parameter [sha1];
    - the stop event is set by another thread: [stop_at] is the rank of the
      first [is_set()] call that sees it set, the world counts the calls;
    - [w_fs] is the disk apart from the log file of the run, whose records
      are [w_log]; [disk_of] puts the two together;
    - writing a file or making a folder fails only for what is in the way,
      never for lack of rights or space: what is said of a copy is said of an
      iteration whose [try] block raises nothing;
    - in the engine [Path.is_dir] and [os.walk] meet no folder they cannot
      search, list or enter; [process_files_py] and [walk_os] are the loop
      and the walk when they do. *)

From Stdlib Require Import ZArith String Ascii List Lia.
From Stdlib Require Import Floats.SpecFloat.
From stdpp Require Import gmap strings list fin_maps pretty sorting.

Open Scope Z_scope.
Open Scope nat_scope.

(* ===================================================================== *)
(** * Strings *)
(* ===================================================================== *)

Module Str.

(** [c.lower()] on one ASCII character. *)
Definition lower_ascii (c : ascii) : ascii :=
  let n := nat_of_ascii c in
  if (65 <=? n) && (n <=? 90) then ascii_of_nat (n + 32) else c.

(** [s.lower()] *)
Fixpoint lower (s : string) : string :=
  match s with
  | EmptyString => EmptyString
  | String c r => String (lower_ascii c) (lower r)
  end.

(** [s.startswith(p)] *)
Fixpoint startswith (p s : string) : bool :=
  match p, s with
  | EmptyString, _ => true
  | String a p', String b s' => if Ascii.eqb a b then startswith p' s' else false
  | String _ _, EmptyString => false
  end.

(** [sub in s] *)
Fixpoint contains (sub s : string) : bool :=
  startswith sub s ||
  match s with
  | EmptyString => false
  | String _ r => contains sub r
  end.

(** [s.rfind(c)], with [None] for Python's -1. *)
Fixpoint rfind (c : ascii) (s : string) : option nat :=
  match s with
  | EmptyString => None
  | String a r =>
      match rfind c r with
      | Some i => Some (S i)
      | None => if Ascii.eqb a c then Some 0 else None
      end
  end.

(** [s[:n]] and [s[n:]] *)
Fixpoint take (n : nat) (s : string) : string :=
  match n, s with
  | S k, String a r => String a (take k r)
  | _, _ => EmptyString
  end.

Fixpoint drop (n : nat) (s : string) : string :=
  match n, s with
  | S k, String _ r => drop k r
  | _, _ => s
  end.

End Str.

(* ===================================================================== *)
(** * Paths (pathlib.Path) *)
(* ===================================================================== *)

Definition Path := list string.

Module PathOps.

(** [p.name]: the last component, [""] for the root. *)
Definition name (p : Path) : string := default EmptyString (last p).

(** [p.parent] *)
Definition parent (p : Path) : Path := removelast p.

(** [p / s] for a single component; joining [""] is the identity. *)
Definition joinpath (p : Path) (s : string) : Path :=
  match s with
  | EmptyString => p
  | _ => p ++ [s]
  end.

(** The position of the dot that starts the suffix of a file name:
    [i = name.rfind('.')] when [0 < i < len(name) - 1]. *)
Definition suffix_pos (nm : string) : option nat :=
  match Str.rfind "."%char nm with
  | Some i => if (0 <? i) && (i + 1 <? String.length nm) then Some i else None
  | None => None
  end.

(** [p.suffix] and [p.stem] *)
Definition suffix_of (nm : string) : string :=
  match suffix_pos nm with
  | Some i => Str.drop i nm
  | None => EmptyString
  end.

Definition stem_of (nm : string) : string :=
  match suffix_pos nm with
  | Some i => Str.take i nm
  | None => nm
  end.

Definition suffix (p : Path) : string := suffix_of (name p).
Definition stem (p : Path) : string := stem_of (name p).

(** [p.with_name(nm)]; every path it is applied to has a name. *)
Definition with_name (p : Path) (nm : string) : Path := parent p ++ [nm].

(** [p.relative_to(base)]: [None] stands for the [ValueError]. *)
Fixpoint relative_to (p base : Path) {struct base} : option Path :=
  match base, p with
  | [], _ => Some p
  | b :: base', c :: p' => if String.eqb b c then relative_to p' base' else None
  | _ :: _, [] => None
  end.

(** [p] lies strictly below [b]. *)
Definition below (b p : Path) : Prop := exists r, r <> [] /\ p = b ++ r.

(** The path itself and all its ancestors, root first. *)
Fixpoint ancestors (p : Path) : list Path :=
  match p with
  | [] => [[]]
  | c :: r => [] :: map (cons c) (ancestors r)
  end.

End PathOps.

(* ===================================================================== *)
(** * The file system *)
(* ===================================================================== *)

(** A regular file holds its bytes and whether it can be opened for
    reading; that is all of the metadata [shutil.copy2] carries over that
    the program can observe. *)
Inductive Node : Type :=
| File (data : string) (readable : bool)
| Dir.

#[global] Instance Node_eq_dec : EqDecision Node.
Proof. solve_decision. Defined.

Abbreviation FS := (gmap Path Node).

(** The exceptions the engine meets; they all are [Exception]s. *)
Inductive Exn : Type :=
| FileNotFoundError (p : Path)
| FileExistsError (p : Path)
| NotADirectoryError (p : Path)
| IsADirectoryError (p : Path)
| PermissionError (p : Path)
| ValueError (p base : Path).

Inductive result (A : Type) : Type :=
| Ok (a : A)
| Raise (e : Exn).
Arguments Ok {A} a.
Arguments Raise {A} e.

#[global] Instance Exn_eq_dec : EqDecision Exn.
Proof. solve_decision. Defined.

#[global] Instance result_eq_dec {A} `{EqDecision A} : EqDecision (result A).
Proof. solve_decision. Defined.

Module Fs.

(** [p.exists()], [p.is_dir()] *)
Definition exists_ (fs : FS) (p : Path) : bool :=
  match fs !! p with Some _ => true | None => false end.

Definition is_dir (fs : FS) (p : Path) : bool :=
  match fs !! p with Some Dir => true | _ => false end.

Definition is_file (fs : FS) (p : Path) : bool :=
  match fs !! p with Some (File _ _) => true | _ => false end.

(** The directories [d.mkdir(parents=True)] would have to find or make. *)
Definition dirs_of (d : Path) : FS :=
  list_to_map (map (fun q => (q, Dir)) (PathOps.ancestors d)).

(** [d.mkdir(parents=True, exist_ok=True)]: every missing ancestor is
    made; a regular file in the way raises and nothing is made. *)
Definition mkdir_parents (fs : FS) (d : Path) : result FS :=
  match list_find (is_file fs) (PathOps.ancestors d) with
  | Some (_, q) =>
      Raise (if decide (q = d) then FileExistsError q else NotADirectoryError q)
  | None => Ok (fs ∪ dirs_of d)
  end.

(** Opening [p] for reading and reading all of it. *)
Definition read_file (fs : FS) (p : Path) : result string :=
  match fs !! p with
  | Some (File data true) => Ok data
  | Some (File _ false) => Raise (PermissionError p)
  | Some Dir => Raise (IsADirectoryError p)
  | None => Raise (FileNotFoundError p)
  end.

(** [p.write_text(data)] *)
Definition write_text (fs : FS) (p : Path) (data : string) : result FS :=
  match fs !! p with
  | Some Dir => Raise (IsADirectoryError p)
  | _ =>
      if is_dir fs (PathOps.parent p) then Ok (<[p := File data true]> fs)
      else Raise (FileNotFoundError p)
  end.

(** [shutil.copy2(src, dst)]: into [dst] when it is a directory, over
    [dst] when it is a file, else a new file. *)
Definition copy2 (fs : FS) (src dst : Path) : result FS :=
  match read_file fs src with
  | Raise e => Raise e
  | Ok data =>
      let target := if is_dir fs dst then PathOps.joinpath dst (PathOps.name src) else dst in
      write_text fs target data
  end.

(** One directory listing: the entries of [fs] right below [d]; the name
    of an entry is not empty. *)
Definition listdir (fs : FS) (d : Path) : list (string * Node) :=
  omap (fun '(p, nd) =>
          match PathOps.relative_to p d with
          | Some [x] => if String.eqb x "" then None else Some (x, nd)
          | _ => None
          end) (map_to_list fs).

Definition files_in (d : Path) (es : list (string * Node)) : list Path :=
  omap (fun '(x, nd) => match nd with File _ _ => Some (d ++ [x]) | Dir => None end) es.

Definition subdirs_in (d : Path) (es : list (string * Node)) : list Path :=
  omap (fun '(x, nd) => match nd with Dir => Some (d ++ [x]) | File _ _ => None end) es.

(** [os.walk(d)], top down, flattened to the [dirpath / fn] it yields;
    [depth] bounds the nesting of directories. *)
Fixpoint walk (depth : nat) (fs : FS) (d : Path) : list Path :=
  match depth with
  | 0 => []
  | S k =>
      let es := listdir fs d in
      files_in d es ++ flat_map (walk k fs) (subdirs_in d es)
  end.

End Fs.

(** [iter_files(root)]; a chain of nested directories is no longer than
    the number of entries of the file system. *)
Definition iter_files (fs : FS) (root : Path) : list Path :=
  Fs.walk (S (size fs)) fs root.

(* ===================================================================== *)
(** * The classifier *)
(* ===================================================================== *)

Definition DEFAULT_KEEP_EXTS : gset string :=
  list_to_set
    [ ".ymap"; ".ytyp";
      ".ydr"; ".ytd"; ".yft"; ".ycd"; ".ynv"; ".ypt";
      ".awc"; ".gxt2";
      ".meta";
      ".dat10"; ".dat54"; ".dat151" ].

Definition is_occlusion_name (p : Path) : bool :=
  let n := Str.lower (PathOps.name p) in
  Str.contains "occl" n || Str.contains "occlusion" n.

(** Returns [(keep, reason)]. *)
Definition should_keep_file (fs : FS) (p : Path) (keep_exts : gset string)
    (include_ybn : bool) : bool * string :=
  if Fs.is_dir fs p then (false, "is_directory")
  else
    let ext := Str.lower (PathOps.suffix p) in
    if is_occlusion_name p then (false, "occlusion_file_name")
    else if String.eqb ext ".ybn" && negb include_ybn then (false, "ybn_disabled")
    else if bool_decide (ext ∈ keep_exts) || (include_ybn && String.eqb ext ".ybn")
         then (true, "kept")
         else (false, "extension_not_allowed:" +:+
                      (if String.eqb ext "" then "<none>" else ext)).

(* ===================================================================== *)
(** * Python numbers: int and float *)
(* ===================================================================== *)

Module PyFloat.

Definition prec : Z := 53.
Definition emax : Z := 1024.

(** [float(z)], exact when [|z| < 2^53]. *)
Definition of_int (z : Z) : spec_float := binary_normalize prec emax z 0 false.

Definition add : spec_float -> spec_float -> spec_float := SFadd prec emax.
Definition mul : spec_float -> spec_float -> spec_float := SFmul prec emax.

(** [a / b] on ints, for [b] other than zero: the quotient rounded to
    the nearest float. *)
Definition truediv (a b : Z) : spec_float := SFdiv prec emax (of_int a) (of_int b).

(** [int(x)] on a finite float: the fraction is cut off. *)
Definition to_int (x : spec_float) : Z :=
  match x with
  | S754_finite s m e =>
      let a := match e with
               | Z0 => Zpos m
               | Zpos p => (Zpos m * 2 ^ Zpos p)%Z
               | Zneg p => (Zpos m / 2 ^ Zpos p)%Z
               end in
      if s then (- a)%Z else a
  | _ => 0%Z
  end.

End PyFloat.

(** [CleanerWorker._update_progress]: the pair handed to [progress_cb].
    Every caller passes [total >= 1]. *)
Definition _update_progress (i total : Z) (progress_range : option (Z * Z)) : Z * Z :=
  match progress_range with
  | None => (i, total)
  | Some (start, end_) =>
      (* Map [0..total] to [start..end] *)
      let frac := PyFloat.truediv i total in
      let val := PyFloat.to_int
                   (PyFloat.add (PyFloat.of_int start)
                                (PyFloat.mul (PyFloat.of_int (end_ - start)) frac)) in
      (val, 100%Z)
  end.

(** The global progress chunk of job [idx] of [n] in [run_queue]:
    [start = int(((idx - 1) / n) * 100)], [end = int((idx / n) * 100)]. *)
Definition job_start (idx n : Z) : Z :=
  PyFloat.to_int (PyFloat.mul (PyFloat.truediv (idx - 1) n) (PyFloat.of_int 100)).

Definition job_end (idx n : Z) : Z :=
  PyFloat.to_int (PyFloat.mul (PyFloat.truediv idx n) (PyFloat.of_int 100)).

Definition job_range (idx n : Z) : Z * Z := (job_start idx n, job_end idx n).

(* ===================================================================== *)
(** * Log lines, the world *)
(* ===================================================================== *)

(** The lines put on [log_q], one constructor per format string. *)
Inductive UiMsg : Type :=
| UiJob (idx n : nat) (name : string)                (* >>> Job {idx}/{n}: {src.name} *)
| UiQueueStopped                                     (* Queue stopped. *)
| UiAllDone                                          (* All done. *)
| UiFatal (e : Exn)                                  (* FATAL ERROR: {e} *)
| UiStart (resource_name : string)                   (* === START: {resource_name} === *)
| UiScanning (src : Path)                            (* Scanning: {src} *)
| UiOutput (dest_root : Path)                        (* Output:  {dest_root} *)
| UiStop                                             (* !! STOP requested. Aborting current job. *)
| UiDeduped (resource_name fname same_as : string)   (* [DEDUPED] {..}: {f.name} (same as {..}) *)
| UiSkipSame (resource_name fname : string)          (* [SKIP-SAME] {..}: {f.name} *)
| UiCopy (resource_name fname : string) (rel : Path) (* [COPY] {..}: {f.name} -> {..} *)
| UiError (resource_name fname : string) (e : Exn)   (* [ERROR] {..}: {f.name} | {e} *)
| UiDone (resource_name : string) (copied skipped errors : nat).

Inductive Level : Type := DEBUG | INFO | WARNING | ERROR.

#[global] Instance UiMsg_eq_dec : EqDecision UiMsg.
Proof. solve_decision. Defined.

(** The records sent to the [logging.Logger]. *)
Inductive LogMsg : Type :=
| LogStart (resource_name : string) (src dest_root : Path)
| LogOptions (include_ybn make_fxmanifest flatten_stream dedupe : bool)
| LogStopRequested (resource_name : string)
| LogSkip (f : Path) (reason : string)
| LogDeduped (f same_as : Path)
| LogSkipSame (f : Path)
| LogHashCompareFailed (f : Path) (e : Exn)
| LogNameConflict (f dest : Path)
| LogCopy (f dest : Path)
| LogError (f : Path) (e : Exn)
| LogDone (resource_name : string) (copied skipped errors : nat)
| LogFatal (e : Exn).

#[global] Instance LogMsg_eq_dec : EqDecision LogMsg.
Proof. solve_decision. Defined.

Definition level_of (m : LogMsg) : Level :=
  match m with
  | LogSkip _ _ => DEBUG
  | LogStopRequested _ | LogHashCompareFailed _ _ => WARNING
  | LogError _ _ | LogFatal _ => ERROR
  | _ => INFO
  end.

Record World : Type := mkWorld {
  w_fs : FS;                      (* the disk *)
  w_ui : list UiMsg;              (* log_q, oldest first *)
  w_log : list LogMsg;            (* the log file, oldest first *)
  w_progress : list (Z * Z);      (* the calls of progress_cb, oldest first *)
  w_checks : nat                  (* how often stop_event.is_set() was called *)
}.

#[global] Instance World_eq_dec : EqDecision World.
Proof. solve_decision. Defined.

Definition set_fs (fs : FS) (w : World) : World :=
  mkWorld fs (w_ui w) (w_log w) (w_progress w) (w_checks w).

Definition ui_log (m : UiMsg) (w : World) : World :=
  mkWorld (w_fs w) (w_ui w ++ [m]) (w_log w) (w_progress w) (w_checks w).

Definition logger (m : LogMsg) (w : World) : World :=
  mkWorld (w_fs w) (w_ui w) (w_log w ++ [m]) (w_progress w) (w_checks w).

Definition progress_cb (v : Z * Z) (w : World) : World :=
  mkWorld (w_fs w) (w_ui w) (w_log w) (w_progress w ++ [v]) (w_checks w).

Definition tick (w : World) : World :=
  mkWorld (w_fs w) (w_ui w) (w_log w) (w_progress w) (S (w_checks w)).

(** The options of one run. *)
Record Options : Type := mkOptions {
  keep_exts : gset string;
  include_ybn : bool;
  make_fxmanifest : bool;
  flatten_stream : bool;
  dedupe : bool
}.

#[global] Instance Options_eq_dec : EqDecision Options.
Proof. solve_decision. Defined.

(** The local variables of [clean_one] that the loop updates. *)
Record Job : Type := mkJob {
  copied : nat;
  skipped : nat;
  errors : nat;
  seen_hashes : gmap string Path;
  world : World
}.

#[global] Instance Job_eq_dec : EqDecision Job.
Proof. solve_decision. Defined.

Definition on_world (g : World -> World) (j : Job) : Job :=
  mkJob (copied j) (skipped j) (errors j) (seen_hashes j) (g (world j)).

Definition incr_copied (j : Job) : Job :=
  mkJob (S (copied j)) (skipped j) (errors j) (seen_hashes j) (world j).

Definition incr_skipped (j : Job) : Job :=
  mkJob (copied j) (S (skipped j)) (errors j) (seen_hashes j) (world j).

Definition incr_errors (j : Job) : Job :=
  mkJob (copied j) (skipped j) (S (errors j)) (seen_hashes j) (world j).

Definition remember (h : string) (p : Path) (j : Job) : Job :=
  mkJob (copied j) (skipped j) (errors j) (<[h := p]> (seen_hashes j)) (world j).

(** What is fixed during one job. *)
Record Ctx : Type := mkCtx {
  c_src : Path;
  c_resource_name : string;
  c_dest_root : Path;
  c_stream_dir : Path;
  c_total : nat;
  c_range : option (Z * Z);
  c_opts : Options
}.

#[global] Instance Ctx_eq_dec : EqDecision Ctx.
Proof. solve_decision. Defined.

(** How the [try] block of one iteration ends. *)
Inductive Step (A : Type) : Type :=
| Next (a : A) (j : Job)       (* ran on *)
| Skip (j : Job)               (* left by [continue] *)
| Fail (e : Exn) (j : Job).    (* an exception reached [except Exception] *)
Arguments Next {A} a j.
Arguments Skip {A} j.
Arguments Fail {A} e j.

#[global] Instance Step_eq_dec {A} `{EqDecision A} : EqDecision (Step A).
Proof. solve_decision. Defined.

Definition M (A : Type) : Type := Job -> Step A.

#[global] Instance M_ret : MRet M := fun A a j => Next a j.

#[global] Instance M_bind : MBind M := fun A B k m j =>
  match m j with
  | Next a j' => k a j'
  | Skip j' => Skip j'
  | Fail e j' => Fail e j'
  end.

Definition lift {A} (r : result A) : M A :=
  fun j => match r with Ok a => Next a j | Raise e => Fail e j end.

Definition effect (g : Job -> Job) : M unit := fun j => Next tt (g j).

Definition continue_ : M unit := fun j => Skip j.

(* ===================================================================== *)
(** * The worker: CleanerWorker.clean_one *)
(* ===================================================================== *)

(** The text [write_fxmanifest] writes. *)
Definition fxmanifest_content (resource_name : string) : string :=
  "fx_version 'cerulean'
game 'gta5'

author '" +:+ resource_name +:+ "'
description 'Auto-cleaned MLO resource (ymap/ytyp/models/textures only)'
version '1.0.0'

this_is_a_map 'yes'

files {
  'stream/*'
}
".

Definition write_fxmanifest (fs : FS) (dest_root : Path) (resource_name : string)
    : result FS :=
  Fs.write_text fs (PathOps.joinpath dest_root "fxmanifest.lua")
                (fxmanifest_content resource_name).

(** [dest_path.with_name(f"{stem}_{n}{ext}")] *)
Definition alt_name (dest_path : Path) (n : nat) : Path :=
  PathOps.with_name dest_path
    (PathOps.stem dest_path +:+ "_" +:+ pretty n +:+ PathOps.suffix dest_path).

(** The [while True] loop of the name conflict, run for at most [fuel]
    rounds from [n]. *)
Fixpoint probe (fs : FS) (dest_path : Path) (fuel n : nat) : option Path :=
  match fuel with
  | 0 => None
  | S k =>
      let alt := alt_name dest_path n in
      if negb (Fs.exists_ fs alt) then Some alt
      else probe fs dest_path k (S n)
  end.

(** The loop started at [n = 2]. The candidate names differ from each
    other, so one of the first [S (size fs)] is free ([probe_total] below)
    and the loop ends there; the fall-back is never taken. *)
Definition find_alt (fs : FS) (dest_path : Path) : Path :=
  default dest_path (probe fs dest_path (S (size fs)) 2).

Section Engine.

(** [hashlib.sha1(data).hexdigest()] *)
Variable sha1 : string -> string.

(** The rank of the first [stop_event.is_set()] that returns [True];
    [None] when nobody presses Stop. *)
Variable stop_at : option nat.

Definition sha1_file (fs : FS) (path : Path) : result string :=
  match Fs.read_file fs path with
  | Ok data => Ok (sha1 data)
  | Raise e => Raise e
  end.

(** [stop_event.is_set()] at the present count of calls. *)
Definition is_set (w : World) : bool :=
  match stop_at with
  | Some t => t <=? w_checks w
  | None => false
  end.

Section Job.

Variable c : Ctx.

Definition fs_of (j : Job) : FS := w_fs (world j).

(** [self._update_progress(progress_cb, i, total, progress_range)] *)
Definition update_progress (i : nat) (j : Job) : Job :=
  on_world (progress_cb (_update_progress (Z.of_nat i) (Z.of_nat (c_total c)) (c_range c))) j.

(** Lines 141-145: where the file goes. *)
Definition dest_path_for (f : Path) : result Path :=
  if flatten_stream (c_opts c) then
    Ok (PathOps.joinpath (c_stream_dir c) (PathOps.name f))
  else
    match PathOps.relative_to f (c_src c) with
    | Some rel => Ok (c_stream_dir c ++ rel)
    | None => Raise (ValueError f (c_src c))
    end.

(** Line 147 *)
Definition make_parent (dest_path : Path) : M unit := fun j =>
  match Fs.mkdir_parents (fs_of j) (PathOps.parent dest_path) with
  | Ok fs' => Next tt (on_world (set_fs fs') j)
  | Raise e => Fail e j
  end.

(** Lines 149-157 *)
Definition dedupe_check (i : nat) (f dest_path : Path) : M unit := fun j =>
  if dedupe (c_opts c) then
    match sha1_file (fs_of j) f with
    | Raise e => Fail e j
    | Ok h =>
        match seen_hashes j !! h with
        | Some same_as =>
            Skip (update_progress i
                   (on_world (logger (LogDeduped f same_as))
                     (on_world (ui_log (UiDeduped (c_resource_name c) (PathOps.name f)
                                                  (PathOps.name same_as)))
                       (incr_skipped j))))
        | None => Next tt (remember h dest_path j)
        end
    end
  else Next tt j.

(** Line 161: [sha1_file(dest_path) == sha1_file(f)] *)
Definition same_content (fs : FS) (dest_path f : Path) : result bool :=
  match sha1_file fs dest_path with
  | Raise e => Raise e
  | Ok hd =>
      match sha1_file fs f with
      | Raise e => Raise e
      | Ok hf => Ok (String.eqb hd hf)
      end
  end.

(** Lines 159-178: the path the copy is written to. *)
Definition resolve_conflict (i : nat) (f dest_path : Path) : M Path := fun j =>
  if Fs.exists_ (fs_of j) dest_path then
    match same_content (fs_of j) dest_path f with
    | Ok true =>
        Skip (update_progress i
               (on_world (logger (LogSkipSame f))
                 (on_world (ui_log (UiSkipSame (c_resource_name c) (PathOps.name f)))
                   (incr_skipped j))))
    | r =>
        let j1 := match r with
                  | Raise e => on_world (logger (LogHashCompareFailed f e)) j
                  | Ok _ => j
                  end in
        let alt := find_alt (fs_of j1) dest_path in
        Next alt (on_world (logger (LogNameConflict f alt)) j1)
    end
  else Next dest_path j.

(** Lines 180-183 *)
Definition copy_file (f dest_path : Path) : M unit := fun j =>
  match Fs.copy2 (fs_of j) f dest_path with
  | Raise e => Fail e j
  | Ok fs' =>
      let j1 := incr_copied (on_world (set_fs fs') j) in
      match PathOps.relative_to dest_path (c_dest_root c) with
      | None => Fail (ValueError dest_path (c_dest_root c)) j1
      | Some rel =>
          Next tt (on_world (logger (LogCopy f dest_path))
                    (on_world (ui_log (UiCopy (c_resource_name c) (PathOps.name f) rel)) j1))
      end
  end.

(** The [try] block, lines 141-183. *)
Definition try_copy (i : nat) (f : Path) : M unit :=
  dest_path ← lift (dest_path_for f);
  make_parent dest_path;;
  dedupe_check i f dest_path;;
  dest_path ← resolve_conflict i f dest_path;
  copy_file f dest_path.

(** The [except Exception] handler, lines 185-188. *)
Definition on_error (f : Path) (e : Exn) (j : Job) : Job :=
  on_world (logger (LogError f e))
    (on_world (ui_log (UiError (c_resource_name c) (PathOps.name f) e))
      (incr_errors j)).

(** One iteration after the stop check, lines 133-190. *)
Definition process_file (i : nat) (f : Path) (j : Job) : Job :=
  let '(keep, reason) :=
    should_keep_file (fs_of j) f (keep_exts (c_opts c)) (include_ybn (c_opts c)) in
  if negb keep then
    update_progress i (on_world (logger (LogSkip f reason)) (incr_skipped j))
  else
    match try_copy i f j with
    | Skip j' => j'
    | Next _ j' => update_progress i j'
    | Fail e j' => update_progress i (on_error f e j')
    end.

(** The [break] of lines 128-131. *)
Definition abort_job (j : Job) : Job :=
  on_world (logger (LogStopRequested (c_resource_name c)))
    (on_world (ui_log UiStop) (on_world tick j)).

(** [for i, f in enumerate(files, start=i)] *)
Fixpoint process_files (i : nat) (files : list Path) (j : Job) : Job :=
  match files with
  | [] => j
  | f :: rest =>
      if is_set (world j) then abort_job j
      else process_files (S i) rest (process_file i f (on_world tick j))
  end.

End Job.

Definition JobResult : Type := nat * nat * nat * Path.

(** The state at line 127. *)
Definition start_job (c : Ctx) (w : World) : Job :=
  let o := c_opts c in
  mkJob 0 0 0 ∅
    (logger (LogOptions (include_ybn o) (make_fxmanifest o) (flatten_stream o) (dedupe o))
      (logger (LogStart (c_resource_name c) (c_src c) (c_dest_root c))
        (ui_log (UiOutput (c_dest_root c))
          (ui_log (UiScanning (c_src c))
            (ui_log (UiStart (c_resource_name c)) w))))).

(** Lines 192-194. *)
Definition finish_job (c : Ctx) (j : Job) : JobResult * World :=
  ((copied j, skipped j, errors j, c_dest_root c),
   logger (LogDone (c_resource_name c) (copied j) (skipped j) (errors j))
     (ui_log (UiDone (c_resource_name c) (copied j) (skipped j) (errors j)) (world j))).

Definition dest_root_of (src out_dir : Path) : Path :=
  PathOps.joinpath out_dir (PathOps.name src +:+ "_fivem_clean").

(** Lines 99-112: the checks and the output folders; the context of the
    loop and the world it starts in, or the exception and the world it
    leaves. [src] is resolved already. *)
Definition setup_job (src out_dir : Path) (o : Options)
    (progress_range : option (Z * Z)) (w : World) : result (Ctx * list Path * World) * World :=
  if negb (Fs.exists_ (w_fs w) src) || negb (Fs.is_dir (w_fs w) src) then
    (Raise (FileNotFoundError src), w)
  else
    let resource_name := PathOps.name src in
    let dest_root := dest_root_of src out_dir in
    let stream_dir := PathOps.joinpath dest_root "stream" in
    match Fs.mkdir_parents (w_fs w) stream_dir with
    | Raise e => (Raise e, w)
    | Ok fs1 =>
        let w1 := set_fs fs1 w in
        match (if make_fxmanifest o then write_fxmanifest fs1 dest_root resource_name
               else Ok fs1) with
        | Raise e => (Raise e, w1)
        | Ok fs2 =>
            let w2 := set_fs fs2 w in
            let files := iter_files fs2 src in
            let total := Nat.max 1 (length files) in
            (Ok (mkCtx src resource_name dest_root stream_dir total progress_range o,
                 files, w2), w2)
        end
    end.

Definition clean_one (src out_dir : Path) (o : Options)
    (progress_range : option (Z * Z)) (w : World) : result JobResult * World :=
  match setup_job src out_dir o progress_range w with
  | (Raise e, w') => (Raise e, w')
  | (Ok (c, files, w0), _) =>
      let '(r, w') := finish_job c (process_files c 1 files (start_job c w0)) in
      (Ok r, w')
  end.

(* =================================================================== *)
(** * The queue: App.start.run_queue *)
(* =================================================================== *)

(** [keep_exts=set(DEFAULT_KEEP_EXTS)], the rest as ticked in the window. *)
Definition with_default_exts (o : Options) : Options :=
  mkOptions DEFAULT_KEEP_EXTS (include_ybn o) (make_fxmanifest o) (flatten_stream o) (dedupe o).

(** How the [for] loop over the sources ends. *)
Inductive LoopEnd : Type :=
| Exhausted (w : World)            (* every source had its turn *)
| Broken (w : World)               (* [break] after a stop request *)
| Raised (e : Exn) (w : World).    (* an exception left the loop *)

(** [for idx, src in enumerate(sources, start=idx)], with [n] the length
    of the whole queue. *)
Fixpoint run_jobs (n idx : nat) (sources : list Path) (out_p : Path) (o : Options)
    (w : World) : LoopEnd :=
  match sources with
  | [] => Exhausted w
  | src :: rest =>
      if is_set w then Broken (ui_log UiQueueStopped (tick w))
      else
        let w1 := ui_log (UiJob idx n (PathOps.name src)) (tick w) in
        match clean_one src out_p (with_default_exts o)
                        (Some (job_range (Z.of_nat idx) (Z.of_nat n))) w1 with
        | (Ok _, w2) => run_jobs n (S idx) rest out_p o w2
        | (Raise e, w2) => Raised e w2
        end
  end.

(** The body of [run_queue]: the loop inside [try], then "All done." or
    the [except Exception] handler. *)
Definition run_queue (sources : list Path) (out_p : Path) (o : Options) (w : World) : World :=
  match run_jobs (length sources) 1 sources out_p o w with
  | Exhausted w' | Broken w' => ui_log UiAllDone w'
  | Raised e w' => logger (LogFatal e) (ui_log (UiFatal e) w')
  end.

End Engine.

#[global] Instance LoopEnd_eq_dec : EqDecision LoopEnd.
Proof. solve_decision. Defined.

(** Equations between closed terms are settled by running both sides. *)
Ltac by_running :=
  match goal with
  | |- ?P => apply (bool_decide_eq_true_1 P); vm_compute; reflexivity
  end.


(* ===================================================================== *)
(** * Vocabulary of the statements *)
(* ===================================================================== *)

(** The layout [clean_one] gives every job: [stream_dir = dest_root / "stream"]. *)
Definition ctx_layout (c : Ctx) : Prop :=
  c_stream_dir c = c_dest_root c ++ ["stream"].

(** [fs'] is [fs] with more directories: every entry of [fs] is in [fs']
    as it was, and [fs'] has no regular file that [fs] lacks. *)
Definition adds_dirs (fs fs' : FS) : Prop :=
  fs ⊆ fs' /\ forall p data r, fs' !! p = Some (File data r) -> fs !! p = Some (File data r).

(** The records that the [try] block logs before it copies. *)
Definition is_note (m : LogMsg) : Prop :=
  match m with
  | LogHashCompareFailed _ _ | LogNameConflict _ _ => True
  | _ => False
  end.

(** What the [try] block may have done to the job when it has neither
    copied nor skipped anything yet: made directories, remembered a digest,
    logged notes. *)
Record prepared (j j1 : Job) : Prop := mkPrepared {
  prep_copied : copied j1 = copied j;
  prep_skipped : skipped j1 = skipped j;
  prep_errors : errors j1 = errors j;
  prep_seen : seen_hashes j ⊆ seen_hashes j1;
  prep_fs : adds_dirs (fs_of j) (fs_of j1);
  prep_ui : w_ui (world j1) = w_ui (world j);
  prep_progress : w_progress (world j1) = w_progress (world j);
  prep_checks : w_checks (world j1) = w_checks (world j);
  prep_log : exists notes, w_log (world j1) = w_log (world j) ++ notes /\ Forall is_note notes
}.

(** The two ways a kept file is skipped inside the [try] block. *)
Inductive SkipKind : Type :=
| SkipDeduped (same_as : Path)
| SkipIdentical.

Definition skip_ui (c : Ctx) (f : Path) (k : SkipKind) : UiMsg :=
  match k with
  | SkipDeduped same_as => UiDeduped (c_resource_name c) (PathOps.name f) (PathOps.name same_as)
  | SkipIdentical => UiSkipSame (c_resource_name c) (PathOps.name f)
  end.

Definition skip_log (f : Path) (k : SkipKind) : LogMsg :=
  match k with
  | SkipDeduped same_as => LogDeduped f same_as
  | SkipIdentical => LogSkipSame f
  end.

(** The job after a skip of kind [k], lines 152-156 and 162-166. *)
Definition skipped_as (c : Ctx) (i : nat) (f : Path) (k : SkipKind) (j : Job) : Job :=
  update_progress c i
    (on_world (logger (skip_log f k))
      (on_world (ui_log (skip_ui c f k)) (incr_skipped j))).

(** The job after [f] was copied to the free path [d], lines 180-183. *)
Definition copied_to (c : Ctx) (f d rel : Path) (data : string) (j : Job) : Job :=
  on_world (logger (LogCopy f d))
    (on_world (ui_log (UiCopy (c_resource_name c) (PathOps.name f) rel))
      (incr_copied (on_world (set_fs (<[d := File data true]> (fs_of j))) j))).


(** What the dedupe stage did to the index on the way from [j] to [j1],
    when it let the file pass: with dedupe on, the digest of the file was
    not in the index and went in, with the planned destination. *)
Definition index_step (sha1 : string -> string) (c : Ctx) (f : Path) (j j1 : Job) : Prop :=
  if dedupe (c_opts c) then
    exists data dest,
      dest_path_for c f = Ok dest /\
      fs_of j1 !! f = Some (File data true) /\
      seen_hashes j !! sha1 data = None /\
      seen_hashes j1 = <[sha1 data := dest]> (seen_hashes j)
  else seen_hashes j1 = seen_hashes j.

(** What [try_copy] found out when it ended in a skip. *)
Definition skip_cause (sha1 : string -> string) (c : Ctx) (f : Path) (k : SkipKind)
    (j j1 : Job) : Prop :=
  match k with
  | SkipDeduped same_as =>
      dedupe (c_opts c) = true /\
      seen_hashes j1 = seen_hashes j /\
      exists data, fs_of j1 !! f = Some (File data true) /\
                   seen_hashes j !! sha1 data = Some same_as
  | SkipIdentical =>
      index_step sha1 c f j j1 /\
      exists dest, dest_path_for c f = Ok dest /\
                   same_content sha1 (fs_of j1) dest f = Ok true
  end.

(** The four ways one iteration ends, with the job [j'] it leaves. *)
Inductive Outcome (sha1 : string -> string) (c : Ctx) (i : nat) (f : Path) (j j' : Job) : Prop :=
| Rejected (reason : string) :
    should_keep_file (fs_of j) f (keep_exts (c_opts c)) (include_ybn (c_opts c))
    = (false, reason) ->
    j' = update_progress c i (on_world (logger (LogSkip f reason)) (incr_skipped j)) ->
    Outcome sha1 c i f j j'
| Errored (e : Exn) (j1 : Job) :
    prepared j j1 ->
    j' = update_progress c i (on_error c f e j1) ->
    Outcome sha1 c i f j j'
| Skipped (k : SkipKind) (j1 : Job) :
    prepared j j1 ->
    skip_cause sha1 c f k j j1 ->
    j' = skipped_as c i f k j1 ->
    Outcome sha1 c i f j j'
| Copied (j1 : Job) (dest d rel : Path) (data : string) :
    prepared j j1 ->
    index_step sha1 c f j j1 ->
    dest_path_for c f = Ok dest ->
    d = dest \/ (exists m, 2 <= m /\ d = alt_name dest m) ->
    fs_of j1 !! d = None ->
    fs_of j1 !! f = Some (File data true) ->
    d = c_dest_root c ++ rel ->
    j' = update_progress c i (copied_to c f d rel data j1) ->
    Outcome sha1 c i f j j'.


(** Exactly one of the three counters goes up, by one. *)
Definition counts_one (j j' : Job) : Prop :=
  (copied j' = S (copied j) /\ skipped j' = skipped j /\ errors j' = errors j) \/
  (copied j' = copied j /\ skipped j' = S (skipped j) /\ errors j' = errors j) \/
  (copied j' = copied j /\ skipped j' = skipped j /\ errors j' = S (errors j)).

(** How many files a job looks at: all [n] of them, or those whose stop
    check, of rank [checks0] onwards, still saw the event clear. *)
Definition files_visited (stop_at : option nat) (checks0 n : nat) : nat :=
  match stop_at with
  | None => n
  | Some t => Nat.min n (t - checks0)
  end.

(** A logged copy went to a path below [stream] that now holds a file. *)
Definition copies_under (stream : Path) (fs : FS) (m : LogMsg) : Prop :=
  match m with
  | LogCopy _ d => PathOps.below stream d /\ Fs.is_file fs d = true
  | _ => True
  end.

(** What the walk yields: paths strictly below the root, with a name. *)
Definition walked (root f : Path) : Prop :=
  PathOps.below root f /\ PathOps.name f <> "".

(* ===================================================================== *)
(** * Sample inputs *)
(* ===================================================================== *)

Module Sample.

(** A stand-in for SHA-1 that tells all contents apart. *)
Definition digest (data : string) : string := data.

Definition stairs : Path := ["mlo"; "stairs.ybn"].
Definition occlusion_mesh : Path := ["mlo"; "OcclusionMesh.ydr"].

(** A resource folder [/mlo] with two models of the same name and
    different bytes, a copy of the first under another name, and a model
    that cannot be read; an empty output folder [/out]. *)
Definition disk : FS :=
  list_to_map
    [ ([], Dir); (["mlo"], Dir); (["mlo"; "a"], Dir); (["mlo"; "b"], Dir);
      (["mlo"; "a"; "x.ydr"], File "AAA" true);
      (["mlo"; "b"; "x.ydr"], File "BBB" true);
      (["mlo"; "b"; "y.ydr"], File "AAA" true);
      (["mlo"; "b"; "z.ydr"], File "ZZ" false);
      (["out"], Dir) ].

Definition fresh : World := mkWorld disk [] [] [] 0.

Definition options (flatten dedupe : bool) : Options :=
  mkOptions DEFAULT_KEEP_EXTS false false flatten dedupe.

(** The job over [/mlo] into [/out]: its folders, the files in the order
    the walk yields them, its context, and the world once it is set up. *)
Definition dest_root : Path := ["out"; "mlo_fivem_clean"].
Definition stream : Path := ["out"; "mlo_fivem_clean"; "stream"].

Definition unreadable : Path := ["mlo"; "b"; "z.ydr"].

Definition files : list Path :=
  [ unreadable; ["mlo"; "b"; "y.ydr"]; ["mlo"; "b"; "x.ydr"]; ["mlo"; "a"; "x.ydr"] ].

Definition ctx (o : Options) (range : option (Z * Z)) : Ctx :=
  mkCtx ["mlo"] "mlo" dest_root stream 4 range o.

Definition ready (w : World) : World := set_fs (w_fs w ∪ Fs.dirs_of stream) w.

(** A resource folder [/twins] with two models of the same bytes. *)
Definition twins_disk : FS :=
  list_to_map
    [ ([], Dir); (["twins"], Dir);
      (["twins"; "p.ydr"], File "AAA" true);
      (["twins"; "q.ydr"], File "AAA" true);
      (["out"], Dir) ].

Definition twins_fresh : World := mkWorld twins_disk [] [] [] 0.

Definition twins_stream : Path := ["out"; "twins_fivem_clean"; "stream"].

Definition twins_ctx : Ctx :=
  mkCtx ["twins"] "twins" ["out"; "twins_fivem_clean"] twins_stream 2 None
        (options true true).

Definition twins_ready : World :=
  set_fs (twins_disk ∪ Fs.dirs_of twins_stream) twins_fresh.

End Sample.

(* ===================================================================== *)
(** * Further vocabulary *)
(* ===================================================================== *)

(** The job when the [try] block has made the folders of [dest] and let
    the file of bytes [df] pass the dedupe stage, lines 147-157. *)
Definition staged (sha1 : string -> string) (c : Ctx) (dest : Path) (df : string)
    (j : Job) : Job :=
  let ja := on_world (set_fs (fs_of j ∪ Fs.dirs_of (PathOps.parent dest))) j in
  if dedupe (c_opts c) then remember (sha1 df) dest ja else ja.

(** Where [write_fxmanifest] writes. *)
Definition manifest_path (dest_root : Path) : Path :=
  PathOps.joinpath dest_root "fxmanifest.lua".

(** [f] is a regular file that a walk from [root] can get to: it lies
    below [root], every folder on the way down is a directory, and no name on
    the way is empty. *)
Definition reachable (fs : FS) (root f : Path) : Prop :=
  exists r,
    r <> [] /\ f = root ++ r /\ Forall (fun x => x <> "") r /\
    (forall k, 0 < k < length r -> Fs.is_dir fs (root ++ take k r) = true) /\
    Fs.is_file fs f = true.

(* ===================================================================== *)
(** * [sha1_file], chunk by chunk *)
(* ===================================================================== *)

(** What [sha1_file] called with a chunk size returns or raises. *)
Inductive Hashed : Type :=
| Digest (h : string)
| OpenError (e : Exn)          (* [path.open("rb")] raised [e] *)
| ReadLengthError (n : Z).     (* [f.read(n)] raised [ValueError] *)

#[global] Instance Hashed_eq_dec : EqDecision Hashed.
Proof. solve_decision. Defined.

(** [f.read(n)] on what is left of a file opened with ["rb"]: the bytes
    read and the rest. [-1] reads to the end, [0] reads nothing, and a length
    below [-1] raises [ValueError], here [None]. *)
Definition read_chunk (n : Z) (rest : string) : option (string * string) :=
  if (n <? -1)%Z then None
  else if (n =? -1)%Z then Some (rest, EmptyString)
  else Some (Str.take (Z.to_nat n) rest, Str.drop (Z.to_nat n) rest).

(** The [while True] loop of [sha1_file]. A [hashlib] object digests the
    concatenation of its updates, so its state is what it has been fed,
    [fed]. [None] when the fuel runs out. *)
Fixpoint hash_chunks (sha1 : string -> string) (fuel : nat) (chunk_size : Z)
    (fed rest : string) : option Hashed :=
  match fuel with
  | 0 => None
  | S k =>
      match read_chunk chunk_size rest with
      | None => Some (ReadLengthError chunk_size)
      | Some (EmptyString, _) => Some (Digest (sha1 fed))          (* if not b: break *)
      | Some (b, rest') => hash_chunks sha1 k chunk_size (fed +:+ b) rest'  (* h.update(b) *)
      end
  end.

(** [sha1_file(path, chunk_size)], with one turn of the loop more than the
    file has bytes. *)
Definition sha1_file_chunked (sha1 : string -> string) (fs : FS) (path : Path)
    (chunk_size : Z) : option Hashed :=
  match Fs.read_file fs path with
  | Raise e => Some (OpenError e)
  | Ok data => hash_chunks sha1 (2 + String.length data) chunk_size EmptyString data
  end.

(* ===================================================================== *)
(** * The progress bar: FireBar.set and App._progress *)
(* ===================================================================== *)

(** The two numbers of a [FireBar]. *)
Record FireBar : Type := mkFireBar { value : Z; maximum : Z }.

#[global] Instance FireBar_eq_dec : EqDecision FireBar.
Proof. solve_decision. Defined.

(** [FireBar.__init__]: [value = 0], [maximum = 100]. *)
Definition FireBar_init : FireBar := mkFireBar 0 100.

(** [FireBar.set(value, maximum=None)] *)
Definition FireBar_set (v : Z) (m : option Z) (b : FireBar) : FireBar :=
  let mx := match m with
            | Some m' => if (0 <? m')%Z then m' else maximum b
            | None => maximum b
            end in
  mkFireBar (Z.max 0 (Z.min v mx)) mx.

(** [App._progress(current, total)] *)
Definition _progress (current total : Z) (b : FireBar) : FireBar :=
  if (total <=? 0)%Z then FireBar_set 0 (Some 100%Z) b
  else FireBar_set current (Some total) b.

(** The bar after the calls [progress_cb(current, total)] of a list, in
    order. *)
Definition replay (calls : list (Z * Z)) (b : FireBar) : FireBar :=
  fold_left (fun b' call => _progress (fst call) (snd call) b') calls b.

(** What [_render] relies on: a positive maximum, a value from 0 to it. *)
Definition bar_ok (b : FireBar) : Prop :=
  (0 < maximum b)%Z /\ (0 <= value b <= maximum b)%Z.

(* ===================================================================== *)
(** * The queue of source folders: App.add_source, remove_selected,
      clear_sources *)
(* ===================================================================== *)

(** [self.sources] and the lines of [self.listbox]. *)
Record Queue : Type := mkQueue { sources : list Path; listbox : list string }.

#[global] Instance Queue_eq_dec : EqDecision Queue.
Proof. solve_decision. Defined.

(** What the user is shown by [messagebox.showinfo]. *)
Inductive Notice : Type :=
| AlreadyAdded.

#[global] Instance Notice_eq_dec : EqDecision Notice.
Proof. solve_decision. Defined.

(** [del l[idx]] for [idx >= 0]: an [IndexError] out of range. *)
Definition del_item {A} (idx : nat) (l : list A) : option (list A) :=
  if decide (idx < length l) then Some (delete idx l) else None.

Section SourceQueue.

(** [Path(p).resolve()] and [str(path)]. *)
Variable resolve : string -> Path.
Variable str : Path -> string.

(** [App.add_source], with [p] what [askdirectory] returned ([""] when the
    dialog was cancelled). *)
Definition add_source (p : string) (q : Queue) : Queue * option Notice :=
  match p with
  | EmptyString => (q, None)
  | _ =>
      let path := resolve p in
      if decide (path ∈ sources q) then (q, Some AlreadyAdded)
      else (mkQueue (sources q ++ [path]) (listbox q ++ [str path]), None)
  end.

(** The loop [for idx in reversed(sel)] of [remove_selected];
    [listbox.delete(idx)] does nothing out of range. [None] for an
    [IndexError]. *)
Fixpoint remove_each (idxs : list nat) (q : Queue) : option Queue :=
  match idxs with
  | [] => Some q
  | idx :: rest =>
      let lb := delete idx (listbox q) in
      match del_item idx (sources q) with
      | Some srcs => remove_each rest (mkQueue srcs lb)
      | None => None
      end
  end.

(** [App.remove_selected], with [sel] what [listbox.curselection()]
    returned. *)
Definition remove_selected (sel : list nat) (q : Queue) : option Queue :=
  match sel with
  | [] => Some q
  | _ => remove_each (reverse sel) q
  end.

(** [App.clear_sources] *)
Definition clear_sources (q : Queue) : Queue := mkQueue [] [].

(** The list box shows the queue, and no folder is queued twice. *)
Definition queue_ok (q : Queue) : Prop :=
  listbox q = map str (sources q) /\ NoDup (sources q).

End SourceQueue.

(** The items of [l] whose position, counted from [i], is not in [sel]. *)
Fixpoint unselected {A} (i : nat) (sel : list nat) (l : list A) : list A :=
  match l with
  | [] => []
  | x :: r =>
      if decide (i ∈ sel) then unselected (S i) sel r
      else x :: unselected (S i) sel r
  end.

(** What [curselection] returns: positions of the list box, ascending. *)
Definition selection_of (sel : list nat) (n : nat) : Prop :=
  StronglySorted lt sel /\ Forall (fun i => i < n) sel.

(** The file of bytes [data] at [p] is a copy the job made: [p] lies below
    [stream], and [data] is what a kept file of the walk held on the disk
    [fs0] the loop started from. *)
Definition copy_of_kept (fs0 : FS) (c : Ctx) (files : list Path) (p : Path)
    (data : string) : Prop :=
  PathOps.below (c_stream_dir c) p /\
  exists f,
    f ∈ files /\ fs0 !! f = Some (File data true) /\
    fst (should_keep_file fs0 f (keep_exts (c_opts c)) (include_ybn (c_opts c))) = true.

(** The files a stretch of the log file reports as copied, in order. *)
Definition copy_sources (log : list LogMsg) : list Path :=
  omap (fun m => match m with LogCopy f _ => Some f | _ => None end) log.

(** The bytes of the file at [f]; [""] where there is no file. *)
Definition content (fs : FS) (f : Path) : string :=
  match fs !! f with
  | Some (File data _) => data
  | _ => EmptyString
  end.

(* ===================================================================== *)
(** * The loop when the classification can raise *)
(* ===================================================================== *)

(** How the loop of a job ends: it runs out of files or is stopped, or an
    exception leaves it, and with it [clean_one]. *)
Inductive LoopResult : Type :=
| Done (j : Job)
| Escaped (e : Exn) (j : Job).

#[global] Instance LoopResult_eq_dec : EqDecision LoopResult.
Proof. solve_decision. Defined.

Section Stat.

Variable sha1 : string -> string.
Variable stop_at : option nat.

(** The paths for which [os.stat] raises [PermissionError]: the entries
    of a folder that may be listed but not searched. [Path.is_dir] lets this
    error through (Python up to 3.12). *)
Variable denied : Path -> bool.

(** [p.is_dir()] *)
Definition is_dir_py (fs : FS) (p : Path) : result bool :=
  if denied p then Raise (PermissionError p) else Ok (Fs.is_dir fs p).

(** [should_keep_file(p, keep_exts, include_ybn)]: its first statement is
    [if p.is_dir()], nothing after it looks at the disk. *)
Definition should_keep_file_py (fs : FS) (p : Path) (keep_exts : gset string)
    (include_ybn : bool) : result (bool * string) :=
  match is_dir_py fs p with
  | Raise e => Raise e
  | Ok _ => Ok (should_keep_file fs p keep_exts include_ybn)
  end.

(** Lines 127-190 with line 133 as it is, outside the [try] block: what
    it raises leaves the loop. *)
Fixpoint process_files_py (c : Ctx) (i : nat) (files : list Path) (j : Job) : LoopResult :=
  match files with
  | [] => Done j
  | f :: rest =>
      if is_set stop_at (world j) then Done (abort_job c j)
      else
        let j0 := on_world tick j in
        match should_keep_file_py (fs_of j0) f (keep_exts (c_opts c))
                                  (include_ybn (c_opts c)) with
        | Raise e => Escaped e j0
        | Ok _ => process_files_py c (S i) rest (process_file sha1 c i f j0)
        end
  end.

(** [clean_one] over that loop. *)
Definition clean_one_py (src out_dir : Path) (o : Options)
    (progress_range : option (Z * Z)) (w : World) : result JobResult * World :=
  match setup_job src out_dir o progress_range w with
  | (Raise e, w') => (Raise e, w')
  | (Ok (c, files, w0), _) =>
      match process_files_py c 1 files (start_job c w0) with
      | Done j => let '(r, w') := finish_job c j in (Ok r, w')
      | Escaped e j => (Raise e, world j)
      end
  end.

End Stat.

(* ===================================================================== *)
(** * [os.walk] with folders it does not enter *)
(* ===================================================================== *)

(** ASCII strings: on them [Str.lower] is [str.lower]. *)
Fixpoint is_ascii (s : string) : bool :=
  match s with
  | EmptyString => true
  | String a r => (nat_of_ascii a <? 128) && is_ascii r
  end.

Section OsWalk.

(** The folders [os.scandir] cannot list, and the folders that are
    symbolic links. *)
Variable unlistable : Path -> bool.
Variable islink : Path -> bool.

(** [os.walk(d)] with [onerror=None] and [followlinks=False], top down,
    flattened to the [dirpath / fn] it yields: a folder that cannot be listed
    yields nothing, and a sub-folder that is a link is named but not
    entered. *)
Fixpoint walk_os (depth : nat) (fs : FS) (d : Path) : list Path :=
  match depth with
  | 0 => []
  | S k =>
      if unlistable d then []
      else
        let es := Fs.listdir fs d in
        Fs.files_in d es
        ++ flat_map (fun sub => if islink sub then [] else walk_os k fs sub)
                    (Fs.subdirs_in d es)
  end.

Definition iter_files_os (fs : FS) (root : Path) : list Path :=
  walk_os (S (size fs)) fs root.

(** [f] is a regular file that [os.walk] gets to from [root]: the folders
    on the way down are directories, none of them below [root] is a link, and
    all of them, [root] too, can be listed. *)
Definition reachable_os (fs : FS) (root f : Path) : Prop :=
  exists r,
    r <> [] /\ f = root ++ r /\ Forall (fun x => x <> "") r /\
    (forall k, 0 < k < length r ->
               Fs.is_dir fs (root ++ take k r) = true /\ islink (root ++ take k r) = false) /\
    (forall k, k < length r -> unlistable (root ++ take k r) = false) /\
    Fs.is_file fs f = true.

End OsWalk.

(* ===================================================================== *)
(** * The log file on the disk *)
(* ===================================================================== *)

Section LogFile.

(** The log file of the run, [out_dir / mlo_cleaner_<ts>.log], which
    [_setup_logger] makes before the queue starts, and the text that the
    [FileHandler] has written for a list of records. *)
Variable logfile : Path.
Variable render : list LogMsg -> string.

(** The disk as the program has it: the entries of [w_fs], and the log
    file, which holds the records logged so far. *)
Definition disk_of (w : World) : FS :=
  <[logfile := File (render (w_log w)) true]> (w_fs w).

End LogFile.

(* ===================================================================== *)
(** * Properties of the string and path operations *)
(* ===================================================================== *)

Section StringFacts.

Lemma lower_app (s t : string) :
  Str.lower (s +:+ t) = Str.lower s +:+ Str.lower t.
Proof.
  induction s as [|a s IH]; [reflexivity|].
  cbn [Str.lower]. change (String a s +:+ t) with (String a (s +:+ t)).
  cbn [Str.lower]. now rewrite IH.
Qed.

Lemma startswith_app (p r : string) : Str.startswith p (p +:+ r) = true.
Proof.
  induction p as [|a p IH]; [reflexivity|].
  change (String a p +:+ r) with (String a (p +:+ r)).
  cbn [Str.startswith]. now rewrite Ascii.eqb_refl.
Qed.

Lemma contains_app (sub pre post : string) :
  Str.contains sub (pre +:+ sub +:+ post) = true.
Proof.
  induction pre as [|a pre IH].
  - change (EmptyString +:+ sub +:+ post) with (sub +:+ post).
    destruct (sub +:+ post) eqn:E; cbn [Str.contains];
      rewrite <- E, startswith_app; reflexivity.
  - change (String a pre +:+ sub +:+ post) with (String a (pre +:+ sub +:+ post)).
    cbn [Str.contains]. rewrite IH. apply orb_true_r.
Qed.

Lemma contains_inv (sub s : string) :
  Str.contains sub s = true -> exists pre post, s = pre +:+ sub +:+ post.
Proof.
  assert (Hsw : forall p t, Str.startswith p t = true -> exists r, t = p +:+ r).
  { induction p as [|a p IH]; intros t H.
    - now exists t.
    - destruct t as [|b t]; [discriminate|]. cbn [Str.startswith] in H.
      destruct (Ascii.eqb a b) eqn:E; [|discriminate].
      apply Ascii.eqb_eq in E as ->. destruct (IH _ H) as [r ->]. now exists r. }
  induction s as [|a s IH]; cbn [Str.contains]; intros H.
  - rewrite orb_false_r in H. destruct (Hsw _ _ H) as [r Hr].
    exists EmptyString, r. exact Hr.
  - apply orb_true_iff in H as [H|H].
    + destruct (Hsw _ _ H) as [r Hr]. exists EmptyString, r. exact Hr.
    + destruct (IH H) as (pre & post & ->). now exists (String a pre), post.
Qed.

End StringFacts.

(* ===================================================================== *)
(** * The classifier *)
(* ===================================================================== *)

Section Classifier.

Lemma is_occlusion_name_intro (p : Path) (pre mid post : string) :
  PathOps.name p = pre +:+ mid +:+ post ->
  Str.lower mid = "occl" \/ Str.lower mid = "occlusion" ->
  is_occlusion_name p = true.
Proof.
  intros Hn Hmid. unfold is_occlusion_name. rewrite Hn, !lower_app.
  destruct Hmid as [-> | ->]; rewrite contains_app;
    [reflexivity | apply orb_true_r].
Qed.

(** C4. A path that is no directory and whose base name contains [occl]
    or [occlusion], in any letter case, is rejected with the reason
    [occlusion_file_name], whatever its extension, the allowed extensions
    and the collision flag are: the rule comes before the rules on the
    extension. *)
Theorem occlusion_name_rejected (fs : FS) (p : Path) (exts : gset string)
    (flag : bool) (pre mid post : string) :
  Fs.is_dir fs p = false ->
  PathOps.name p = pre +:+ mid +:+ post ->
  Str.lower mid = "occl" \/ Str.lower mid = "occlusion" ->
  should_keep_file fs p exts flag = (false, "occlusion_file_name").
Proof.
  intros Hdir Hn Hmid. unfold should_keep_file.
  rewrite Hdir, (is_occlusion_name_intro p pre mid post Hn Hmid). reflexivity.
Qed.

Lemma occlusion_name_rejected_witness :
  should_keep_file ∅ Sample.occlusion_mesh DEFAULT_KEEP_EXTS true
  = (false, "occlusion_file_name").
Proof.
  apply (occlusion_name_rejected ∅ Sample.occlusion_mesh DEFAULT_KEEP_EXTS true
           "" "Occlusion" "Mesh.ydr").
  - reflexivity.
  - reflexivity.
  - right. reflexivity.
Defined.

(** C3, as the code has it. A path that is no directory, whose name is
    no occlusion name and whose lower-cased suffix is [.ybn] is rejected
    with the reason [ybn_disabled] when collision files are off, and kept
    with the reason [kept] when they are on. *)
Theorem ybn_gate (fs : FS) (p : Path) (exts : gset string) :
  Fs.is_dir fs p = false ->
  is_occlusion_name p = false ->
  Str.lower (PathOps.suffix p) = ".ybn" ->
  should_keep_file fs p exts false = (false, "ybn_disabled") /\
  should_keep_file fs p exts true = (true, "kept").
Proof.
  intros Hdir Hocc Hext. unfold should_keep_file.
  rewrite Hdir, Hocc, Hext. cbn. rewrite orb_true_r. split; reflexivity.
Qed.

Lemma ybn_gate_witness :
  should_keep_file ∅ Sample.stairs DEFAULT_KEEP_EXTS false = (false, "ybn_disabled") /\
  should_keep_file ∅ Sample.stairs DEFAULT_KEEP_EXTS true = (true, "kept").
Proof.
  apply (ybn_gate ∅ Sample.stairs DEFAULT_KEEP_EXTS); reflexivity.
Defined.

(** C3, as the specification words it, fails: the reason given for
    [stairs.ybn] with the flag off is not [collision_disabled]. *)
Lemma collision_disabled_counterexample :
  Fs.is_dir ∅ Sample.stairs = false /\
  is_occlusion_name Sample.stairs = false /\
  Str.lower (PathOps.suffix Sample.stairs) = ".ybn" /\
  should_keep_file ∅ Sample.stairs DEFAULT_KEEP_EXTS false
  <> (false, "collision_disabled").
Proof. repeat split; try reflexivity. vm_compute. discriminate. Qed.

End Classifier.

(* ===================================================================== *)
(** * Paths *)
(* ===================================================================== *)

Section PathFacts.

Lemma string_length_app (s t : string) :
  String.length (s +:+ t) = String.length s + String.length t.
Proof.
  induction s as [|a s IH]; [reflexivity|].
  change (String a s +:+ t) with (String a (s +:+ t)). cbn. now rewrite IH.
Qed.

Lemma string_app_inv_tail (s1 s2 e : string) :
  s1 +:+ e = s2 +:+ e -> s1 = s2.
Proof.
  revert s2. induction s1 as [|a s1 IH]; intros [|b s2] H.
  - reflexivity.
  - apply (f_equal String.length) in H.
    rewrite !string_length_app in H. cbn in H. lia.
  - apply (f_equal String.length) in H.
    rewrite !string_length_app in H. cbn in H. lia.
  - change (String a (s1 +:+ e) = String b (s2 +:+ e)) in H.
    injection H as -> H. f_equal. now apply IH.
Qed.

Lemma take_drop (n : nat) (s : string) : Str.take n s +:+ Str.drop n s = s.
Proof.
  revert s. induction n as [|n IH]; intros [|a s]; try reflexivity.
  cbn [Str.take Str.drop]. change (String a (Str.take n s +:+ Str.drop n s) = String a s).
  now rewrite IH.
Qed.

Lemma stem_suffix (nm : string) : PathOps.stem_of nm +:+ PathOps.suffix_of nm = nm.
Proof.
  unfold PathOps.stem_of, PathOps.suffix_of.
  destruct (PathOps.suffix_pos nm); [apply take_drop|].
  induction nm as [|a nm IH]; [reflexivity|].
  change (String a nm +:+ EmptyString) with (String a (nm +:+ EmptyString)).
  now rewrite IH.
Qed.

Lemma name_snoc (d : Path) (x : string) : PathOps.name (d ++ [x]) = x.
Proof. unfold PathOps.name. now rewrite last_snoc. Qed.

Lemma parent_snoc (d : Path) (x : string) : PathOps.parent (d ++ [x]) = d.
Proof. apply removelast_last. Qed.

Lemma relative_to_app (b r : Path) : PathOps.relative_to (b ++ r) b = Some r.
Proof.
  induction b as [|x b IH]; [reflexivity|].
  cbn. now rewrite String.eqb_refl.
Qed.

Lemma relative_to_Some (p b r : Path) :
  PathOps.relative_to p b = Some r -> p = b ++ r.
Proof.
  revert p. induction b as [|x b IH]; intros p H.
  - cbn in H. now injection H as ->.
  - destruct p as [|y p]; [discriminate|]. cbn in H.
    destruct (String.eqb x y) eqn:E; [|discriminate].
    apply String.eqb_eq in E as ->. cbn. f_equal. now apply IH.
Qed.

Import PathOps.

Lemma below_relative_to (b p : Path) :
  below b p -> exists r, PathOps.relative_to p b = Some r.
Proof. intros (r & _ & ->). exists r. apply relative_to_app. Qed.

Lemma below_with_name (b p : Path) (nm : string) :
  below b p -> below b (PathOps.with_name p nm).
Proof.
  intros (r & Hr & ->). exists (removelast r ++ [nm]). split.
  - now destruct (removelast r).
  - unfold PathOps.with_name, PathOps.parent.
    rewrite removelast_app by assumption. now rewrite <- app_assoc.
Qed.

Lemma below_trans (a b p : Path) : below a b -> below b p -> below a p.
Proof.
  intros (r1 & H1 & ->) (r2 & H2 & ->). exists (r1 ++ r2). split.
  - now destruct r1.
  - now rewrite app_assoc.
Qed.

Lemma below_prefix (b p : Path) : below b p -> b `prefix_of` p.
Proof. intros (r & _ & ->). now exists r. Qed.

Lemma ancestors_length (d q : Path) :
  q ∈ PathOps.ancestors d -> length q <= length d.
Proof.
  revert q. induction d as [|x d IH]; intros q; cbn.
  - intros ->%list_elem_of_singleton. reflexivity.
  - intros [-> | H]%elem_of_cons; [cbn; lia|].
    apply list_elem_of_fmap in H as (q' & -> & H). cbn. apply IH in H. lia.
Qed.

Lemma ancestors_self (d : Path) : d ∈ PathOps.ancestors d.
Proof.
  induction d as [|x d IH]; cbn.
  - apply list_elem_of_here.
  - apply list_elem_of_further, list_elem_of_fmap. now exists d.
Qed.

Lemma alt_name_parent (d : Path) (n : nat) :
  PathOps.parent (alt_name d n) = PathOps.parent d.
Proof. unfold alt_name, PathOps.with_name. apply parent_snoc. Qed.

Lemma alt_name_inj (d : Path) (n m : nat) : alt_name d n = alt_name d m -> n = m.
Proof.
  unfold alt_name, PathOps.with_name. intros H.
  apply app_inv_head in H. injection H as H.
  apply String.app_inj in H. apply (String.app_inj "_") in H.
  apply string_app_inv_tail in H. now apply pretty_nat_inj in H.
Qed.

Lemma alt_name_not_ancestor (d : Path) (n : nat) :
  alt_name d n ∉ PathOps.ancestors (PathOps.parent d).
Proof.
  intros H%ancestors_length. unfold alt_name, PathOps.with_name in H.
  rewrite length_app in H. cbn in H. lia.
Qed.

Lemma alt_name_length (d : Path) (n : nat) :
  String.length (PathOps.name (alt_name d n))
  = String.length (PathOps.name d) + 1 + String.length (pretty n).
Proof.
  unfold alt_name, PathOps.with_name. rewrite name_snoc.
  pose proof (f_equal String.length (stem_suffix (PathOps.name d))) as E.
  rewrite string_length_app in E.
  unfold PathOps.stem, PathOps.suffix. rewrite !string_length_app. cbn. lia.
Qed.

Lemma alt_name_neq (d : Path) (n : nat) : alt_name d n <> d.
Proof.
  intros H. pose proof (alt_name_length d n) as L. rewrite H in L. lia.
Qed.

End PathFacts.

(* ===================================================================== *)
(** * The file system *)
(* ===================================================================== *)

Section FsFacts.

Lemma dirs_of_lookup (d q : Path) (nd : Node) :
  Fs.dirs_of d !! q = Some nd -> nd = Dir /\ q ∈ PathOps.ancestors d.
Proof.
  intros H. apply elem_of_list_to_map_2 in H.
  apply list_elem_of_In, in_map_iff in H.
  destruct H as (q' & [= -> ->] & H). split; [reflexivity|].
  now apply list_elem_of_In.
Qed.

Lemma dirs_of_ancestor (d q : Path) :
  q ∈ PathOps.ancestors d -> Fs.dirs_of d !! q = Some Dir.
Proof.
  intros H. destruct (Fs.dirs_of d !! q) as [nd|] eqn:E.
  - now apply dirs_of_lookup in E as [-> _].
  - apply not_elem_of_list_to_map in E. exfalso. apply E.
    apply list_elem_of_fmap. exists (q, Dir). split; [reflexivity|].
    apply list_elem_of_In, in_map_iff. exists q. split; [reflexivity|].
    now apply list_elem_of_In.
Qed.

Lemma mkdir_parents_Ok (fs fs' : FS) (d : Path) :
  Fs.mkdir_parents fs d = Ok fs' ->
  fs' = fs ∪ Fs.dirs_of d /\
  forall q, q ∈ PathOps.ancestors d -> Fs.is_file fs q = false.
Proof.
  unfold Fs.mkdir_parents.
  destruct (list_find _ _) as [[k q]|] eqn:E; [discriminate|].
  intros [= <-]. split; [reflexivity|].
  apply list_find_None in E. rewrite Forall_forall in E.
  intros q Hq. specialize (E q Hq).
  destruct (Fs.is_file fs q); [exfalso; now apply E | reflexivity].
Qed.

Lemma mkdir_parents_subseteq (fs fs' : FS) (d : Path) :
  Fs.mkdir_parents fs d = Ok fs' -> fs ⊆ fs'.
Proof. intros [-> _]%mkdir_parents_Ok. apply map_union_subseteq_l. Qed.

Lemma mkdir_parents_lookup (fs fs' : FS) (d p : Path) :
  Fs.mkdir_parents fs d = Ok fs' ->
  fs' !! p = fs !! p \/ (fs !! p = None /\ fs' !! p = Some Dir /\ p ∈ PathOps.ancestors d).
Proof.
  intros [-> _]%mkdir_parents_Ok.
  destruct (fs !! p) as [nd|] eqn:E.
  - left. rewrite lookup_union_l' by (rewrite E; eauto). exact E.
  - rewrite (lookup_union_r _ _ _ E).
    destruct (Fs.dirs_of d !! p) as [nd|] eqn:E'; [|now left].
    apply dirs_of_lookup in E' as [-> H]. right. now repeat split.
Qed.

Lemma mkdir_parents_file (fs fs' : FS) (d p : Path) (data : string) (r : bool) :
  Fs.mkdir_parents fs d = Ok fs' ->
  fs' !! p = Some (File data r) <-> fs !! p = Some (File data r).
Proof.
  intros H. destruct (mkdir_parents_lookup fs fs' d p H) as [-> | (E1 & E2 & _)];
    [reflexivity|]. rewrite E1, E2. split; discriminate.
Qed.

Lemma mkdir_parents_other (fs fs' : FS) (d p : Path) :
  Fs.mkdir_parents fs d = Ok fs' -> p ∉ PathOps.ancestors d -> fs' !! p = fs !! p.
Proof.
  intros H Hp. now destruct (mkdir_parents_lookup fs fs' d p H) as [-> | (_ & _ & ?)].
Qed.

Lemma mkdir_parents_is_dir (fs fs' : FS) (d : Path) :
  Fs.mkdir_parents fs d = Ok fs' -> Fs.is_dir fs' d = true.
Proof.
  intros H. pose proof (ancestors_self d) as Hd.
  destruct (mkdir_parents_Ok _ _ _ H) as [-> Hf]. specialize (Hf d Hd).
  unfold Fs.is_dir, Fs.is_file in *. rewrite lookup_union.
  rewrite (dirs_of_ancestor d d Hd). now destruct (fs !! d) as [[]|].
Qed.

(** Making directories that are there already changes nothing. *)
Lemma mkdir_parents_total (fs : FS) (d : Path) :
  (forall q, q ∈ PathOps.ancestors d -> Fs.is_file fs q = false) ->
  Fs.mkdir_parents fs d = Ok (fs ∪ Fs.dirs_of d).
Proof.
  intros H. unfold Fs.mkdir_parents.
  destruct (list_find _ _) as [[k q]|] eqn:E; [|reflexivity].
  apply list_find_Some in E as (E & Hq & _).
  apply list_elem_of_lookup_2 in E. rewrite (H q E) in Hq. now destruct Hq.
Qed.

Lemma copy2_fresh (fs fs' : FS) (src dst : Path) :
  fs !! dst = None ->
  Fs.copy2 fs src dst = Ok fs' ->
  exists data, fs !! src = Some (File data true) /\
               Fs.is_dir fs (PathOps.parent dst) = true /\
               fs' = <[dst := File data true]> fs.
Proof.
  intros Hd.
  assert (Hnd : Fs.is_dir fs dst = false) by (unfold Fs.is_dir; now rewrite Hd).
  unfold Fs.copy2, Fs.read_file, Fs.write_text. rewrite Hnd, Hd.
  destruct (fs !! src) as [[data []|]|] eqn:Es; try discriminate.
  destruct (Fs.is_dir fs (PathOps.parent dst)) eqn:Ep; [|discriminate].
  intros [= <-]. now exists data.
Qed.

Lemma copy2_fresh_Ok (fs : FS) (src dst : Path) (data : string) :
  fs !! dst = None ->
  fs !! src = Some (File data true) ->
  Fs.is_dir fs (PathOps.parent dst) = true ->
  Fs.copy2 fs src dst = Ok (<[dst := File data true]> fs).
Proof.
  intros Hd Hs Hp.
  assert (Hnd : Fs.is_dir fs dst = false) by (unfold Fs.is_dir; now rewrite Hd).
  unfold Fs.copy2, Fs.read_file, Fs.write_text. now rewrite Hs, Hnd, Hd, Hp.
Qed.

Lemma exists_false (fs : FS) (p : Path) : Fs.exists_ fs p = false <-> fs !! p = None.
Proof. unfold Fs.exists_. destruct (fs !! p); split; congruence. Qed.

Lemma exists_true (fs : FS) (p : Path) : Fs.exists_ fs p = true <-> is_Some (fs !! p).
Proof.
  unfold Fs.exists_. destruct (fs !! p); split; try congruence; eauto.
  intros [? ?]. discriminate.
Qed.

End FsFacts.

(* ===================================================================== *)
(** * The search for a free name *)
(* ===================================================================== *)

Section Probe.

Lemma probe_Some (fs : FS) (d : Path) (fuel n : nat) (alt : Path) :
  probe fs d fuel n = Some alt ->
  exists m, n <= m /\ alt = alt_name d m /\ fs !! alt_name d m = None /\
            forall k, n <= k < m -> is_Some (fs !! alt_name d k).
Proof.
  revert n. induction fuel as [|fuel IH]; intros n; cbn; [discriminate|].
  destruct (Fs.exists_ fs (alt_name d n)) eqn:E; cbn.
  - intros (m & Hm & -> & Hfree & Hused)%IH. exists m. repeat split; [lia|done|].
    intros k Hk. destruct (decide (k = n)) as [->|]; [now apply exists_true|].
    apply Hused. lia.
  - intros [= <-]. exists n. repeat split; [lia|now apply exists_false|]. lia.
Qed.

Lemma probe_None (fs : FS) (d : Path) (fuel n : nat) :
  probe fs d fuel n = None ->
  forall k, n <= k < n + fuel -> is_Some (fs !! alt_name d k).
Proof.
  revert n. induction fuel as [|fuel IH]; intros n; cbn; [lia|].
  destruct (Fs.exists_ fs (alt_name d n)) eqn:E; cbn; [|discriminate].
  intros H k Hk. destruct (decide (k = n)) as [->|]; [now apply exists_true|].
  apply (IH _ H). lia.
Qed.

(** The file system has fewer entries than there are candidate names. *)
Lemma probe_total (fs : FS) (d : Path) (n : nat) :
  is_Some (probe fs d (S (size fs)) n).
Proof.
  destruct (probe fs d (S (size fs)) n) as [alt|] eqn:E; [eauto|exfalso].
  pose proof (probe_None _ _ _ _ E) as Hused.
  set (cands := alt_name d <$> seq n (S (size fs))).
  assert (Hnd : NoDup cands).
  { apply NoDup_fmap_2_strong; [|apply NoDup_seq].
    intros ? ? _ _ ?. now apply (alt_name_inj d). }
  assert (Hsub : (list_to_set cands : gset Path) ⊆ dom fs).
  { intros p Hp. apply elem_of_list_to_set, list_elem_of_fmap in Hp as (k & -> & Hk).
    apply elem_of_dom, Hused. apply elem_of_seq in Hk. lia. }
  apply subseteq_size in Hsub. rewrite size_list_to_set in Hsub by assumption.
  rewrite size_dom in Hsub. unfold cands in Hsub.
  rewrite length_fmap, length_seq in Hsub. lia.
Qed.

(** The name conflict is settled at the first free [stem_n.ext],
    counting from 2. *)
Lemma find_alt_spec (fs : FS) (d : Path) :
  exists m, 2 <= m /\ find_alt fs d = alt_name d m /\ fs !! alt_name d m = None /\
            forall k, 2 <= k < m -> is_Some (fs !! alt_name d k).
Proof.
  unfold find_alt. destruct (probe_total fs d 2) as [alt E]. rewrite E. cbn.
  apply probe_Some in E as (m & ? & -> & ? & ?). now exists m.
Qed.

End Probe.

(* ===================================================================== *)
(** * One iteration of the copy loop *)
(* ===================================================================== *)

Section Iteration.

Variable sha1 : string -> string.
Variable c : Ctx.

Lemma adds_dirs_refl (fs : FS) : adds_dirs fs fs.
Proof. split; [reflexivity | auto]. Qed.

Lemma adds_dirs_trans (fs1 fs2 fs3 : FS) :
  adds_dirs fs1 fs2 -> adds_dirs fs2 fs3 -> adds_dirs fs1 fs3.
Proof. intros [S1 F1] [S2 F2]. split; [now transitivity fs2 | eauto]. Qed.

Lemma mkdir_adds_dirs (fs fs' : FS) (d : Path) :
  Fs.mkdir_parents fs d = Ok fs' -> adds_dirs fs fs'.
Proof.
  intros H. split; [eapply mkdir_parents_subseteq; eauto|].
  intros p data r Hp. now apply (mkdir_parents_file fs fs' d p data r H).
Qed.

Lemma prepared_refl (j : Job) : prepared j j.
Proof.
  split; try reflexivity; [apply adds_dirs_refl|].
  exists []. split; [now rewrite app_nil_r | constructor].
Qed.

Lemma prepared_trans (j1 j2 j3 : Job) : prepared j1 j2 -> prepared j2 j3 -> prepared j1 j3.
Proof.
  intros [] []. split; try congruence.
  - now transitivity (seen_hashes j2).
  - eapply adds_dirs_trans; eauto.
  - destruct prep_log0 as (n1 & E1 & F1), prep_log1 as (n2 & E2 & F2).
    exists (n1 ++ n2). split; [now rewrite E2, E1, app_assoc | now apply Forall_app].
Qed.

Lemma prepared_set_fs (j : Job) (fs' : FS) :
  adds_dirs (fs_of j) fs' -> prepared j (on_world (set_fs fs') j).
Proof.
  intros H. split; try reflexivity; [exact H|].
  exists []. split; [cbn; now rewrite app_nil_r | constructor].
Qed.

Lemma prepared_remember (j : Job) (h : string) (d : Path) :
  seen_hashes j !! h = None -> prepared j (remember h d j).
Proof.
  intros H. split; try reflexivity.
  - now apply insert_subseteq.
  - apply adds_dirs_refl.
  - exists []. split; [cbn; now rewrite app_nil_r | constructor].
Qed.

Lemma prepared_note (j : Job) (m : LogMsg) :
  is_note m -> prepared j (on_world (logger m) j).
Proof.
  intros H. split; try reflexivity; [apply adds_dirs_refl|].
  exists [m]. split; [reflexivity | now repeat constructor].
Qed.

(** ** The stages of the [try] block *)

Lemma dest_path_for_below (f d : Path) :
  ctx_layout c -> dest_path_for c f = Ok d ->
  c_stream_dir c `prefix_of` d /\ PathOps.below (c_dest_root c) d.
Proof.
  unfold ctx_layout, dest_path_for. intros L.
  destruct (flatten_stream (c_opts c)).
  - intros [= <-]. unfold PathOps.joinpath.
    destruct (PathOps.name f) as [|a s].
    + split; [reflexivity|]. exists ["stream"]. now rewrite L.
    + split; [now eexists|]. exists (["stream"] ++ [String a s]).
      split; [discriminate|]. now rewrite L, <- app_assoc.
  - destruct (PathOps.relative_to f (c_src c)) as [rel|]; [|discriminate].
    intros [= <-]. split; [now eexists|]. exists (["stream"] ++ rel).
    split; [discriminate|]. now rewrite L, <- app_assoc.
Qed.

Lemma make_parent_outcome (d : Path) (j : Job) :
  match make_parent d j with
  | Next _ j1 =>
      Fs.mkdir_parents (fs_of j) (PathOps.parent d) = Ok (fs_of j1) /\
      j1 = on_world (set_fs (fs_of j1)) j /\ prepared j j1
  | Skip _ => False
  | Fail _ j1 => j1 = j
  end.
Proof.
  unfold make_parent. destruct (Fs.mkdir_parents _ _) as [fs'|e] eqn:E; [|reflexivity].
  split; [reflexivity|]. split; [reflexivity|].
  apply prepared_set_fs, (mkdir_adds_dirs _ _ _ E).
Qed.

Lemma dedupe_check_outcome (i : nat) (f d : Path) (j : Job) :
  match dedupe_check sha1 c i f d j with
  | Next _ j1 =>
      prepared j j1 /\ fs_of j1 = fs_of j /\
      (dedupe (c_opts c) = true ->
       exists data, fs_of j !! f = Some (File data true) /\
                    seen_hashes j !! sha1 data = None /\ j1 = remember (sha1 data) d j) /\
      (dedupe (c_opts c) = false -> j1 = j)
  | Skip j2 =>
      exists data same_as,
        dedupe (c_opts c) = true /\
        fs_of j !! f = Some (File data true) /\
        seen_hashes j !! sha1 data = Some same_as /\
        j2 = skipped_as c i f (SkipDeduped same_as) j
  | Fail _ j1 => j1 = j
  end.
Proof.
  unfold dedupe_check, sha1_file, Fs.read_file.
  destruct (dedupe (c_opts c)).
  - destruct (fs_of j !! f) as [[data []|]|] eqn:Ef; try reflexivity.
    destruct (seen_hashes j !! sha1 data) as [same_as|] eqn:Es.
    + exists data, same_as. now split_and!.
    + split_and!; [now apply prepared_remember | reflexivity | | discriminate].
      intros _. now exists data.
  - split_and!; [apply prepared_refl | reflexivity | discriminate | reflexivity].
Qed.

Lemma same_content_true (fs : FS) (d f : Path) :
  same_content sha1 fs d f = Ok true ->
  exists dd df, fs !! d = Some (File dd true) /\ fs !! f = Some (File df true) /\
                sha1 dd = sha1 df.
Proof.
  unfold same_content, sha1_file, Fs.read_file.
  destruct (fs !! d) as [[dd []|]|]; try discriminate.
  destruct (fs !! f) as [[df []|]|]; try discriminate.
  intros [= H%String.eqb_eq]. now exists dd, df.
Qed.

Lemma resolve_conflict_outcome (i : nat) (f d : Path) (j : Job) :
  match resolve_conflict sha1 c i f d j with
  | Next d' j1 =>
      prepared j j1 /\ fs_of j1 = fs_of j /\ seen_hashes j1 = seen_hashes j /\
      fs_of j !! d' = None /\
      (d' = d \/ exists m, 2 <= m /\ d' = alt_name d m)
  | Skip j2 =>
      same_content sha1 (fs_of j) d f = Ok true /\
      j2 = skipped_as c i f SkipIdentical j
  | Fail _ _ => False
  end.
Proof.
  unfold resolve_conflict.
  destruct (Fs.exists_ (fs_of j) d) eqn:Ex.
  - destruct (same_content sha1 (fs_of j) d f) as [[]|e] eqn:Es.
    + now split.
    + destruct (find_alt_spec (fs_of j) d) as (m & Hm & Ea & Hfree & _).
      split_and!; [now apply prepared_note | reflexivity | reflexivity | |].
      * now rewrite Ea.
      * right. exists m. now split.
    + cbn [fs_of on_world world logger w_fs].
      change (w_fs (world j)) with (fs_of j).
      destruct (find_alt_spec (fs_of j) d) as (m & Hm & Ea & Hfree & _).
      split_and!; [ | reflexivity | reflexivity | |].
      * eapply prepared_trans; now apply prepared_note.
      * now rewrite Ea.
      * right. exists m. now split.
  - apply exists_false in Ex.
    split_and!; [apply prepared_refl | reflexivity | reflexivity | assumption | now left].
Qed.

Lemma copy_file_outcome (f d : Path) (j : Job) :
  ctx_layout c -> PathOps.below (c_dest_root c) d -> fs_of j !! d = None ->
  match copy_file c f d j with
  | Next _ j2 =>
      exists data rel,
        fs_of j !! f = Some (File data true) /\ d = c_dest_root c ++ rel /\
        Fs.is_dir (fs_of j) (PathOps.parent d) = true /\
        j2 = copied_to c f d rel data j
  | Skip _ => False
  | Fail _ j1 => j1 = j
  end.
Proof.
  intros L B Hfree. unfold copy_file.
  destruct (Fs.copy2 (fs_of j) f d) as [fs'|e] eqn:E; [|reflexivity].
  apply (copy2_fresh _ _ _ _ Hfree) in E as (data & Hf & Hp & ->).
  destruct B as (rel & _ & ->). rewrite relative_to_app.
  now exists data, rel.
Qed.

End Iteration.

Section IterationOutcome.

Variable sha1 : string -> string.
Variable c : Ctx.
Hypothesis layout : ctx_layout c.

Lemma alt_below (dest : Path) (m : nat) :
  PathOps.below (c_dest_root c) dest -> PathOps.below (c_dest_root c) (alt_name dest m).
Proof. apply below_with_name. Qed.

(** Every way through the [try] block. *)
Lemma try_copy_outcome (i : nat) (f : Path) (j : Job) :
  match try_copy sha1 c i f j with
  | Fail e j1 => prepared j j1
  | Skip j2 =>
      exists k j1, prepared j j1 /\ skip_cause sha1 c f k j j1 /\ j2 = skipped_as c i f k j1
  | Next _ j2 =>
      exists j1 dest d rel data,
        prepared j j1 /\ index_step sha1 c f j j1 /\ dest_path_for c f = Ok dest /\
        (d = dest \/ exists m, 2 <= m /\ d = alt_name dest m) /\
        fs_of j1 !! d = None /\ fs_of j1 !! f = Some (File data true) /\
        d = c_dest_root c ++ rel /\
        j2 = copied_to c f d rel data j1
  end.
Proof.
  unfold try_copy, mbind, M_bind, lift.
  destruct (dest_path_for c f) as [dest|e] eqn:Ed; [|apply prepared_refl].
  destruct (dest_path_for_below c f dest layout Ed) as [_ Hbelow].
  pose proof (make_parent_outcome dest j) as H1.
  destruct (make_parent dest j) as [[] ja|ja|e ja]; [|contradiction|subst; apply prepared_refl].
  destruct H1 as (_ & Eja & P1).
  assert (Sa : seen_hashes ja = seen_hashes j) by (rewrite Eja; reflexivity).
  pose proof (dedupe_check_outcome sha1 c i f dest ja) as H2.
  destruct (dedupe_check sha1 c i f dest ja) as [[] jb|jb|e jb]; [| |now subst].
  - destruct H2 as (P2 & Hfs2 & Hon & Hoff).
    assert (Ib : index_step sha1 c f j jb).
    { unfold index_step. destruct (dedupe (c_opts c)).
      - destruct (Hon eq_refl) as (data & Hf & Hs & ->). exists data, dest.
        rewrite <- Sa. now split_and!.
      - now rewrite (Hoff eq_refl). }
    pose proof (resolve_conflict_outcome sha1 c i f dest jb) as H3.
    destruct (resolve_conflict sha1 c i f dest jb) as [d jc|jc|e jc]; [| |contradiction].
    + destruct H3 as (P3 & Hfs3 & Hseen3 & Hfree & Hd).
      assert (Ic : index_step sha1 c f j jc).
      { unfold index_step in *. destruct (dedupe (c_opts c)).
        - destruct Ib as (data & dest' & ? & ? & ? & ?). exists data, dest'.
          rewrite Hfs3, Hseen3. now split_and!.
        - now rewrite Hseen3. }
      assert (Bd : PathOps.below (c_dest_root c) d).
      { destruct Hd as [-> | (m & _ & ->)]; [assumption | now apply alt_below]. }
      rewrite <- Hfs3 in Hfree.
      pose proof (copy_file_outcome c f d jc layout Bd Hfree) as H4.
      destruct (copy_file c f d jc) as [[] jd|jd|e jd]; [|contradiction|].
      * destruct H4 as (data & rel & Hf & Hrel & _ & ->).
        exists jc, dest, d, rel, data.
        split_and!; try done. eauto using prepared_trans.
      * subst. eauto using prepared_trans.
    + destruct H3 as (Hs & ->). exists SkipIdentical, jb.
      split_and!; [eauto using prepared_trans | | reflexivity].
      split; [exact Ib | now exists dest].
  - destruct H2 as (data & same_as & Hd & Hf & Hs & ->).
    exists (SkipDeduped same_as), ja. split_and!; [assumption | | reflexivity].
    split_and!; [assumption | assumption |]. exists data. rewrite <- Sa. now split.
Qed.

Lemma process_file_outcome (i : nat) (f : Path) (j : Job) :
  Outcome sha1 c i f j (process_file sha1 c i f j).
Proof.
  unfold process_file.
  destruct (should_keep_file _ _ _ _) as [[] reason] eqn:Ek; cbn [negb].
  - pose proof (try_copy_outcome i f j) as H.
    destruct (try_copy sha1 c i f j) as [[] j2|j2|e j2].
    + destruct H as (j1 & dest & d & rel & data & ? & ? & ? & ? & ? & ? & ? & ->).
      now apply (Copied sha1 c i f j _ j1 dest d rel data).
    + destruct H as (k & j1 & ? & ? & ->). now apply (Skipped sha1 c i f j _ k j1).
    + now apply (Errored sha1 c i f j _ e j2).
  - now apply (Rejected sha1 c i f j _ reason).
Qed.

(** ** What one iteration changes *)

Lemma process_file_counts (i : nat) (f : Path) (j : Job) :
  let j' := process_file sha1 c i f j in
  counts_one j j' /\
  length (w_progress (world j')) = S (length (w_progress (world j))) /\
  w_checks (world j') = w_checks (world j).
Proof.
  cbn zeta. unfold counts_one.
  destruct (process_file_outcome i f j) as
    [reason _ -> | e j1 [] -> | k j1 [] _ -> | j1 dest d rel data [] _ _ _ _ _ _ ->];
    cbn; rewrite ?length_app; cbn.
  all: split; [|split].
  all: try (right; left; split_and!; congruence).
  all: try (right; right; split_and!; congruence).
  all: try (left; split_and!; congruence).
  all: try congruence.
  all: rewrite ?prep_progress0; lia.
Qed.

(** Nothing on the disk is changed or removed, and what is added is a
    directory or the one copy. *)
Lemma process_file_fs (i : nat) (f : Path) (j : Job) :
  fs_of j ⊆ fs_of (process_file sha1 c i f j).
Proof.
  destruct (process_file_outcome i f j) as
    [reason _ -> | e j1 [] -> | k j1 [] _ -> | j1 dest d rel data [] _ _ _ Hfree _ _ ->];
    cbn; try reflexivity; try apply prep_fs0.
  transitivity (fs_of j1); [apply prep_fs0 | now apply insert_subseteq].
Qed.

Lemma process_file_seen (i : nat) (f : Path) (j : Job) :
  seen_hashes j ⊆ seen_hashes (process_file sha1 c i f j).
Proof.
  destruct (process_file_outcome i f j) as
    [reason _ -> | e j1 [] -> | k j1 [] _ -> | j1 dest d rel data [] _ _ _ Hfree _ _ ->];
    cbn; try reflexivity; assumption.
Qed.

End IterationOutcome.

(* ===================================================================== *)
(** * The copy loop *)
(* ===================================================================== *)

Section Loop.

Variable sha1 : string -> string.
Variable stop_at : option nat.
Variable c : Ctx.
Hypothesis layout : ctx_layout c.

Lemma process_file_checks (i : nat) (f : Path) (j : Job) :
  w_checks (world (process_file sha1 c i f (on_world tick j))) = S (w_checks (world j)).
Proof. now destruct (process_file_counts sha1 c layout i f (on_world tick j)) as (_ & _ & ->). Qed.

(** As long as the event is clear the loop is the loop without a Stop
    button. *)
Lemma process_files_not_stopped (files : list Path) (i : nat) (j : Job) :
  (forall t, stop_at = Some t -> w_checks (world j) + length files <= t) ->
  process_files sha1 stop_at c i files j = process_files sha1 None c i files j.
Proof.
  revert i j. induction files as [|f rest IH]; intros i j Ht; [reflexivity|].
  cbn [process_files]. unfold is_set at 1 2.
  destruct stop_at as [t|] eqn:Es.
  - specialize (Ht t eq_refl). cbn [length] in Ht.
    destruct (Nat.leb_spec t (w_checks (world j))); [lia|].
    apply IH. intros t' [= <-]. rewrite process_file_checks. lia.
  - apply IH. discriminate.
Qed.

(** The event is seen at the check that follows [k] files: they are
    processed, the others are not looked at. *)
Lemma process_files_stopped (files : list Path) (i : nat) (j : Job) (t k : nat) :
  stop_at = Some t -> t = w_checks (world j) + k -> k < length files ->
  process_files sha1 stop_at c i files j
  = abort_job c (process_files sha1 None c i (take k files) j).
Proof.
  intros Es. revert i j k. induction files as [|f rest IH]; intros i j k Ht Hk;
    [cbn in Hk; lia|].
  cbn [process_files].
  destruct (is_set stop_at (world j)) eqn:Eset; unfold is_set in Eset; rewrite Es in Eset.
  - apply Nat.leb_le in Eset. now replace k with 0 by lia.
  - apply Nat.leb_gt in Eset. destruct k as [|k]; [lia|].
    cbn [take process_files is_set]. apply IH.
    + rewrite process_file_checks. lia.
    + cbn in Hk. lia.
Qed.

Lemma process_files_counts (files : list Path) (i : nat) (j : Job) :
  let j' := process_files sha1 stop_at c i files j in
  let v := files_visited stop_at (w_checks (world j)) (length files) in
  copied j' + skipped j' + errors j' = copied j + skipped j + errors j + v /\
  length (w_progress (world j')) = length (w_progress (world j)) + v.
Proof.
  cbn zeta. revert i j. induction files as [|f rest IH]; intros i j.
  - cbn. unfold files_visited. destruct stop_at; cbn; lia.
  - cbn [process_files length]. unfold is_set, files_visited.
    destruct stop_at as [t|] eqn:Es.
    + destruct (Nat.leb_spec t (w_checks (world j))) as [Hle|Hlt].
      * replace (t - w_checks (world j)) with 0 by lia. cbn. lia.
      * specialize (IH (S i) (process_file sha1 c i f (on_world tick j))).
        unfold files_visited in IH. rewrite process_file_checks in IH.
        destruct (process_file_counts sha1 c layout i f (on_world tick j)) as (Hc & Hp & _).
        cbn [on_world world copied skipped errors tick w_progress] in Hc, Hp.
        unfold counts_one in Hc. cbn in Hc.
        replace (Nat.min (S (length rest)) (t - w_checks (world j)))
          with (S (Nat.min (length rest) (t - S (w_checks (world j))))) by lia.
        lia.
    + specialize (IH (S i) (process_file sha1 c i f (on_world tick j))).
      unfold files_visited in IH.
      destruct (process_file_counts sha1 c layout i f (on_world tick j)) as (Hc & Hp & _).
      cbn [on_world world copied skipped errors tick w_progress] in Hc, Hp.
      unfold counts_one in Hc. cbn in Hc. lia.
Qed.

Lemma process_files_fs (files : list Path) (i : nat) (j : Job) :
  fs_of j ⊆ fs_of (process_files sha1 stop_at c i files j).
Proof.
  revert i j. induction files as [|f rest IH]; intros i j; [reflexivity|].
  cbn [process_files]. destruct (is_set stop_at (world j)); [reflexivity|].
  etransitivity; [|apply IH]. apply (process_file_fs sha1 c layout i f (on_world tick j)).
Qed.

Lemma process_files_seen (files : list Path) (i : nat) (j : Job) :
  seen_hashes j ⊆ seen_hashes (process_files sha1 stop_at c i files j).
Proof.
  revert i j. induction files as [|f rest IH]; intros i j; [reflexivity|].
  cbn [process_files]. destruct (is_set stop_at (world j)); [reflexivity|].
  etransitivity; [|apply IH]. apply (process_file_seen sha1 c layout i f (on_world tick j)).
Qed.

End Loop.

(* ===================================================================== *)
(** * Setting a job up *)
(* ===================================================================== *)

Section Setup.

Lemma setup_job_Ok (src out_dir : Path) (o : Options) (range : option (Z * Z))
    (w : World) (c : Ctx) (files : list Path) (w0 w1 : World) :
  setup_job src out_dir o range w = (Ok (c, files, w0), w1) ->
  w1 = w0 /\
  Fs.is_dir (w_fs w) src = true /\
  c = mkCtx src (PathOps.name src) (dest_root_of src out_dir)
            (dest_root_of src out_dir ++ ["stream"])
            (Nat.max 1 (length files)) range o /\
  files = iter_files (w_fs w0) src /\
  w0 = set_fs (w_fs w0) w /\
  Fs.is_dir (w_fs w0) (c_stream_dir c) = true.
Proof.
  unfold setup_job.
  destruct (Fs.exists_ (w_fs w) src); cbn [negb orb]; [|discriminate].
  destruct (Fs.is_dir (w_fs w) src) eqn:Ed; cbn [negb]; [|discriminate].
  change (PathOps.joinpath (dest_root_of src out_dir) "stream")
    with (dest_root_of src out_dir ++ ["stream"]).
  destruct (Fs.mkdir_parents _ _) as [fs1|e] eqn:Em; [|discriminate].
  pose proof (mkdir_parents_is_dir _ _ _ Em) as Hs.
  destruct (make_fxmanifest o).
  - destruct (write_fxmanifest _ _ _) as [fs2|e] eqn:Ew; [|discriminate].
    intros H. injection H as E1 E2 E3 E4. subst w1 w0 files c.
    split_and!; try reflexivity. cbn.
    unfold write_fxmanifest, Fs.write_text in Ew.
    assert (Hne : PathOps.joinpath (dest_root_of src out_dir) "fxmanifest.lua"
                  <> dest_root_of src out_dir ++ ["stream"]).
    { intros [=]%app_inv_head. }
    destruct (fs1 !! _) as [[]|] eqn:El; try discriminate Ew;
      destruct (Fs.is_dir fs1 (PathOps.parent _)); try discriminate Ew;
      injection Ew as <-; unfold Fs.is_dir in *; now rewrite lookup_insert_ne.
  - intros H. injection H as E1 E2 E3 E4. subst w1 w0 files c. now split_and!.
Qed.

Lemma setup_job_layout (src out_dir : Path) (o : Options) (range : option (Z * Z))
    (w : World) (c : Ctx) (files : list Path) (w0 w1 : World) :
  setup_job src out_dir o range w = (Ok (c, files, w0), w1) -> ctx_layout c.
Proof. intros (_ & _ & -> & _)%setup_job_Ok. reflexivity. Qed.

Lemma dest_root_of_eq (src out_dir : Path) :
  dest_root_of src out_dir = out_dir ++ [PathOps.name src +:+ "_fivem_clean"].
Proof.
  unfold dest_root_of, PathOps.joinpath.
  destruct (PathOps.name src +:+ "_fivem_clean") eqn:E; [|reflexivity].
  apply (f_equal String.length) in E. rewrite string_length_app in E. cbn in E. lia.
Qed.

End Setup.

(* ===================================================================== *)
(** * One job *)
(* ===================================================================== *)

Section OneJob.

Variable sha1 : string -> string.
Variable stop_at : option nat.

Lemma clean_one_setup (src out_dir : Path) (o : Options) (range : option (Z * Z))
    (w : World) (c : Ctx) (files : list Path) (w0 w1 : World) :
  setup_job src out_dir o range w = (Ok (c, files, w0), w1) ->
  clean_one sha1 stop_at src out_dir o range w
  = (Ok (fst (finish_job c (process_files sha1 stop_at c 1 files (start_job c w0)))),
     snd (finish_job c (process_files sha1 stop_at c 1 files (start_job c w0)))).
Proof. intros H. unfold clean_one. now rewrite H. Qed.

Lemma clean_one_raises (src out_dir : Path) (o : Options) (range : option (Z * Z))
    (w : World) :
  Fs.is_dir (w_fs w) src = false ->
  clean_one sha1 stop_at src out_dir o range w = (Raise (FileNotFoundError src), w).
Proof.
  intros H. unfold clean_one, setup_job. rewrite H. cbn [negb].
  now rewrite orb_true_r.
Qed.


End OneJob.


Section Failures.

Variable sha1 : string -> string.
Variable stop_at : option nat.

Lemma try_copy_Fail_counters (c : Ctx) (i : nat) (f : Path) (j j1 : Job) (e : Exn) :
  ctx_layout c -> try_copy sha1 c i f j = Fail e j1 -> prepared j j1.
Proof.
  intros L H. pose proof (try_copy_outcome sha1 c L i f j) as P. now rewrite H in P.
Qed.

End Failures.


(* ===================================================================== *)
(** * The queue *)
(* ===================================================================== *)

Section Queue.

Variable sha1 : string -> string.
Variable stop_at : option nat.

Lemma run_jobs_app (n idx : nat) (pre post : list Path) (out_p : Path) (o : Options)
    (w : World) :
  run_jobs sha1 stop_at n idx (pre ++ post) out_p o w
  = match run_jobs sha1 stop_at n idx pre out_p o w with
    | Exhausted w1 => run_jobs sha1 stop_at n (idx + length pre) post out_p o w1
    | stopped => stopped
    end.
Proof.
  revert idx w. induction pre as [|src pre IH]; intros idx w.
  - cbn. now rewrite Nat.add_0_r.
  - cbn [app run_jobs length]. destruct (is_set stop_at w); [reflexivity|].
    destruct (clean_one _ _ _ _ _ _ _) as [[r|e] w2]; [|reflexivity].
    rewrite IH. now replace (S idx + length pre) with (idx + S (length pre)) by lia.
Qed.

Lemma process_files_checks (c : Ctx) (L : ctx_layout c) (files : list Path) (i : nat)
    (j : Job) :
  w_checks (world (process_files sha1 None c i files j))
  = w_checks (world j) + length files.
Proof.
  revert i j. induction files as [|f rest IH]; intros i j; [cbn; lia|].
  cbn [process_files is_set length]. rewrite IH, (process_file_checks sha1 c L). lia.
Qed.

(** C1, as the code has it. When the turn of a source comes that is no
    directory (the jobs before it are done and Stop was not pressed),
    [clean_one] raises [FileNotFoundError] before it has touched anything,
    and the exception ends the whole queue: [run_queue] logs the fatal error
    and none of the sources after it gets its turn. *)
Theorem missing_source_ends_queue
    (pre : list Path) (src : Path) (rest : list Path) (out_p : Path) (o : Options)
    (w w1 : World) :
  let n := length (pre ++ src :: rest) in
  let w2 := ui_log (UiJob (S (length pre)) n (PathOps.name src)) (tick w1) in
  run_jobs sha1 stop_at n 1 pre out_p o w = Exhausted w1 ->
  is_set stop_at w1 = false ->
  Fs.is_dir (w_fs w1) src = false ->
  clean_one sha1 stop_at src out_p (with_default_exts o)
            (Some (job_range (Z.of_nat (S (length pre))) (Z.of_nat n))) w2
  = (Raise (FileNotFoundError src), w2) /\
  run_queue sha1 stop_at (pre ++ src :: rest) out_p o w
  = logger (LogFatal (FileNotFoundError src)) (ui_log (UiFatal (FileNotFoundError src)) w2).
Proof.
  intros n w2 Hpre Hset Hdir.
  assert (Hc : clean_one sha1 stop_at src out_p (with_default_exts o)
                 (Some (job_range (Z.of_nat (S (length pre))) (Z.of_nat n))) w2
               = (Raise (FileNotFoundError src), w2)).
  { now apply clean_one_raises. }
  split; [exact Hc|].
  unfold run_queue. fold n. rewrite run_jobs_app, Hpre.
  cbn [run_jobs Nat.add]. rewrite Hset. fold w2. now rewrite Hc.
Qed.

(** C8. The stop event is first seen at a check inside a job, after [k]
    of its files. The job then is the job over these [k] files alone, plus
    the two stop lines: it returns its counts, which add up to [k], and the
    files after them are not looked at. No other job is started: the loop
    over the sources ends at its next check, or has no source left. From the
    check before the job to its return the event was asked for [k + 2]
    times: once by the queue, once for each of the [k] files, and the time
    it was found set. *)
Theorem stop_ends_job_and_queue
    (t k n idx : nat) (src : Path) (rest : list Path) (out_p : Path) (o : Options)
    (w w0 : World) (c : Ctx) (files : list Path) :
  let o' := with_default_exts o in
  let range := Some (job_range (Z.of_nat idx) (Z.of_nat n)) in
  let w1 := ui_log (UiJob idx n (PathOps.name src)) (tick w) in
  let j := abort_job c (process_files sha1 None c 1 (take k files) (start_job c w0)) in
  let w' := snd (finish_job c j) in
  stop_at = Some t ->
  setup_job src out_p o' range w1 = (Ok (c, files, w0), w0) ->
  t = S (w_checks w) + k ->
  k < length files ->
  clean_one sha1 stop_at src out_p o' range w1
  = (Ok (copied j, skipped j, errors j, c_dest_root c), w') /\
  copied j + skipped j + errors j = k /\
  w_checks w' = w_checks w + (k + 2) /\
  run_jobs sha1 stop_at n idx (src :: rest) out_p o w
  = match rest with
    | [] => Exhausted w'
    | _ :: _ => Broken (ui_log UiQueueStopped (tick w'))
    end.
Proof.
  intros o' range w1 j w' Es Hs Ht Hk.
  pose proof (setup_job_layout _ _ _ _ _ _ _ _ _ Hs) as L.
  destruct (setup_job_Ok _ _ _ _ _ _ _ _ _ Hs) as (_ & _ & _ & _ & Hw0 & _).
  assert (Hck0 : w_checks (world (start_job c w0)) = S (w_checks w)).
  { cbn. rewrite Hw0. reflexivity. }
  assert (Hloop : process_files sha1 stop_at c 1 files (start_job c w0) = j).
  { apply (process_files_stopped sha1 stop_at c L files 1 _ t k Es); [|exact Hk].
    rewrite Hck0. exact Ht. }
  assert (Hc : clean_one sha1 stop_at src out_p o' range w1
               = (Ok (copied j, skipped j, errors j, c_dest_root c), w')).
  { rewrite (clean_one_setup sha1 stop_at _ _ _ _ _ _ _ _ _ Hs), Hloop. reflexivity. }
  pose proof (process_files_counts sha1 None c L (take k files) 1 (start_job c w0))
    as [Hn _].
  cbn zeta in Hn. unfold files_visited in Hn. rewrite length_take in Hn.
  assert (Hchk : w_checks (world (process_files sha1 None c 1 (take k files) (start_job c w0)))
                 = S (w_checks w) + k).
  { rewrite (process_files_checks c L), Hck0, length_take. lia. }
  split_and!.
  - exact Hc.
  - subst j. cbn in Hn |- *. lia.
  - subst w' j. cbn. rewrite Hchk. lia.
  - assert (E0 : is_set stop_at w = false).
    { unfold is_set. rewrite Es. apply Nat.leb_gt. lia. }
    assert (E1 : is_set stop_at w' = true).
    { unfold is_set. rewrite Es. apply Nat.leb_le. subst w' j. cbn. rewrite Hchk. lia. }
    cbn [run_jobs]. rewrite E0. unfold o', range, w1 in Hc. rewrite Hc.
    destruct rest as [|src' rest']; [reflexivity|].
    cbn [run_jobs]. now rewrite E1.
Qed.

End Queue.

(** C1, as the specification words it, fails: with a queue of a missing
    folder and a good one, the good one never gets its turn. *)
Lemma skip_to_next_job_counterexample :
  let w' := run_queue Sample.digest None [["nope"]; ["mlo"]] ["out"]
                      (Sample.options true false) Sample.fresh in
  Fs.is_dir Sample.disk ["nope"] = false /\
  Fs.is_dir Sample.disk ["mlo"] = true /\
  w_ui w' = [UiJob 1 2 "nope"; UiFatal (FileNotFoundError ["nope"])] /\
  w_fs w' = Sample.disk.
Proof. cbn zeta. split_and!; by_running. Qed.

Lemma missing_source_ends_queue_witness :
  run_queue Sample.digest None ([] ++ ["nope"] :: [["mlo"]]) ["out"]
            (Sample.options true false) Sample.fresh
  = logger (LogFatal (FileNotFoundError ["nope"]))
      (ui_log (UiFatal (FileNotFoundError ["nope"]))
        (ui_log (UiJob 1 2 "nope") (tick Sample.fresh))).
Proof.
  apply (missing_source_ends_queue Sample.digest None [] ["nope"] [["mlo"]] ["out"]
           (Sample.options true false) Sample.fresh Sample.fresh);
    reflexivity.
Defined.

Lemma stop_ends_job_and_queue_witness :
  let o := Sample.options true false in
  let c := Sample.ctx (with_default_exts o) (Some (job_range 1 2)) in
  let w1 := ui_log (UiJob 1 2 "mlo") (tick Sample.fresh) in
  let j := abort_job c (process_files Sample.digest None c 1 (take 2 Sample.files)
                                      (start_job c (Sample.ready w1))) in
  copied j + skipped j + errors j = 2 /\
  run_jobs Sample.digest (Some 3) 2 1 [["mlo"]; ["mlo"]] ["out"] o Sample.fresh
  = Broken (ui_log UiQueueStopped (tick (snd (finish_job c j)))).
Proof.
  cbn zeta.
  destruct (stop_ends_job_and_queue Sample.digest (Some 3) 3 2 2 1 ["mlo"] [["mlo"]]
              ["out"] (Sample.options true false) Sample.fresh
              (Sample.ready (ui_log (UiJob 1 2 "mlo") (tick Sample.fresh)))
              (Sample.ctx (with_default_exts (Sample.options true false))
                          (Some (job_range 1 2)))
              Sample.files eq_refl ltac:(by_running) eq_refl
              ltac:(vm_compute; lia))
    as (_ & H2 & _ & H4).
  exact (conj H2 H4).
Defined.

(* ===================================================================== *)
(** * The progress mapping *)
(* ===================================================================== *)

Section Progress.

(** C7 at a queue of fifty folders. The thirtieth job owns the range from
    [floor (100 * 29 / 50) = 58] on, but [(29 / 50) * 100] is
    57.99999999999999 in floating point, so the job starts at 57 and that is
    what it reports for the first of its ten files. *)
Lemma progress_below_job_subrange :
  (100 * (30 - 1) / 50 = 58)%Z /\
  job_range 30 50 = (57, 60)%Z /\
  _update_progress 1 10 (Some (job_range 30 50)) = (57, 100)%Z.
Proof. split_and!; vm_compute; reflexivity. Qed.

(** The job before ends at 57 as well: the values still never go down. *)
Lemma progress_job_29_of_50 :
  job_range 29 50 = (56, 57)%Z /\
  _update_progress 10 10 (Some (job_range 29 50)) = (57, 100)%Z.
Proof. split_and!; vm_compute; reflexivity. Qed.

(** With fewer than fifty jobs the bounds of every job are the floors. *)
Lemma job_range_exact_below_50 :
  forallb (fun n =>
    forallb (fun idx =>
      Z.eqb (job_start (Z.of_nat idx) (Z.of_nat n)) (100 * (Z.of_nat idx - 1) / Z.of_nat n) &&
      Z.eqb (job_end (Z.of_nat idx) (Z.of_nat n)) (100 * Z.of_nat idx / Z.of_nat n))
      (seq 1 n))
    (seq 1 49) = true.
Proof. vm_compute. reflexivity. Qed.

End Progress.

(* ===================================================================== *)
(** * Where the copies go *)
(* ===================================================================== *)

Section Layout.

Variable sha1 : string -> string.
Variable stop_at : option nat.

Lemma listdir_name (fs : FS) (d : Path) (x : string) (nd : Node) :
  (x, nd) ∈ Fs.listdir fs d -> x <> "".
Proof.
  unfold Fs.listdir. intros H. apply list_elem_of_omap in H as ([p nd'] & _ & H).
  destruct (PathOps.relative_to p d) as [[|y [|? ?]]|]; try discriminate.
  destruct (String.eqb y "") eqn:E; [discriminate|].
  injection H as -> ->. now apply String.eqb_neq in E.
Qed.

Lemma walk_walked (depth : nat) (fs : FS) (d f : Path) :
  f ∈ Fs.walk depth fs d -> walked d f.
Proof.
  revert d. induction depth as [|k IH]; intros d; cbn [Fs.walk].
  - intros H. now apply elem_of_nil in H.
  - intros [H|H]%elem_of_app.
    + unfold Fs.files_in in H. apply list_elem_of_omap in H as ([x nd] & Hx & H).
      destruct nd; [|discriminate]. injection H as <-.
      split; [exists [x]; now split | rewrite name_snoc; eapply listdir_name; eauto].
    + apply list_elem_of_In, in_flat_map in H as (sub & Hsub & H).
      apply list_elem_of_In in Hsub, H. apply IH in H as [Hb Hn].
      unfold Fs.subdirs_in in Hsub. apply list_elem_of_omap in Hsub as ([x nd] & _ & Hsub).
      destruct nd; [discriminate|]. injection Hsub as <-.
      split; [|exact Hn]. eapply below_trans; [|exact Hb]. exists [x]. now split.
Qed.

Lemma dest_path_for_walked (c : Ctx) (f dest : Path) :
  ctx_layout c -> walked (c_src c) f -> dest_path_for c f = Ok dest ->
  PathOps.below (c_stream_dir c) dest.
Proof.
  intros L [(r & Hr & ->) Hn]. unfold dest_path_for.
  destruct (flatten_stream (c_opts c)).
  - intros [= <-]. unfold PathOps.joinpath.
    destruct (PathOps.name (c_src c ++ r)) as [|a s]; [contradiction|].
    exists [String a s]. now split.
  - rewrite relative_to_app. intros [= <-]. now exists r.
Qed.

Lemma is_file_weaken (fs fs' : FS) (p : Path) :
  fs ⊆ fs' -> Fs.is_file fs p = true -> Fs.is_file fs' p = true.
Proof.
  unfold Fs.is_file. intros Hsub H.
  destruct (fs !! p) as [[]|] eqn:E; try discriminate.
  now rewrite (lookup_weaken _ _ _ _ E Hsub).
Qed.

Lemma is_dir_weaken (fs fs' : FS) (p : Path) :
  fs ⊆ fs' -> Fs.is_dir fs p = true -> Fs.is_dir fs' p = true.
Proof.
  unfold Fs.is_dir. intros Hsub H.
  destruct (fs !! p) as [[]|] eqn:E; try discriminate.
  now rewrite (lookup_weaken _ _ _ _ E Hsub).
Qed.

Lemma copies_under_weaken (stream : Path) (fs fs' : FS) (ms : list LogMsg) :
  fs ⊆ fs' -> Forall (copies_under stream fs) ms -> Forall (copies_under stream fs') ms.
Proof.
  intros Hsub Hall. eapply Forall_impl; [exact Hall|].
  intros [] H; cbn in *; try exact I.
  destruct H. split; [assumption | now apply (is_file_weaken fs)].
Qed.

Lemma notes_copy_free (stream : Path) (fs : FS) (ms : list LogMsg) :
  Forall is_note ms -> Forall (copies_under stream fs) ms.
Proof. intros Hall. eapply Forall_impl; [exact Hall|]. now intros []. Qed.

(** The records one iteration adds to the log file. *)
Lemma process_file_log (c : Ctx) (i : nat) (f : Path) (j : Job) :
  ctx_layout c -> walked (c_src c) f ->
  exists new,
    w_log (world (process_file sha1 c i f j)) = w_log (world j) ++ new /\
    Forall (copies_under (c_stream_dir c) (fs_of (process_file sha1 c i f j))) new.
Proof.
  intros L Hw.
  destruct (process_file_outcome sha1 c L i f j) as
    [reason _ -> | e j1 [] -> | k j1 [] _ -> | j1 dest d rel data [] _ Hdest Hd Hfree _ _ ->];
    cbn [update_progress on_error skipped_as copied_to on_world world logger ui_log
         progress_cb incr_errors incr_skipped incr_copied w_log fs_of w_fs set_fs].
  - exists [LogSkip f reason]. split; [reflexivity | now repeat constructor].
  - destruct prep_log0 as (notes & -> & Hnotes). exists (notes ++ [LogError f e]).
    split; [now rewrite app_assoc|].
    apply Forall_app. split; [now apply notes_copy_free | now repeat constructor].
  - destruct prep_log0 as (notes & -> & Hnotes). exists (notes ++ [skip_log f k]).
    split; [now rewrite app_assoc|].
    apply Forall_app. split; [now apply notes_copy_free|].
    repeat constructor. now destruct k.
  - destruct prep_log0 as (notes & -> & Hnotes). exists (notes ++ [LogCopy f d]).
    split; [now rewrite app_assoc|].
    apply Forall_app. split; [now apply notes_copy_free|].
    repeat constructor.
    + pose proof (dest_path_for_walked c f dest L Hw Hdest) as B.
      destruct Hd as [-> | (m & _ & ->)]; [exact B | now apply below_with_name].
    + cbn. unfold Fs.is_file. now rewrite lookup_insert_eq.
Qed.

Lemma process_files_log (c : Ctx) (files : list Path) (i : nat) (j : Job) :
  ctx_layout c -> Forall (walked (c_src c)) files ->
  exists new,
    w_log (world (process_files sha1 stop_at c i files j)) = w_log (world j) ++ new /\
    Forall (copies_under (c_stream_dir c) (fs_of (process_files sha1 stop_at c i files j))) new.
Proof.
  intros L. revert i j. induction files as [|f rest IH]; intros i j Hall.
  - exists []. split; [now rewrite app_nil_r | constructor].
  - cbn [process_files]. destruct (is_set stop_at (world j)).
    + exists [LogStopRequested (c_resource_name c)].
      split; [reflexivity | now repeat constructor].
    + apply Forall_cons in Hall as [Hf Hrest].
      destruct (process_file_log c i f (on_world tick j) L Hf) as (n1 & E1 & F1).
      destruct (IH (S i) (process_file sha1 c i f (on_world tick j)) Hrest) as (n2 & E2 & F2).
      exists (n1 ++ n2). split; [rewrite E2, E1; now rewrite app_assoc|].
      apply Forall_app. split; [|exact F2].
      eapply copies_under_weaken; [|exact F1]. now apply process_files_fs.
Qed.

(** C2, as the code has it. A job that returns gives back the destination
    root [out_dir / (R + "_fivem_clean")] for the source folder named [R];
    its subfolder [stream] exists, and every copy the job has logged went to
    a path below that subfolder, where a file now is. *)
Theorem copies_land_under_stream
    (src out_dir : Path) (o : Options) (range : option (Z * Z)) (w w' : World)
    (cp sk er : nat) (dest_root : Path) :
  clean_one sha1 stop_at src out_dir o range w = (Ok (cp, sk, er, dest_root), w') ->
  dest_root = out_dir ++ [PathOps.name src +:+ "_fivem_clean"] /\
  Fs.is_dir (w_fs w') (dest_root ++ ["stream"]) = true /\
  exists new,
    w_log w' = w_log w ++ new /\
    Forall (copies_under (dest_root ++ ["stream"]) (w_fs w')) new.
Proof.
  intros Hc.
  destruct (setup_job src out_dir o range w) as [[[[c files] w0]|e] w1] eqn:Hs;
    [|unfold clean_one in Hc; rewrite Hs in Hc; discriminate].
  destruct (setup_job_Ok _ _ _ _ _ _ _ _ _ Hs) as (-> & _ & Ec & Ef & Hw0 & Hdir).
  pose proof (setup_job_layout _ _ _ _ _ _ _ _ _ Hs) as L.
  rewrite (clean_one_setup sha1 stop_at _ _ _ _ _ _ _ _ _ Hs) in Hc.
  assert (Hall : Forall (walked (c_src c)) files).
  { apply Forall_forall. intros f Hf. rewrite Ef in Hf. rewrite Ec. cbn.
    now apply walk_walked in Hf. }
  destruct (process_files_log c files 1 (start_job c w0) L Hall) as (new & En & Fn).
  pose proof (process_files_fs sha1 stop_at c L files 1 (start_job c w0)) as Hsub.
  set (j := process_files sha1 stop_at c 1 files (start_job c w0)) in *.
  unfold finish_job in Hc. cbn [fst snd] in Hc. injection Hc as _ _ _ <- <-.
  assert (Er : c_dest_root c = out_dir ++ [PathOps.name src +:+ "_fivem_clean"]).
  { rewrite Ec. cbn. apply dest_root_of_eq. }
  assert (Es : c_stream_dir c = c_dest_root c ++ ["stream"]) by exact L.
  split_and!.
  - exact Er.
  - cbn. rewrite <- Es. now apply (is_dir_weaken (w_fs w0)).
  - cbn [w_log logger ui_log]. rewrite <- Es.
    assert (Hlog0 : w_log (world (start_job c w0))
                    = w_log w ++ [LogStart (c_resource_name c) (c_src c) (c_dest_root c);
                                  LogOptions (include_ybn (c_opts c)) (make_fxmanifest (c_opts c))
                                             (flatten_stream (c_opts c)) (dedupe (c_opts c))]).
    { cbn. rewrite Hw0. cbn. now rewrite <- app_assoc. }
    exists ([LogStart (c_resource_name c) (c_src c) (c_dest_root c);
             LogOptions (include_ybn (c_opts c)) (make_fxmanifest (c_opts c))
                        (flatten_stream (c_opts c)) (dedupe (c_opts c))]
            ++ new
            ++ [LogDone (c_resource_name c) (copied j) (skipped j) (errors j)]).
    split.
    + rewrite En, Hlog0. now rewrite <- !app_assoc.
    + apply Forall_app. split; [now repeat constructor|].
      apply Forall_app. split; [exact Fn | now repeat constructor].
Qed.

End Layout.

(** C2, as the specification words it, fails: the folder made for [/mlo]
    is not [mlo_clean]. *)
Lemma clean_suffix_counterexample :
  let r := clean_one Sample.digest None ["mlo"] ["out"] (Sample.options true false)
                     None Sample.fresh in
  fst r = Ok (3, 0, 1, ["out"; "mlo_fivem_clean"]) /\
  ["out"; "mlo_fivem_clean"] <> ["out"] ++ [PathOps.name ["mlo"] +:+ "_clean"] /\
  w_fs (snd r) !! ["out"; "mlo_clean"] = None.
Proof. cbn zeta. split_and!; [by_running | discriminate | by_running]. Qed.

Lemma copies_land_under_stream_witness :
  let r := clean_one Sample.digest None ["mlo"] ["out"] (Sample.options true false)
                     None Sample.fresh in
  Fs.is_dir (w_fs (snd r)) (["out"; "mlo_fivem_clean"] ++ ["stream"]) = true /\
  exists new,
    w_log (snd r) = [] ++ new /\
    Forall (copies_under (["out"; "mlo_fivem_clean"] ++ ["stream"]) (w_fs (snd r))) new.
Proof.
  cbn zeta.
  refine (proj2 (copies_land_under_stream Sample.digest None ["mlo"] ["out"]
                   (Sample.options true false) None Sample.fresh _ 3 0 1
                   ["out"; "mlo_fivem_clean"] _)).
  by_running.
Defined.

(* ===================================================================== *)
(** * Name conflicts and duplicates *)
(* ===================================================================== *)

Section Stages.

Variable sha1 : string -> string.
Variable c : Ctx.
Hypothesis layout : ctx_layout c.

Lemma should_keep_file_fs (fs fs' : FS) (f : Path) (exts : gset string) (flag : bool) :
  Fs.is_dir fs f = Fs.is_dir fs' f ->
  should_keep_file fs f exts flag = should_keep_file fs' f exts flag.
Proof. intros H. unfold should_keep_file. now rewrite H. Qed.

Lemma is_dir_of_file (fs : FS) (f : Path) (data : string) (r : bool) :
  fs !! f = Some (File data r) -> Fs.is_dir fs f = false.
Proof. intros H. unfold Fs.is_dir. now rewrite H. Qed.

Lemma make_parent_Ok (d : Path) (j : Job) :
  (forall q, q ∈ PathOps.ancestors (PathOps.parent d) -> Fs.is_file (fs_of j) q = false) ->
  make_parent d j
  = Next tt (on_world (set_fs (fs_of j ∪ Fs.dirs_of (PathOps.parent d))) j).
Proof. intros H. unfold make_parent. now rewrite (mkdir_parents_total _ _ H). Qed.

Lemma dedupe_check_hit (i : nat) (f d : Path) (j : Job) (data : string) (same_as : Path) :
  dedupe (c_opts c) = true ->
  fs_of j !! f = Some (File data true) ->
  seen_hashes j !! sha1 data = Some same_as ->
  dedupe_check sha1 c i f d j = Skip (skipped_as c i f (SkipDeduped same_as) j).
Proof.
  intros Hd Hf Hs. unfold dedupe_check, sha1_file, Fs.read_file.
  now rewrite Hd, Hf, Hs.
Qed.

Lemma dedupe_check_pass (i : nat) (f d : Path) (j : Job) (data : string) :
  fs_of j !! f = Some (File data true) ->
  (dedupe (c_opts c) = true -> seen_hashes j !! sha1 data = None) ->
  dedupe_check sha1 c i f d j
  = Next tt (if dedupe (c_opts c) then remember (sha1 data) d j else j).
Proof.
  intros Hf Hs. unfold dedupe_check, sha1_file, Fs.read_file.
  destruct (dedupe (c_opts c)); [|reflexivity]. now rewrite Hf, (Hs eq_refl).
Qed.

Lemma resolve_conflict_differs (i : nat) (f d : Path) (j : Job) (dd df : string) :
  fs_of j !! d = Some (File dd true) ->
  fs_of j !! f = Some (File df true) ->
  sha1 dd <> sha1 df ->
  resolve_conflict sha1 c i f d j
  = Next (find_alt (fs_of j) d)
         (on_world (logger (LogNameConflict f (find_alt (fs_of j) d))) j).
Proof.
  intros Hd Hf Hne. unfold resolve_conflict, Fs.exists_, same_content, sha1_file, Fs.read_file.
  rewrite Hd, Hf. now apply String.eqb_neq in Hne as ->.
Qed.

Lemma resolve_conflict_free (i : nat) (f d : Path) (j : Job) :
  fs_of j !! d = None -> resolve_conflict sha1 c i f d j = Next d j.
Proof. intros Hd. unfold resolve_conflict, Fs.exists_. now rewrite Hd. Qed.

Lemma copy_file_Ok (f d rel : Path) (data : string) (j : Job) :
  d = c_dest_root c ++ rel ->
  fs_of j !! d = None ->
  fs_of j !! f = Some (File data true) ->
  Fs.is_dir (fs_of j) (PathOps.parent d) = true ->
  copy_file c f d j = Next tt (copied_to c f d rel data j).
Proof.
  intros -> Hd Hf Hp. unfold copy_file.
  now rewrite (copy2_fresh_Ok _ _ _ _ Hd Hf Hp), relative_to_app.
Qed.

(** When the [try] block raises nothing, the folder of the destination
    could be made: no regular file is in its way. *)
Lemma try_copy_quiet_dirs (i : nat) (f dest : Path) (j : Job) :
  dest_path_for c f = Ok dest ->
  (forall e j1, try_copy sha1 c i f j <> Fail e j1) ->
  forall q, q ∈ PathOps.ancestors (PathOps.parent dest) -> Fs.is_file (fs_of j) q = false.
Proof.
  intros Hdest Hquiet.
  destruct (Fs.mkdir_parents (fs_of j) (PathOps.parent dest)) as [fs1|e] eqn:E.
  - now apply mkdir_parents_Ok in E as [_ H].
  - exfalso. apply (Hquiet e j).
    unfold try_copy, mbind, M_bind, lift, make_parent. now rewrite Hdest, E.
Qed.

Lemma try_copy_quiet_dest (i : nat) (f : Path) (j : Job) :
  (forall e j1, try_copy sha1 c i f j <> Fail e j1) ->
  exists dest, dest_path_for c f = Ok dest.
Proof.
  intros Hquiet. destruct (dest_path_for c f) as [dest|e] eqn:E; [now exists dest|].
  exfalso. apply (Hquiet e j). unfold try_copy, mbind, M_bind, lift. now rewrite E.
Qed.

(** C6, as the code has it. A kept, readable file [f] whose destination
    [dest] holds a readable file of another digest, that the dedupe stage
    lets pass (dedupe is off, or the digest of [f] is not in the index) and
    whose [try] block raises nothing, is copied, with its own bytes, to
    [stem_n.ext] for the least [n >= 2] whose name is free; that is
    [stem_2.ext] when this name is free. Nothing that was on the disk before
    is changed: the file at [dest] keeps its bytes. *)
Theorem name_conflict_takes_first_free_suffix
    (i : nat) (f dest : Path) (j : Job) (df dd reason : string) :
  should_keep_file (fs_of j) f (keep_exts (c_opts c)) (include_ybn (c_opts c))
  = (true, reason) ->
  dest_path_for c f = Ok dest ->
  fs_of j !! f = Some (File df true) ->
  fs_of j !! dest = Some (File dd true) ->
  sha1 dd <> sha1 df ->
  (dedupe (c_opts c) = true -> seen_hashes j !! sha1 df = None) ->
  (forall e j1, try_copy sha1 c i f j <> Fail e j1) ->
  exists n,
    2 <= n /\
    (forall m, 2 <= m < n -> is_Some (fs_of j !! alt_name dest m)) /\
    fs_of j !! alt_name dest n = None /\
    (fs_of j !! alt_name dest 2 = None -> n = 2) /\
    fs_of (process_file sha1 c i f j) !! alt_name dest n = Some (File df true) /\
    fs_of (process_file sha1 c i f j) !! dest = Some (File dd true) /\
    (forall p nd, fs_of j !! p = Some nd -> fs_of (process_file sha1 c i f j) !! p = Some nd) /\
    copied (process_file sha1 c i f j) = S (copied j) /\
    skipped (process_file sha1 c i f j) = skipped j /\
    errors (process_file sha1 c i f j) = errors j.
Proof.
  intros Hkeep Hdest Hf Hd Hne Hseen Hquiet.
  pose proof (try_copy_quiet_dirs i f dest j Hdest Hquiet) as Hdirs.
  set (fs1 := fs_of j ∪ Fs.dirs_of (PathOps.parent dest)).
  assert (Hmk : Fs.mkdir_parents (fs_of j) (PathOps.parent dest) = Ok fs1)
    by now apply mkdir_parents_total.
  assert (Hf1 : fs1 !! f = Some (File df true)) by now apply (mkdir_parents_file _ _ _ _ _ _ Hmk).
  assert (Hd1 : fs1 !! dest = Some (File dd true)) by now apply (mkdir_parents_file _ _ _ _ _ _ Hmk).
  destruct (find_alt_spec fs1 dest) as (n & Hn & Ealt & Hfree1 & Hused1).
  assert (Hsame : forall m, fs1 !! alt_name dest m = fs_of j !! alt_name dest m).
  { intros m. apply (mkdir_parents_other _ _ _ _ Hmk), alt_name_not_ancestor. }
  destruct (dest_path_for_below c f dest layout Hdest) as [_ Hbelow].
  destruct (alt_below c dest n Hbelow) as (rel & _ & Erel).
  set (ja := on_world (set_fs fs1) j).
  set (jb := if dedupe (c_opts c) then remember (sha1 df) dest ja else ja).
  set (jc := on_world (logger (LogNameConflict f (alt_name dest n))) jb).
  assert (Efs : fs_of jc = fs1) by (unfold jc, jb; now destruct (dedupe (c_opts c))).
  assert (Estep : process_file sha1 c i f j
                  = update_progress c i (copied_to c f (alt_name dest n) rel df jc)).
  { unfold process_file. rewrite Hkeep. cbn [negb].
    unfold try_copy, mbind, M_bind, lift. rewrite Hdest, (make_parent_Ok dest j Hdirs).
    fold fs1 ja. rewrite (dedupe_check_pass i f dest ja df Hf1 Hseen). fold jb.
    assert (Efb : fs_of jb = fs1) by (unfold jb; now destruct (dedupe (c_opts c))).
    rewrite (resolve_conflict_differs i f dest jb dd df); rewrite ?Efb; try assumption.
    rewrite Ealt. fold jc.
    rewrite (copy_file_Ok f (alt_name dest n) rel df jc Erel); rewrite ?Efs; try assumption.
    - reflexivity.
    - rewrite alt_name_parent. apply (mkdir_parents_is_dir _ _ _ Hmk). }
  assert (Efs' : fs_of (process_file sha1 c i f j) = <[alt_name dest n := File df true]> fs1).
  { rewrite Estep. cbn. now rewrite <- Efs. }
  exists n. split_and!.
  - exact Hn.
  - intros m Hm. rewrite <- Hsame. now apply Hused1.
  - now rewrite <- Hsame.
  - intros H2. destruct (decide (n = 2)) as [|Hne2]; [assumption|].
    destruct (Hused1 2 ltac:(lia)) as [x Hx]. rewrite Hsame, H2 in Hx. discriminate.
  - rewrite Efs'. apply lookup_insert_eq.
  - rewrite Efs', lookup_insert_ne; [exact Hd1|].
    intros E. rewrite E in Hfree1. congruence.
  - intros p nd Hp. rewrite Efs'.
    assert (Hp1 : fs1 !! p = Some nd).
    { eapply lookup_weaken; [exact Hp | apply (mkdir_parents_subseteq _ _ _ Hmk)]. }
    rewrite lookup_insert_ne; [exact Hp1|]. intros E. rewrite E in Hfree1. congruence.
  - rewrite Estep. unfold jc, jb, ja. now destruct (dedupe (c_opts c)).
  - rewrite Estep. unfold jc, jb, ja. now destruct (dedupe (c_opts c)).
  - rewrite Estep. unfold jc, jb, ja. now destruct (dedupe (c_opts c)).
Qed.

End Stages.

Section Index.

Variable sha1 : string -> string.
Variable c : Ctx.

(** The index after one iteration: as before, or with the digest of the
    file, which was not in it, bound to the planned destination. *)
Lemma try_copy_index (i : nat) (f : Path) (j : Job) :
  let jx := match try_copy sha1 c i f j with
            | Next _ j' | Skip j' | Fail _ j' => j'
            end in
  seen_hashes jx = seen_hashes j \/
  exists data dest,
    dedupe (c_opts c) = true /\ fs_of j !! f = Some (File data true) /\
    dest_path_for c f = Ok dest /\ seen_hashes j !! sha1 data = None /\
    seen_hashes jx = <[sha1 data := dest]> (seen_hashes j).
Proof.
  cbn zeta. unfold try_copy, mbind, M_bind, lift.
  destruct (dest_path_for c f) as [dest|e] eqn:Ed; [|now left].
  rewrite <- Ed.
  pose proof (make_parent_outcome dest j) as H1.
  destruct (make_parent dest j) as [[] ja|ja|e ja]; [|contradiction|subst; now left].
  destruct H1 as (Hmk & Eja & _).
  assert (Sa : seen_hashes ja = seen_hashes j) by (rewrite Eja; reflexivity).
  pose proof (dedupe_check_outcome sha1 c i f dest ja) as H2.
  destruct (dedupe_check sha1 c i f dest ja) as [[] jb|jb|e jb].
  - destruct H2 as (_ & _ & Hon & Hoff).
    assert (Hb : seen_hashes jb = seen_hashes j \/
                 exists data dest,
                   dedupe (c_opts c) = true /\ fs_of j !! f = Some (File data true) /\
                   dest_path_for c f = Ok dest /\ seen_hashes j !! sha1 data = None /\
                   seen_hashes jb = <[sha1 data := dest]> (seen_hashes j)).
    { destruct (dedupe (c_opts c)) eqn:Edd.
      - right. destruct (Hon eq_refl) as (data & Hf & Hs & ->). exists data, dest.
        rewrite Sa in Hs. split_and!; try done.
        + now apply (mkdir_parents_file _ _ _ _ _ _ Hmk).
        + cbn. now rewrite Sa.
      - left. now rewrite (Hoff eq_refl). }
    pose proof (resolve_conflict_outcome sha1 c i f dest jb) as H3.
    destruct (resolve_conflict sha1 c i f dest jb) as [d jc|jc|e jc]; [| |contradiction].
    + destruct H3 as (_ & _ & Hseen3 & _).
      assert (Hx : forall jx, seen_hashes jx = seen_hashes jc ->
                 seen_hashes jx = seen_hashes j \/
                 exists data dest,
                   dedupe (c_opts c) = true /\ fs_of j !! f = Some (File data true) /\
                   dest_path_for c f = Ok dest /\ seen_hashes j !! sha1 data = None /\
                   seen_hashes jx = <[sha1 data := dest]> (seen_hashes j)).
      { intros jx ->. now rewrite Hseen3. }
      unfold copy_file. destruct (Fs.copy2 (fs_of jc) f d); [|now apply Hx].
      destruct (PathOps.relative_to d (c_dest_root c)); now apply Hx.
    + destruct H3 as (_ & ->). exact Hb.
  - destruct H2 as (data & same_as & _ & _ & _ & ->). now left.
  - subst jb. now left.
Qed.

Lemma process_file_index (i : nat) (f : Path) (j : Job) :
  seen_hashes (process_file sha1 c i f j) = seen_hashes j \/
  exists data dest,
    dedupe (c_opts c) = true /\ fs_of j !! f = Some (File data true) /\
    dest_path_for c f = Ok dest /\ seen_hashes j !! sha1 data = None /\
    seen_hashes (process_file sha1 c i f j) = <[sha1 data := dest]> (seen_hashes j).
Proof.
  unfold process_file.
  destruct (should_keep_file _ _ _ _) as [[] reason]; cbn [negb]; [|now left].
  pose proof (try_copy_index i f j) as H. cbn zeta in H.
  destruct (try_copy sha1 c i f j) as [[] j2|j2|e j2]; exact H.
Qed.

End Index.

Section Dedupe.

Variable sha1 : string -> string.
Variable stop_at : option nat.
Variable c : Ctx.
Hypothesis layout : ctx_layout c.
Hypothesis dedupe_on : dedupe (c_opts c) = true.

Lemma adds_dirs_file (fs fs' : FS) (p : Path) (data : string) (r : bool) :
  adds_dirs fs fs' -> fs !! p = Some (File data r) -> fs' !! p = Some (File data r).
Proof. intros [Hsub _] H. exact (lookup_weaken _ _ _ _ H Hsub). Qed.

Lemma index_step_on (f : Path) (j j1 : Job) (data : string) :
  index_step sha1 c f j j1 -> fs_of j1 !! f = Some (File data true) ->
  seen_hashes j !! sha1 data = None /\
  exists dest, seen_hashes j1 = <[sha1 data := dest]> (seen_hashes j).
Proof.
  unfold index_step. rewrite dedupe_on.
  intros (data' & dest & _ & Hf & Hnone & Hseen) Hf'.
  rewrite Hf in Hf'. injection Hf' as ->. split; [assumption | now exists dest].
Qed.

(** A kept, readable file whose digest is in the index is skipped as a
    duplicate. *)
Lemma process_file_deduped (i : nat) (f dest : Path) (j : Job) (data reason : string)
    (same_as : Path) :
  should_keep_file (fs_of j) f (keep_exts (c_opts c)) (include_ybn (c_opts c))
  = (true, reason) ->
  dest_path_for c f = Ok dest ->
  (forall q, q ∈ PathOps.ancestors (PathOps.parent dest) -> Fs.is_file (fs_of j) q = false) ->
  fs_of j !! f = Some (File data true) ->
  seen_hashes j !! sha1 data = Some same_as ->
  process_file sha1 c i f j
  = skipped_as c i f (SkipDeduped same_as)
      (on_world (set_fs (fs_of j ∪ Fs.dirs_of (PathOps.parent dest))) j).
Proof.
  intros Hkeep Hdest Hdirs Hf Hs.
  unfold process_file. rewrite Hkeep. cbn [negb].
  unfold try_copy, mbind, M_bind, lift. rewrite Hdest, (make_parent_Ok dest j Hdirs).
  rewrite (dedupe_check_hit sha1 c i f dest _ data same_as); try assumption; [reflexivity|].
  cbn. rewrite lookup_union_l' by (rewrite Hf; eauto). exact Hf.
Qed.

(** The first of two files with the same bytes is copied, the second is
    skipped as its duplicate, when neither runs into an error and the
    destination of the first does not hold these bytes already. *)
Lemma process_twins (i : nat) (f1 f2 : Path) (j : Job) (data r1 r2 : string) :
  should_keep_file (fs_of j) f1 (keep_exts (c_opts c)) (include_ybn (c_opts c)) = (true, r1) ->
  should_keep_file (fs_of j) f2 (keep_exts (c_opts c)) (include_ybn (c_opts c)) = (true, r2) ->
  fs_of j !! f1 = Some (File data true) ->
  fs_of j !! f2 = Some (File data true) ->
  seen_hashes j !! sha1 data = None ->
  (forall dest dd, dest_path_for c f1 = Ok dest ->
                   fs_of j !! dest = Some (File dd true) -> sha1 dd <> sha1 data) ->
  let j' := process_file sha1 c (S i) f2 (on_world tick (process_file sha1 c i f1 (on_world tick j))) in
  errors j' = errors j ->
  copied j' = S (copied j) /\ skipped j' = S (skipped j) /\
  (exists same_as,
    last (w_ui (world j'))
    = Some (UiDeduped (c_resource_name c) (PathOps.name f2) (PathOps.name same_as)) /\
    last (w_log (world j')) = Some (LogDeduped f2 same_as)) /\
  (exists d,
    fs_of j !! d = None /\ fs_of j' !! d = Some (File data true) /\
    LogCopy f1 d ∈ w_log (world j') /\
    forall p dt r, fs_of j' !! p = Some (File dt r) ->
                   p = d \/ fs_of j !! p = Some (File dt r)).
Proof.
  intros Hk1 Hk2 Hf1 Hf2 Hnew Hfresh. cbn zeta.
  set (j0 := on_world tick j).
  pose proof (process_file_counts sha1 c layout i f1 j0) as (Hc1 & _ & _).
  pose proof (process_file_fs sha1 c layout i f1 j0) as Hsub1.
  set (ja := process_file sha1 c i f1 j0) in *.
  set (ja0 := on_world tick ja).
  pose proof (process_file_counts sha1 c layout (S i) f2 ja0) as (Hc2 & _ & _).
  assert (Hf2a : fs_of ja0 !! f2 = Some (File data true)).
  { exact (lookup_weaken _ _ _ _ Hf2 Hsub1). }
  assert (Hk2a : should_keep_file (fs_of ja0) f2 (keep_exts (c_opts c)) (include_ybn (c_opts c))
                 = (true, r2)).
  { rewrite <- Hk2. apply should_keep_file_fs.
    now rewrite (is_dir_of_file _ _ _ _ Hf2a), (is_dir_of_file _ _ _ _ Hf2). }
  assert (Hmono : errors ja <= errors (process_file sha1 c (S i) f2 ja0)).
  { unfold counts_one in Hc2. cbn in Hc2. lia. }
  intros Hnoerr.
  pose proof (process_file_outcome sha1 c layout i f1 j0) as O1. fold ja in O1.
  destruct O1 as [reason Hrej _ | e j1 P1 E1 | k j1 P1 Hcause E1
                 | j1 dest d rel data' P1 I1 Hdest Hd Hfree Hf1' Hrel E1].
  - change (fs_of j0) with (fs_of j) in Hrej. congruence.
  - exfalso. rewrite E1 in Hmono. cbn in Hmono.
    rewrite (prep_errors _ _ P1) in Hmono. cbn in Hmono. lia.
  - exfalso. destruct k as [same_as|]; cbn in Hcause.
    + destruct Hcause as (_ & _ & data' & Hf' & Hs).
      apply (proj2 (prep_fs _ _ P1)) in Hf'. change (fs_of j0) with (fs_of j) in Hf'.
      rewrite Hf1 in Hf'. injection Hf' as <-.
      change (seen_hashes j0) with (seen_hashes j) in Hs. congruence.
    + destruct Hcause as (_ & dest & Hdest & Hsame).
      apply same_content_true in Hsame as (dd & df & Hd & Hf' & Heq).
      apply (proj2 (prep_fs _ _ P1)) in Hd, Hf'. change (fs_of j0) with (fs_of j) in Hd, Hf'.
      rewrite Hf1 in Hf'. injection Hf' as <-. exact (Hfresh dest dd Hdest Hd Heq).
  - assert (Hf1j1 : fs_of j1 !! f1 = Some (File data true)).
    { apply (adds_dirs_file (fs_of j0)); [apply (prep_fs _ _ P1) | exact Hf1]. }
    destruct (index_step_on f1 j0 j1 data I1 Hf1j1) as (_ & dest' & Hseen1).
    assert (Hseen_a : seen_hashes ja0 !! sha1 data = Some dest').
    { unfold ja0. rewrite E1. cbn. rewrite Hseen1. apply lookup_insert_eq. }
    assert (Hca : copied ja = S (copied j) /\ skipped ja = skipped j /\ errors ja = errors j).
    { rewrite E1. cbn.
      rewrite (prep_copied _ _ P1), (prep_skipped _ _ P1), (prep_errors _ _ P1).
      now split_and!. }
    destruct Hca as (Hca & Hsa & Hea).
    pose proof (process_file_outcome sha1 c layout (S i) f2 ja0) as O2.
    destruct O2 as [reason Hrej _ | e j2 P2 E2 | k j2 P2 Hcause E2
                   | j2 dest2 d2 rel2 data2 P2 I2 _ _ _ Hf2' _ E2].
    + congruence.
    + exfalso. rewrite E2 in Hnoerr. cbn in Hnoerr.
      rewrite (prep_errors _ _ P2) in Hnoerr. cbn in Hnoerr. lia.
    + destruct k as [same_as|]; cbn in Hcause.
      * assert (Efa : fs_of ja0 = <[d := File data' true]> (fs_of j1)).
        { unfold ja0. rewrite E1. reflexivity. }
        assert (data' = data) as -> by congruence.
        assert (Hdj : fs_of j !! d = None).
        { destruct (fs_of j !! d) as [nd|] eqn:Ed; [|reflexivity].
          pose proof (lookup_weaken _ _ _ _ Ed (proj1 (prep_fs _ _ P1))) as H1.
          change (fs_of j0) with (fs_of j) in P1. congruence. }
        rewrite E2. cbn. rewrite (prep_copied _ _ P2), (prep_skipped _ _ P2). cbn.
        split_and!; [lia | lia | |].
        -- exists same_as. now rewrite !last_snoc.
        -- exists d. change (w_fs (world j2)) with (fs_of j2). split_and!.
           ++ exact Hdj.
           ++ apply (adds_dirs_file (fs_of ja0)); [apply (prep_fs _ _ P2)|].
              rewrite Efa. apply lookup_insert_eq.
           ++ apply elem_of_app. left.
              destruct (prep_log _ _ P2) as (notes2 & -> & _).
              apply elem_of_app. left. unfold ja0. rewrite E1. cbn.
              apply elem_of_app. right. apply list_elem_of_here.
           ++ intros p dt r Hp. apply (proj2 (prep_fs _ _ P2)) in Hp.
              rewrite Efa in Hp. destruct (decide (p = d)) as [|Hne]; [now left|].
              right. rewrite lookup_insert_ne in Hp by congruence.
              apply (proj2 (prep_fs _ _ P1)) in Hp. exact Hp.
      * exfalso. destruct Hcause as (I2 & dest2 & _ & Hsame).
        apply same_content_true in Hsame as (dd & df & _ & Hf' & _).
        assert (df = data) as ->.
        { apply (proj2 (prep_fs _ _ P2)) in Hf'. rewrite Hf2a in Hf'. now injection Hf'. }
        destruct (index_step_on f2 ja0 j2 data I2 Hf') as (Hnone & _). congruence.
    + exfalso.
      assert (data2 = data) as ->.
      { apply (proj2 (prep_fs _ _ P2)) in Hf2'. rewrite Hf2a in Hf2'. now injection Hf2'. }
      destruct (index_step_on f2 ja0 j2 data I2 Hf2') as (Hnone & _). congruence.
Qed.

End Dedupe.

Section Duplicates.

Variable sha1 : string -> string.
Variable stop_at : option nat.


End Duplicates.



(** C6, as the specification words it, fails with dedupe on: in the job
    over [/mlo], flattened, [b/x.ydr] and [a/x.ydr] have different bytes and
    the same destination name; [a/x.ydr] has the bytes of [b/y.ydr], which was
    copied before, so it is skipped as a duplicate and no [x_2.ydr] is
    made. *)
Lemma duplicate_hides_conflict_counterexample :
  let o := Sample.options true true in
  let c := Sample.ctx o None in
  let r := clean_one Sample.digest None ["mlo"] ["out"] o None Sample.fresh in
  Sample.disk !! ["mlo"; "b"; "x.ydr"] = Some (File "BBB" true) /\
  Sample.disk !! ["mlo"; "a"; "x.ydr"] = Some (File "AAA" true) /\
  Sample.digest "BBB" <> Sample.digest "AAA" /\
  dest_path_for c ["mlo"; "b"; "x.ydr"] = Ok (Sample.stream ++ ["x.ydr"]) /\
  dest_path_for c ["mlo"; "a"; "x.ydr"] = Ok (Sample.stream ++ ["x.ydr"]) /\
  fst r = Ok (2, 1, 1, Sample.dest_root) /\
  w_fs (snd r) !! (Sample.stream ++ ["x.ydr"]) = Some (File "BBB" true) /\
  w_fs (snd r) !! (Sample.stream ++ ["x_2.ydr"]) = None /\
  last (w_log (snd r)) = Some (LogDone "mlo" 2 1 1) /\
  LogDeduped ["mlo"; "a"; "x.ydr"] (Sample.stream ++ ["y.ydr"]) ∈ w_log (snd r).
Proof. cbn zeta. split_and!; by_running. Qed.

Lemma name_conflict_takes_first_free_suffix_witness :
  let c := Sample.ctx (Sample.options true true) None in
  let j := process_file Sample.digest c 3 ["mlo"; "b"; "x.ydr"]
                        (start_job c (Sample.ready Sample.fresh)) in
  let j' := process_file Sample.digest c 4 ["mlo"; "a"; "x.ydr"] j in
  fs_of j' !! (Sample.stream ++ ["x_2.ydr"]) = Some (File "AAA" true) /\
  fs_of j' !! (Sample.stream ++ ["x.ydr"]) = Some (File "BBB" true) /\
  copied j' = S (copied j).
Proof.
  cbn zeta.
  destruct (name_conflict_takes_first_free_suffix Sample.digest
              (Sample.ctx (Sample.options true true) None) eq_refl
              4 ["mlo"; "a"; "x.ydr"] (Sample.stream ++ ["x.ydr"])
              (process_file Sample.digest (Sample.ctx (Sample.options true true) None) 3
                 ["mlo"; "b"; "x.ydr"]
                 (start_job (Sample.ctx (Sample.options true true) None)
                            (Sample.ready Sample.fresh)))
              "AAA" "BBB" "kept")
    as (n & _ & _ & _ & H2 & Hnew & Hold & _ & Hcp & _).
  - by_running.
  - by_running.
  - by_running.
  - by_running.
  - discriminate.
  - intros _. by_running.
  - intros e j1. by_running.
  - rewrite (H2 ltac:(by_running)) in Hnew.
    assert (E : alt_name (Sample.stream ++ ["x.ydr"]) 2 = Sample.stream ++ ["x_2.ydr"])
      by by_running.
    rewrite E in Hnew. exact (conj Hnew (conj Hold Hcp)).
Defined.

(* ===================================================================== *)
(** * Failures inside and outside the [try] block *)
(* ===================================================================== *)

Section Failures2.

Variable sha1 : string -> string.
Variable stop_at : option nat.
Variable denied : Path -> bool.

Lemma process_files_py_ok (c : Ctx) (files : list Path) (i : nat) (j : Job) :
  Forall (fun g => denied g = false) files ->
  process_files_py sha1 stop_at denied c i files j
  = Done (process_files sha1 stop_at c i files j).
Proof.
  revert i j. induction files as [|f rest IH]; intros i j Hall; [reflexivity|].
  apply Forall_cons in Hall as [Hf Hrest].
  cbn [process_files_py process_files]. destruct (is_set stop_at (world j)); [reflexivity|].
  unfold should_keep_file_py, is_dir_py. rewrite Hf. now apply IH.
Qed.

Lemma process_files_None_app (c : Ctx) (pre rest : list Path) (i : nat) (j : Job) :
  process_files sha1 None c i (pre ++ rest) j
  = process_files sha1 None c (i + length pre) rest (process_files sha1 None c i pre j).
Proof.
  revert i j. induction pre as [|f pre IH]; intros i j.
  - cbn. now rewrite Nat.add_0_r.
  - cbn [app process_files is_set length]. rewrite IH. f_equal. lia.
Qed.

Lemma process_file_errors_mono (c : Ctx) (i : nat) (f : Path) (j : Job) :
  ctx_layout c -> errors j <= errors (process_file sha1 c i f j).
Proof.
  intros L. destruct (process_file_counts sha1 c L i f j) as (H & _). unfold counts_one in H. lia.
Qed.

Lemma process_files_errors_mono (c : Ctx) (files : list Path) (i : nat) (j : Job) :
  ctx_layout c -> errors j <= errors (process_files sha1 None c i files j).
Proof.
  intros L. revert i j. induction files as [|f rest IH]; intros i j; [reflexivity|].
  cbn [process_files is_set]. etransitivity; [|apply IH].
  apply (process_file_errors_mono c i f (on_world tick j) L).
Qed.

Lemma process_file_ui_grows (c : Ctx) (i : nat) (f : Path) (j : Job) :
  ctx_layout c -> w_ui (world j) `prefix_of` w_ui (world (process_file sha1 c i f j)).
Proof.
  intros L.
  destruct (process_file_outcome sha1 c L i f j) as
    [reason _ -> | e j1 P -> | k j1 P _ -> | j1 dest d rel data P _ _ _ _ _ _ ->];
    cbn; try rewrite (prep_ui _ _ P); try reflexivity; now apply prefix_app_r.
Qed.

Lemma process_files_ui_grows (c : Ctx) (files : list Path) (i : nat) (j : Job) :
  ctx_layout c -> w_ui (world j) `prefix_of` w_ui (world (process_files sha1 None c i files j)).
Proof.
  intros L. revert i j. induction files as [|f rest IH]; intros i j; [reflexivity|].
  cbn [process_files is_set]. etransitivity; [|apply IH].
  apply (process_file_ui_grows c i f (on_world tick j) L).
Qed.

Lemma process_file_log_grows (c : Ctx) (i : nat) (f : Path) (j : Job) :
  ctx_layout c -> w_log (world j) `prefix_of` w_log (world (process_file sha1 c i f j)).
Proof.
  intros L.
  destruct (process_file_outcome sha1 c L i f j) as
    [reason _ -> | e j1 P -> | k j1 P _ -> | j1 dest d rel data P _ _ _ _ _ _ ->];
    cbn; try (destruct (prep_log _ _ P) as (notes & -> & _));
    rewrite <- ?app_assoc; now apply prefix_app_r.
Qed.

Lemma process_files_log_grows_any (c : Ctx) (files : list Path) (i : nat) (j : Job) :
  ctx_layout c ->
  w_log (world j) `prefix_of` w_log (world (process_files sha1 stop_at c i files j)).
Proof.
  intros L. revert i j. induction files as [|f rest IH]; intros i j; [reflexivity|].
  cbn [process_files]. destruct (is_set stop_at (world j)).
  - cbn. now apply prefix_app_r.
  - etransitivity; [|apply IH].
    apply (process_file_log_grows c i f (on_world tick j) L).
Qed.

Lemma process_files_log_grows (c : Ctx) (files : list Path) (i : nat) (j : Job) :
  ctx_layout c -> w_log (world j) `prefix_of` w_log (world (process_files sha1 None c i files j)).
Proof.
  intros L. revert i j. induction files as [|f rest IH]; intros i j; [reflexivity|].
  cbn [process_files is_set]. etransitivity; [|apply IH].
  apply (process_file_log_grows c i f (on_world tick j) L).
Qed.


End Failures2.



(* ===================================================================== *)
(** * More on one iteration: plain copies, identical and unreadable
      destinations *)
(* ===================================================================== *)

Section MoreIterations.

Variable sha1 : string -> string.
Variable c : Ctx.
Hypothesis layout : ctx_layout c.

Lemma staged_fs (dest : Path) (j : Job) (df : string) :
  fs_of (staged sha1 c dest df j) = fs_of j ∪ Fs.dirs_of (PathOps.parent dest).
Proof. unfold staged. now destruct (dedupe (c_opts c)). Qed.

Lemma staged_counts (dest : Path) (j : Job) (df : string) :
  copied (staged sha1 c dest df j) = copied j /\
  skipped (staged sha1 c dest df j) = skipped j /\
  errors (staged sha1 c dest df j) = errors j /\
  w_ui (world (staged sha1 c dest df j)) = w_ui (world j) /\
  w_log (world (staged sha1 c dest df j)) = w_log (world j) /\
  w_progress (world (staged sha1 c dest df j)) = w_progress (world j).
Proof. unfold staged. now destruct (dedupe (c_opts c)). Qed.

Section Staged.

Variables (i : nat) (f dest : Path) (j : Job) (df reason : string).
Hypothesis Hkeep :
  should_keep_file (fs_of j) f (keep_exts (c_opts c)) (include_ybn (c_opts c)) = (true, reason).
Hypothesis Hdest : dest_path_for c f = Ok dest.
Hypothesis Hdirs :
  forall q, q ∈ PathOps.ancestors (PathOps.parent dest) -> Fs.is_file (fs_of j) q = false.
Hypothesis Hf : fs_of j !! f = Some (File df true).
Hypothesis Hseen : dedupe (c_opts c) = true -> seen_hashes j !! sha1 df = None.

Local Abbreviation fs1 := (fs_of j ∪ Fs.dirs_of (PathOps.parent dest)).
Local Abbreviation jb := (staged sha1 c dest df j).

Lemma staged_mkdir : Fs.mkdir_parents (fs_of j) (PathOps.parent dest) = Ok fs1.
Proof. now apply mkdir_parents_total. Qed.

Lemma staged_file (p : Path) (data : string) (r : bool) :
  fs1 !! p = Some (File data r) <-> fs_of j !! p = Some (File data r).
Proof. apply (mkdir_parents_file _ _ _ _ _ _ staged_mkdir). Qed.

Lemma staged_entry (p : Path) (nd : Node) : fs_of j !! p = Some nd -> fs1 !! p = Some nd.
Proof.
  intros H. exact (lookup_weaken _ _ _ _ H (mkdir_parents_subseteq _ _ _ staged_mkdir)).
Qed.

Lemma dest_not_ancestor : dest ∉ PathOps.ancestors (PathOps.parent dest).
Proof.
  intros H%ancestors_length.
  destruct (dest_path_for_below c f dest layout Hdest) as [_ (r & Hr & E)].
  unfold PathOps.parent in H.
  assert (dest <> []) by (rewrite E; now destruct (c_dest_root c), r).
  destruct (exists_last H0) as (d' & x & ->).
  rewrite removelast_last, length_app in H. cbn in H. lia.
Qed.

Lemma staged_dest : fs1 !! dest = fs_of j !! dest.
Proof. apply (mkdir_parents_other _ _ _ _ staged_mkdir), dest_not_ancestor. Qed.

(** The [try] block up to the test of [dest_path.exists()]. *)
Lemma try_copy_staged :
  try_copy sha1 c i f j
  = match resolve_conflict sha1 c i f dest jb with
    | Next d jc => copy_file c f d jc
    | Skip j' => Skip j'
    | Fail e j' => Fail e j'
    end.
Proof.
  unfold try_copy, mbind, M_bind, lift. rewrite Hdest, (make_parent_Ok dest j Hdirs).
  rewrite (dedupe_check_pass sha1 c i f dest _ df); [reflexivity | | exact Hseen].
  now apply staged_file.
Qed.

(** The iteration when the conflict stage hands over the first free
    suffixed name, with the job [jc] it leaves. *)
Lemma process_file_renamed (jc : Job) :
  resolve_conflict sha1 c i f dest jb = Next (find_alt fs1 dest) jc ->
  fs_of jc = fs1 ->
  exists n rel,
    2 <= n /\
    (forall m, 2 <= m < n -> is_Some (fs_of j !! alt_name dest m)) /\
    fs_of j !! alt_name dest n = None /\
    alt_name dest n = c_dest_root c ++ rel /\
    process_file sha1 c i f j
    = update_progress c i (copied_to c f (alt_name dest n) rel df jc).
Proof.
  intros Hres Hfs.
  destruct (find_alt_spec fs1 dest) as (n & Hn & Ealt & Hfree1 & Hused1).
  assert (Hsame : forall m, fs1 !! alt_name dest m = fs_of j !! alt_name dest m).
  { intros m. apply (mkdir_parents_other _ _ _ _ staged_mkdir), alt_name_not_ancestor. }
  destruct (dest_path_for_below c f dest layout Hdest) as [_ Hbelow].
  destruct (alt_below c dest n Hbelow) as (rel & _ & Erel).
  exists n, rel. split_and!; try assumption.
  - intros m Hm. rewrite <- Hsame. now apply Hused1.
  - now rewrite <- Hsame.
  - unfold process_file. rewrite Hkeep. cbn [negb].
    rewrite try_copy_staged, Hres, Ealt.
    rewrite (copy_file_Ok c f (alt_name dest n) rel df jc Erel); rewrite ?Hfs; try assumption.
    + reflexivity.
    + now apply staged_file.
    + rewrite alt_name_parent. apply (mkdir_parents_is_dir _ _ _ staged_mkdir).
Qed.

End Staged.

(** X8. A kept, readable file that the dedupe stage lets pass (dedupe is
    off, or its digest is not in the index), whose destination is free and
    whose [try] block raises nothing, is copied there with its bytes: to
    [stream / name] when flattening, else to the same relative path below
    [stream] that it has below the source folder. Nothing that was on the
    disk changes, and both logs end with the copy. *)
Theorem free_destination_plain_copy
    (i : nat) (f dest : Path) (j : Job) (df reason : string) :
  should_keep_file (fs_of j) f (keep_exts (c_opts c)) (include_ybn (c_opts c))
  = (true, reason) ->
  dest_path_for c f = Ok dest ->
  (forall e j1, try_copy sha1 c i f j <> Fail e j1) ->
  fs_of j !! f = Some (File df true) ->
  (dedupe (c_opts c) = true -> seen_hashes j !! sha1 df = None) ->
  fs_of j !! dest = None ->
  let j' := process_file sha1 c i f j in
  fs_of j' !! dest = Some (File df true) /\
  (forall p nd, fs_of j !! p = Some nd -> fs_of j' !! p = Some nd) /\
  copied j' = S (copied j) /\ skipped j' = skipped j /\ errors j' = errors j /\
  last (w_log (world j')) = Some (LogCopy f dest) /\
  (exists rel, dest = c_dest_root c ++ rel /\
               last (w_ui (world j')) = Some (UiCopy (c_resource_name c) (PathOps.name f) rel)) /\
  (flatten_stream (c_opts c) = true ->
   dest = PathOps.joinpath (c_stream_dir c) (PathOps.name f)) /\
  (flatten_stream (c_opts c) = false ->
   exists rel, PathOps.relative_to f (c_src c) = Some rel /\
               PathOps.relative_to dest (c_stream_dir c) = Some rel).
Proof.
  intros Hkeep Hdest Hquiet Hf Hseen Hfree. cbn zeta.
  pose proof (try_copy_quiet_dirs sha1 c i f dest j Hdest Hquiet) as Hdirs.
  set (fs1 := fs_of j ∪ Fs.dirs_of (PathOps.parent dest)).
  set (jb := staged sha1 c dest df j).
  pose proof (staged_mkdir dest j Hdirs) as Hmk.
  pose proof (staged_fs dest j df) as Hfsb. fold jb fs1 in Hfsb.
  destruct (staged_counts dest j df) as (Hc & Hs & He & _). fold jb in Hc, Hs, He.
  assert (Hfree1 : fs1 !! dest = None).
  { unfold fs1. now rewrite (staged_dest f dest j Hdest Hdirs). }
  destruct (dest_path_for_below c f dest layout Hdest) as [_ (rel & Hrel & Erel)].
  assert (Estep : process_file sha1 c i f j = update_progress c i (copied_to c f dest rel df jb)).
  { unfold process_file. rewrite Hkeep. cbn [negb].
    rewrite (try_copy_staged i f dest j df Hdest Hdirs Hf Hseen). fold jb.
    rewrite resolve_conflict_free by now rewrite Hfsb.
    rewrite (copy_file_Ok c f dest rel df jb Erel); rewrite ?Hfsb; try assumption.
    - reflexivity.
    - now apply (staged_file dest j Hdirs).
    - apply (mkdir_parents_is_dir _ _ _ Hmk). }
  assert (Efs : fs_of (process_file sha1 c i f j) = <[dest := File df true]> fs1).
  { rewrite Estep. cbn. now rewrite <- Hfsb. }
  split_and!.
  - rewrite Efs. apply lookup_insert_eq.
  - intros p nd Hp. rewrite Efs, lookup_insert_ne; [now apply (staged_entry dest j Hdirs)|].
    intros <-. congruence.
  - rewrite Estep. cbn. now rewrite Hc.
  - rewrite Estep. cbn. now rewrite Hs.
  - rewrite Estep. cbn. now rewrite He.
  - rewrite Estep. cbn. now rewrite last_snoc.
  - exists rel. split; [exact Erel|]. rewrite Estep. cbn. now rewrite last_snoc.
  - intros Hfl. unfold dest_path_for in Hdest. rewrite Hfl in Hdest. now injection Hdest.
  - intros Hfl. unfold dest_path_for in Hdest. rewrite Hfl in Hdest.
    destruct (PathOps.relative_to f (c_src c)) as [r|]; [|discriminate].
    injection Hdest as <-. exists r. split; [reflexivity | apply relative_to_app].
Qed.

(** X9. A kept, readable file that the dedupe stage lets pass (dedupe is
    off, or its digest is not in the index), whose destination holds a
    readable file of the same digest and whose [try] block raises nothing, is
    counted as skipped and logged as SKIP-SAME; no file is written (the disk
    gains folders at most). With dedupe on its digest is in the index from
    then on, bound to that destination. *)
Theorem identical_destination_is_skipped
    (i : nat) (f dest : Path) (j : Job) (df dd reason : string) :
  should_keep_file (fs_of j) f (keep_exts (c_opts c)) (include_ybn (c_opts c))
  = (true, reason) ->
  dest_path_for c f = Ok dest ->
  (forall e j1, try_copy sha1 c i f j <> Fail e j1) ->
  fs_of j !! f = Some (File df true) ->
  (dedupe (c_opts c) = true -> seen_hashes j !! sha1 df = None) ->
  fs_of j !! dest = Some (File dd true) ->
  sha1 dd = sha1 df ->
  let j' := process_file sha1 c i f j in
  copied j' = copied j /\ skipped j' = S (skipped j) /\ errors j' = errors j /\
  last (w_ui (world j')) = Some (UiSkipSame (c_resource_name c) (PathOps.name f)) /\
  last (w_log (world j')) = Some (LogSkipSame f) /\
  adds_dirs (fs_of j) (fs_of j') /\
  (dedupe (c_opts c) = true -> seen_hashes j' !! sha1 df = Some dest) /\
  (dedupe (c_opts c) = false -> seen_hashes j' = seen_hashes j).
Proof.
  intros Hkeep Hdest Hquiet Hf Hseen Hd Heq. cbn zeta.
  pose proof (try_copy_quiet_dirs sha1 c i f dest j Hdest Hquiet) as Hdirs.
  set (jb := staged sha1 c dest df j).
  pose proof (staged_mkdir dest j Hdirs) as Hmk.
  pose proof (staged_fs dest j df) as Hfsb. fold jb in Hfsb.
  destruct (staged_counts dest j df) as (Hc & Hs & He & _). fold jb in Hc, Hs, He.
  assert (Estep : process_file sha1 c i f j = skipped_as c i f SkipIdentical jb).
  { unfold process_file. rewrite Hkeep. cbn [negb].
    rewrite (try_copy_staged i f dest j df Hdest Hdirs Hf Hseen). fold jb.
    unfold resolve_conflict, Fs.exists_, same_content, sha1_file, Fs.read_file.
    rewrite Hfsb.
    rewrite (proj2 (staged_file dest j Hdirs dest dd true) Hd).
    rewrite (proj2 (staged_file dest j Hdirs f df true) Hf).
    rewrite Heq, String.eqb_refl. reflexivity. }
  rewrite Estep. cbn. rewrite !last_snoc, Hc, Hs, He.
  split_and!; try reflexivity.
  - change (w_fs (world jb)) with (fs_of jb). rewrite Hfsb.
    apply (mkdir_adds_dirs _ _ _ Hmk).
  - intros Hon. unfold jb, staged. rewrite Hon. cbn. apply lookup_insert_eq.
  - intros Hoff. unfold jb, staged. now rewrite Hoff.
Qed.

(** X10. A kept, readable file that the dedupe stage lets pass (dedupe is
    off, or its digest is not in the index), whose destination exists but
    cannot be hashed (a folder, or a file that cannot be read), and whose
    [try] block raises nothing: the failed comparison is logged as a warning
    and the file is copied, with its bytes, to the first free [stem_n.ext]
    from [n = 2]; what is at the destination stays. *)
Theorem unreadable_destination_is_renamed
    (i : nat) (f dest : Path) (j : Job) (df reason : string) (e : Exn) :
  should_keep_file (fs_of j) f (keep_exts (c_opts c)) (include_ybn (c_opts c))
  = (true, reason) ->
  dest_path_for c f = Ok dest ->
  (forall e j1, try_copy sha1 c i f j <> Fail e j1) ->
  fs_of j !! f = Some (File df true) ->
  (dedupe (c_opts c) = true -> seen_hashes j !! sha1 df = None) ->
  Fs.exists_ (fs_of j) dest = true ->
  Fs.read_file (fs_of j) dest = Raise e ->
  let j' := process_file sha1 c i f j in
  exists n,
    2 <= n /\
    (forall m, 2 <= m < n -> is_Some (fs_of j !! alt_name dest m)) /\
    fs_of j !! alt_name dest n = None /\
    fs_of j' !! alt_name dest n = Some (File df true) /\
    fs_of j' !! dest = fs_of j !! dest /\
    copied j' = S (copied j) /\ errors j' = errors j /\
    LogHashCompareFailed f e ∈ w_log (world j') /\
    level_of (LogHashCompareFailed f e) = WARNING.
Proof.
  intros Hkeep Hdest Hquiet Hf Hseen Hex Hread. cbn zeta.
  pose proof (try_copy_quiet_dirs sha1 c i f dest j Hdest Hquiet) as Hdirs.
  set (fs1 := fs_of j ∪ Fs.dirs_of (PathOps.parent dest)).
  set (jb := staged sha1 c dest df j).
  pose proof (staged_mkdir dest j Hdirs) as Hmk.
  pose proof (staged_fs dest j df) as Hfsb. fold jb fs1 in Hfsb.
  destruct (staged_counts dest j df) as (Hc & Hs & He & _ & Hlog & _).
  fold jb in Hc, Hs, He, Hlog.
  pose proof (staged_dest f dest j Hdest Hdirs) as Hd1. fold fs1 in Hd1.
  set (jw := on_world (logger (LogHashCompareFailed f e)) jb).
  set (jc := on_world (logger (LogNameConflict f (find_alt fs1 dest))) jw).
  assert (Hres : resolve_conflict sha1 c i f dest jb = Next (find_alt fs1 dest) jc).
  { unfold resolve_conflict, same_content, sha1_file. rewrite Hfsb.
    unfold Fs.exists_, Fs.read_file in *. rewrite Hd1.
    destruct (fs_of j !! dest) as [[dd []|]|]; try discriminate; injection Hread as <-;
      cbn [fs_of on_world world logger w_fs]; change (w_fs (world jb)) with (fs_of jb);
      rewrite Hfsb; reflexivity. }
  destruct (process_file_renamed i f dest j df reason Hkeep Hdest Hdirs Hf Hseen jc Hres)
    as (n & rel & Hn & Hused & Hfree & Erel & Estep).
  { unfold jc, jw. cbn. exact Hfsb. }
  exists n. rewrite Estep. cbn.
  change (w_fs (world jb)) with (fs_of jb). rewrite Hfsb.
  split_and!; try assumption.
  - apply lookup_insert_eq.
  - rewrite lookup_insert_ne; [exact Hd1|]. intros E. apply exists_true in Hex.
    rewrite <- E, Hfree in Hex. now destruct Hex.
  - now rewrite Hc.
  - rewrite Hlog. set_solver.
  - reflexivity.
Qed.

(** X11. When a file goes through a name conflict with dedupe on, the index
    binds its digest to the destination that was taken, not to the suffixed
    path the bytes went to: a later DEDUPED line names the other file. *)
Theorem index_keeps_planned_destination
    (i : nat) (f dest : Path) (j : Job) (df dd reason : string) :
  dedupe (c_opts c) = true ->
  should_keep_file (fs_of j) f (keep_exts (c_opts c)) (include_ybn (c_opts c))
  = (true, reason) ->
  dest_path_for c f = Ok dest ->
  (forall q, q ∈ PathOps.ancestors (PathOps.parent dest) -> Fs.is_file (fs_of j) q = false) ->
  fs_of j !! f = Some (File df true) ->
  seen_hashes j !! sha1 df = None ->
  fs_of j !! dest = Some (File dd true) ->
  sha1 dd <> sha1 df ->
  let j' := process_file sha1 c i f j in
  seen_hashes j' !! sha1 df = Some dest /\
  fs_of j' !! dest = Some (File dd true) /\
  exists n, 2 <= n /\ alt_name dest n <> dest /\
            fs_of j' !! alt_name dest n = Some (File df true) /\
            last (w_log (world j')) = Some (LogCopy f (alt_name dest n)).
Proof.
  intros Hon Hkeep Hdest Hdirs Hf Hnew Hd Hne. cbn zeta.
  set (fs1 := fs_of j ∪ Fs.dirs_of (PathOps.parent dest)).
  set (jb := staged sha1 c dest df j).
  pose proof (staged_fs dest j df) as Hfsb. fold jb fs1 in Hfsb.
  set (jc := on_world (logger (LogNameConflict f (find_alt fs1 dest))) jb).
  assert (Hres : resolve_conflict sha1 c i f dest jb = Next (find_alt fs1 dest) jc).
  { rewrite (resolve_conflict_differs sha1 c i f dest jb dd df); rewrite ?Hfsb; try assumption.
    - reflexivity.
    - now apply (staged_file dest j Hdirs).
    - now apply (staged_file dest j Hdirs). }
  destruct (process_file_renamed i f dest j df reason Hkeep Hdest Hdirs Hf (fun _ => Hnew)
              jc Hres Hfsb) as (n & rel & Hn & _ & Hfree & _ & Estep).
  rewrite Estep. cbn. change (w_fs (world jb)) with (fs_of jb). rewrite Hfsb.
  split_and!.
  - unfold jb, staged. rewrite Hon. cbn. apply lookup_insert_eq.
  - rewrite lookup_insert_ne; [now apply (staged_file dest j Hdirs)|].
    intros E. rewrite E in Hfree. congruence.
  - exists n. split_and!; [exact Hn | apply alt_name_neq | apply lookup_insert_eq |].
    now rewrite last_snoc.
Qed.

End MoreIterations.

Lemma free_destination_plain_copy_witness :
  let c := Sample.ctx (Sample.options false true) None in
  let j := start_job c (Sample.ready Sample.fresh) in
  let j' := process_file Sample.digest c 3 ["mlo"; "b"; "x.ydr"] j in
  fs_of j' !! (Sample.stream ++ ["b"; "x.ydr"]) = Some (File "BBB" true) /\
  copied j' = S (copied j) /\
  last (w_log (world j'))
  = Some (LogCopy ["mlo"; "b"; "x.ydr"] (Sample.stream ++ ["b"; "x.ydr"])).
Proof.
  cbn zeta.
  destruct (free_destination_plain_copy Sample.digest
              (Sample.ctx (Sample.options false true) None) eq_refl
              3 ["mlo"; "b"; "x.ydr"] (Sample.stream ++ ["b"; "x.ydr"])
              (start_job (Sample.ctx (Sample.options false true) None)
                         (Sample.ready Sample.fresh))
              "BBB" "kept")
    as (Hnew & _ & Hcp & _ & _ & Hlog & _).
  - by_running.
  - by_running.
  - intros e j1. by_running.
  - by_running.
  - intros _. by_running.
  - by_running.
  - exact (conj Hnew (conj Hcp Hlog)).
Defined.

Lemma identical_destination_is_skipped_witness :
  let o := Sample.options true true in
  let c := Sample.ctx o None in
  let first_run := snd (clean_one Sample.digest None ["mlo"] ["out"] o None Sample.fresh) in
  let j := start_job c first_run in
  let j' := process_file Sample.digest c 2 ["mlo"; "b"; "y.ydr"] j in
  copied j' = copied j /\ skipped j' = S (skipped j) /\
  last (w_log (world j')) = Some (LogSkipSame ["mlo"; "b"; "y.ydr"]).
Proof.
  cbn zeta.
  destruct (identical_destination_is_skipped Sample.digest
              (Sample.ctx (Sample.options true true) None)
              2 ["mlo"; "b"; "y.ydr"] (Sample.stream ++ ["y.ydr"])
              (start_job (Sample.ctx (Sample.options true true) None)
                 (snd (clean_one Sample.digest None ["mlo"] ["out"]
                                 (Sample.options true true) None Sample.fresh)))
              "AAA" "AAA" "kept")
    as (Hcp & Hsk & _ & _ & Hlog & _).
  - by_running.
  - by_running.
  - intros e j1. by_running.
  - by_running.
  - intros _. by_running.
  - by_running.
  - reflexivity.
  - exact (conj Hcp (conj Hsk Hlog)).
Defined.

Lemma unreadable_destination_is_renamed_witness :
  let c := Sample.ctx (Sample.options true true) None in
  let taken := Sample.stream ++ ["x.ydr"] in
  let j := start_job c (set_fs (<[taken := Dir]> (w_fs (Sample.ready Sample.fresh)))
                               Sample.fresh) in
  let j' := process_file Sample.digest c 3 ["mlo"; "b"; "x.ydr"] j in
  exists n,
    2 <= n /\
    fs_of j' !! alt_name taken n = Some (File "BBB" true) /\
    fs_of j' !! taken = fs_of j !! taken /\
    LogHashCompareFailed ["mlo"; "b"; "x.ydr"] (IsADirectoryError taken) ∈ w_log (world j').
Proof.
  cbn zeta.
  destruct (unreadable_destination_is_renamed Sample.digest
              (Sample.ctx (Sample.options true true) None) eq_refl
              3 ["mlo"; "b"; "x.ydr"] (Sample.stream ++ ["x.ydr"])
              (start_job (Sample.ctx (Sample.options true true) None)
                 (set_fs (<[Sample.stream ++ ["x.ydr"] := Dir]>
                            (w_fs (Sample.ready Sample.fresh)))
                         Sample.fresh))
              "BBB" "kept" (IsADirectoryError (Sample.stream ++ ["x.ydr"])))
    as (n & Hn & _ & _ & Hnew & Hold & _ & _ & Hlog & _).
  - by_running.
  - by_running.
  - intros e j1. by_running.
  - by_running.
  - intros _. by_running.
  - by_running.
  - by_running.
  - exists n. exact (conj Hn (conj Hnew (conj Hold Hlog))).
Defined.

Lemma index_keeps_planned_destination_witness :
  let c := Sample.ctx (Sample.options true true) None in
  let j := process_file Sample.digest c 3 ["mlo"; "b"; "x.ydr"]
                        (start_job c (Sample.ready Sample.fresh)) in
  let j' := process_file Sample.digest c 4 ["mlo"; "a"; "x.ydr"] j in
  seen_hashes j' !! Sample.digest "AAA" = Some (Sample.stream ++ ["x.ydr"]) /\
  fs_of j' !! (Sample.stream ++ ["x.ydr"]) = Some (File "BBB" true).
Proof.
  cbn zeta.
  destruct (index_keeps_planned_destination Sample.digest
              (Sample.ctx (Sample.options true true) None) eq_refl
              4 ["mlo"; "a"; "x.ydr"] (Sample.stream ++ ["x.ydr"])
              (process_file Sample.digest (Sample.ctx (Sample.options true true) None) 3
                 ["mlo"; "b"; "x.ydr"]
                 (start_job (Sample.ctx (Sample.options true true) None)
                            (Sample.ready Sample.fresh)))
              "AAA" "BBB" "kept")
    as (Hseen & Hold & _).
  - reflexivity.
  - by_running.
  - by_running.
  - apply Forall_forall. by_running.
  - by_running.
  - by_running.
  - by_running.
  - discriminate.
  - exact (conj Hseen Hold).
Defined.

(* ===================================================================== *)
(** * More on jobs and on the queue: the manifest, what stays on the disk,
      the progress calls *)
(* ===================================================================== *)

Section MoreJobs.

Variable sha1 : string -> string.
Variable stop_at : option nat.

Lemma write_fxmanifest_Ok (fs fs' : FS) (dest_root : Path) (resource_name : string) :
  write_fxmanifest fs dest_root resource_name = Ok fs' ->
  fs' = <[manifest_path dest_root := File (fxmanifest_content resource_name) true]> fs.
Proof.
  unfold write_fxmanifest, Fs.write_text, manifest_path.
  destruct (fs !! _) as [[]|]; try discriminate;
    destruct (Fs.is_dir fs _); try discriminate; now intros [= <-].
Qed.

(** What [setup_job] leaves of the disk, whether it raises or not. *)
Lemma setup_job_keeps (src out_dir : Path) (o : Options) (range : option (Z * Z))
    (w : World) (p : Path) (nd : Node) :
  w_fs w !! p = Some nd ->
  (make_fxmanifest o = true -> p <> manifest_path (dest_root_of src out_dir)) ->
  w_fs (snd (setup_job src out_dir o range w)) !! p = Some nd.
Proof.
  intros Hp Hne. unfold setup_job.
  destruct (negb (Fs.exists_ (w_fs w) src) || negb (Fs.is_dir (w_fs w) src)); [exact Hp|].
  destruct (Fs.mkdir_parents _ _) as [fs1|e] eqn:Em; [|exact Hp].
  assert (Hp1 : fs1 !! p = Some nd).
  { exact (lookup_weaken _ _ _ _ Hp (mkdir_parents_subseteq _ _ _ Em)). }
  destruct (make_fxmanifest o).
  - destruct (write_fxmanifest _ _ _) as [fs2|e] eqn:Ew; [|exact Hp1].
    apply write_fxmanifest_Ok in Ew as ->. cbn.
    rewrite lookup_insert_ne; [exact Hp1|]. intros E. now apply (Hne eq_refl).
  - exact Hp1.
Qed.

Lemma clean_one_keeps (src out_dir : Path) (o : Options) (range : option (Z * Z))
    (w : World) (p : Path) (nd : Node) :
  w_fs w !! p = Some nd ->
  (make_fxmanifest o = true -> p <> manifest_path (dest_root_of src out_dir)) ->
  w_fs (snd (clean_one sha1 stop_at src out_dir o range w)) !! p = Some nd.
Proof.
  intros Hp Hne. pose proof (setup_job_keeps src out_dir o range w p nd Hp Hne) as H.
  unfold clean_one.
  destruct (setup_job src out_dir o range w) as [[[[c files] w0]|e] w1] eqn:Hs; [|exact H].
  destruct (setup_job_Ok _ _ _ _ _ _ _ _ _ Hs) as (-> & _).
  pose proof (setup_job_layout _ _ _ _ _ _ _ _ _ Hs) as L. cbn in H |- *.
  assert (H0 : fs_of (start_job c w0) !! p = Some nd) by exact H.
  exact (lookup_weaken _ _ _ _ H0 (process_files_fs sha1 stop_at c L files 1 _)).
Qed.

Lemma run_jobs_keeps (n idx : nat) (sources : list Path) (out_p : Path) (o : Options)
    (w : World) (p : Path) (nd : Node) :
  w_fs w !! p = Some nd ->
  (make_fxmanifest o = true ->
   forall src, src ∈ sources -> p <> manifest_path (dest_root_of src out_p)) ->
  match run_jobs sha1 stop_at n idx sources out_p o w with
  | Exhausted w' | Broken w' | Raised _ w' => w_fs w' !! p = Some nd
  end.
Proof.
  revert idx w. induction sources as [|src rest IH]; intros idx w Hp Hne; [exact Hp|].
  cbn [run_jobs]. destruct (is_set stop_at w); [exact Hp|].
  pose proof (clean_one_keeps src out_p (with_default_exts o)
                (Some (job_range (Z.of_nat idx) (Z.of_nat n)))
                (ui_log (UiJob idx n (PathOps.name src)) (tick w)) p nd Hp) as H.
  destruct (clean_one _ _ _ _ _ _ _) as [[r|e] w2]; cbn in H.
  - apply IH.
    + apply H. intros Hm. apply (Hne Hm). apply list_elem_of_here.
    + intros Hm s Hs. apply (Hne Hm). now apply list_elem_of_further.
  - apply H. intros Hm. apply (Hne Hm). apply list_elem_of_here.
Qed.

Lemma run_queue_keeps (sources : list Path) (out_p : Path) (o : Options) (w : World)
    (p : Path) (nd : Node) :
  w_fs w !! p = Some nd ->
  (make_fxmanifest o = true ->
   forall src, src ∈ sources -> p <> manifest_path (dest_root_of src out_p)) ->
  w_fs (run_queue sha1 stop_at sources out_p o w) !! p = Some nd.
Proof.
  intros Hp Hne.
  pose proof (run_jobs_keeps (length sources) 1 sources out_p o w p nd Hp Hne) as K.
  unfold run_queue. now destruct (run_jobs _ _ _ _ _ _ _ _).
Qed.

(** ** The log file *)

Lemma clean_one_log_grows (src out_dir : Path) (o : Options) (range : option (Z * Z))
    (w : World) :
  w_log w `prefix_of` w_log (snd (clean_one sha1 stop_at src out_dir o range w)).
Proof.
  unfold clean_one.
  destruct (setup_job src out_dir o range w) as [[[[c files] w0]|e] w1] eqn:Hs.
  - destruct (setup_job_Ok _ _ _ _ _ _ _ _ _ Hs) as (_ & _ & _ & _ & Hw0 & _).
    pose proof (setup_job_layout _ _ _ _ _ _ _ _ _ Hs) as L.
    cbn [snd finish_job w_log logger ui_log].
    apply prefix_app_r.
    etransitivity; [|apply (process_files_log_grows_any sha1 stop_at c files 1 _ L)].
    cbn. rewrite Hw0. cbn. rewrite <- app_assoc. now apply prefix_app_r.
  - revert Hs. unfold setup_job.
    destruct (negb (Fs.exists_ (w_fs w) src) || negb (Fs.is_dir (w_fs w) src));
      [now intros [= _ <-]|].
    destruct (Fs.mkdir_parents _ _) as [fs1|e1]; [|now intros [= _ <-]].
    destruct (if make_fxmanifest o then _ else _) as [fs2|e2]; [discriminate|].
    now intros [= _ <-].
Qed.

Lemma run_jobs_log_grows (n idx : nat) (sources : list Path) (out_p : Path) (o : Options)
    (w : World) :
  match run_jobs sha1 stop_at n idx sources out_p o w with
  | Exhausted w' | Broken w' | Raised _ w' => w_log w `prefix_of` w_log w'
  end.
Proof.
  revert idx w. induction sources as [|src rest IH]; intros idx w; [cbn; reflexivity|].
  cbn [run_jobs]. destruct (is_set stop_at w); [cbn; reflexivity|].
  pose proof (clean_one_log_grows src out_p (with_default_exts o)
                (Some (job_range (Z.of_nat idx) (Z.of_nat n)))
                (ui_log (UiJob idx n (PathOps.name src)) (tick w))) as H.
  destruct (clean_one _ _ _ _ _ _ _) as [[r|e] w2]; cbn in H; [|exact H].
  specialize (IH (S idx) w2).
  destruct (run_jobs _ _ _ _ _ _ _ _); now transitivity (w_log w2).
Qed.

Lemma run_queue_log_grows (sources : list Path) (out_p : Path) (o : Options) (w : World) :
  w_log w `prefix_of` w_log (run_queue sha1 stop_at sources out_p o w).
Proof.
  pose proof (run_jobs_log_grows (length sources) 1 sources out_p o w) as H.
  unfold run_queue. destruct (run_jobs _ _ _ _ _ _ _ _); cbn; try exact H.
  now apply prefix_app_r.
Qed.

Section OnDisk.

Variable logfile : Path.
Variable render : list LogMsg -> string.

Lemma disk_of_other (w : World) (p : Path) :
  p <> logfile -> disk_of logfile render w !! p = w_fs w !! p.
Proof. intros Hp. unfold disk_of. now rewrite lookup_insert_ne by congruence. Qed.

(** X15. The disk is [w_fs] with the log file of the run, which holds the
    records logged so far. Whatever the queue does, also when it is stopped
    or ends in a fatal error, every entry that was on the disk, other than
    the log file, is there afterwards, unchanged, unless it is the
    [fxmanifest.lua] of the destination root of a source and manifests are
    wanted; with manifests off there is no such exception. The log file is
    only appended to. *)
Theorem run_queue_keeps_existing_entries
    (sources : list Path) (out_p : Path) (o : Options) (w : World) :
  let before := disk_of logfile render w in
  let after := disk_of logfile render (run_queue sha1 stop_at sources out_p o w) in
  (forall p nd,
      p <> logfile ->
      before !! p = Some nd ->
      (forall src, src ∈ sources -> p <> manifest_path (dest_root_of src out_p)) ->
      after !! p = Some nd) /\
  (make_fxmanifest o = false ->
   forall p nd, p <> logfile -> before !! p = Some nd -> after !! p = Some nd) /\
  before !! logfile = Some (File (render (w_log w)) true) /\
  exists more, after !! logfile = Some (File (render (w_log w ++ more)) true).
Proof.
  cbn zeta. split_and!.
  - intros p nd Hp Hb Hne. rewrite disk_of_other in Hb |- * by exact Hp.
    apply run_queue_keeps; [exact Hb | intros _; exact Hne].
  - intros Hoff p nd Hp Hb. rewrite disk_of_other in Hb |- * by exact Hp.
    apply run_queue_keeps; [exact Hb|]. rewrite Hoff. discriminate.
  - unfold disk_of. apply lookup_insert_eq.
  - destruct (run_queue_log_grows sources out_p o w) as [more E].
    exists more. unfold disk_of. rewrite E. apply lookup_insert_eq.
Qed.

End OnDisk.

(** X7. A job that returns with manifests on leaves, at
    [dest_root / fxmanifest.lua], the manifest text with the name of the
    source folder as author, whatever was at that path before. *)
Theorem job_leaves_manifest
    (src out_dir : Path) (o : Options) (range : option (Z * Z)) (w w' : World)
    (r : JobResult) :
  make_fxmanifest o = true ->
  clean_one sha1 stop_at src out_dir o range w = (Ok r, w') ->
  w_fs w' !! manifest_path (dest_root_of src out_dir)
  = Some (File (fxmanifest_content (PathOps.name src)) true).
Proof.
  intros Hon Hc.
  destruct (setup_job src out_dir o range w) as [[[[c files] w0]|e] w1] eqn:Hs;
    [|unfold clean_one in Hc; rewrite Hs in Hc; discriminate].
  pose proof (setup_job_layout _ _ _ _ _ _ _ _ _ Hs) as L.
  rewrite (clean_one_setup sha1 stop_at _ _ _ _ _ _ _ _ _ Hs) in Hc.
  injection Hc as _ <-.
  assert (H0 : w_fs w0 !! manifest_path (dest_root_of src out_dir)
               = Some (File (fxmanifest_content (PathOps.name src)) true)).
  { unfold setup_job in Hs.
    destruct (negb (Fs.exists_ (w_fs w) src) || negb (Fs.is_dir (w_fs w) src));
      [discriminate|].
    destruct (Fs.mkdir_parents _ _) as [fs1|e]; [|discriminate].
    rewrite Hon in Hs. destruct (write_fxmanifest _ _ _) as [fs2|e] eqn:Ew; [|discriminate].
    injection Hs as _ _ <- _. cbn. apply write_fxmanifest_Ok in Ew as ->.
    apply lookup_insert_eq. }
  cbn. change (w_fs w0) with (fs_of (start_job c w0)) in H0.
  exact (lookup_weaken _ _ _ _ H0 (process_files_fs sha1 stop_at c L files 1 _)).
Qed.

(** ** The progress calls of a job *)

Lemma process_file_progress (c : Ctx) (i : nat) (f : Path) (j : Job) :
  ctx_layout c ->
  w_progress (world (process_file sha1 c i f j))
  = w_progress (world j)
    ++ [_update_progress (Z.of_nat i) (Z.of_nat (c_total c)) (c_range c)].
Proof.
  intros L.
  destruct (process_file_outcome sha1 c L i f j) as
    [reason _ -> | e j1 [] -> | k j1 [] _ -> | j1 dest d rel data [] _ _ _ _ _ _ ->];
    cbn; congruence.
Qed.

Lemma process_files_progress (c : Ctx) (files : list Path) (i : nat) (j : Job) :
  ctx_layout c ->
  w_progress (world (process_files sha1 stop_at c i files j))
  = w_progress (world j)
    ++ map (fun k => _update_progress (Z.of_nat k) (Z.of_nat (c_total c)) (c_range c))
           (seq i (files_visited stop_at (w_checks (world j)) (length files))).
Proof.
  intros L. revert i j. induction files as [|f rest IH]; intros i j.
  - cbn. unfold files_visited. destruct stop_at; cbn; now rewrite app_nil_r.
  - cbn [process_files length]. unfold is_set, files_visited.
    destruct stop_at as [t|] eqn:Es.
    + destruct (Nat.leb_spec t (w_checks (world j))) as [Hle|Hlt].
      * replace (t - w_checks (world j)) with 0 by lia. cbn. now rewrite app_nil_r.
      * rewrite IH, process_file_progress by assumption.
        unfold files_visited. rewrite (process_file_checks sha1 c L).
        replace (Nat.min (S (length rest)) (t - w_checks (world j)))
          with (S (Nat.min (length rest) (t - S (w_checks (world j))))) by lia.
        cbn [seq map on_world world tick w_progress]. now rewrite <- app_assoc.
    + rewrite IH, process_file_progress by assumption.
      unfold files_visited. cbn [seq map on_world world tick w_progress].
      now rewrite <- app_assoc.
Qed.

(** X14. The progress sink gets, from a job that returns, one call for each
    file looked at, in order: the [i]-th is [_update_progress i total range]
    with [total = max 1 (number of files)]. Without a range these are the
    pairs [(1, total), (2, total), ...]; a job over a folder without files
    makes no call. *)
Theorem job_progress_calls
    (src out_dir : Path) (o : Options) (range : option (Z * Z)) (w w0 : World)
    (c : Ctx) (files : list Path) :
  setup_job src out_dir o range w = (Ok (c, files, w0), w0) ->
  let total := Nat.max 1 (length files) in
  let visited := files_visited stop_at (w_checks w) (length files) in
  let w' := snd (clean_one sha1 stop_at src out_dir o range w) in
  w_progress w'
  = w_progress w
    ++ map (fun k => _update_progress (Z.of_nat k) (Z.of_nat total) range) (seq 1 visited) /\
  (range = None ->
   w_progress w'
   = w_progress w ++ map (fun k => (Z.of_nat k, Z.of_nat total)) (seq 1 visited)) /\
  (files = [] -> w_progress w' = w_progress w).
Proof.
  intros Hs. cbn zeta.
  pose proof (setup_job_layout _ _ _ _ _ _ _ _ _ Hs) as L.
  destruct (setup_job_Ok _ _ _ _ _ _ _ _ _ Hs) as (_ & _ & Ec & _ & Hw0 & _).
  rewrite (clean_one_setup sha1 stop_at _ _ _ _ _ _ _ _ _ Hs). cbn [snd finish_job].
  cbn [w_progress logger ui_log].
  rewrite (process_files_progress c files 1 (start_job c w0) L).
  assert (Hck : w_checks (world (start_job c w0)) = w_checks w) by (cbn; now rewrite Hw0).
  assert (Hpr : w_progress (world (start_job c w0)) = w_progress w) by (cbn; now rewrite Hw0).
  rewrite Hck, Hpr.
  assert (Et : c_total c = Nat.max 1 (length files)) by (rewrite Ec; reflexivity).
  assert (Er : c_range c = range) by (rewrite Ec; reflexivity).
  rewrite Et, Er. split_and!.
  - reflexivity.
  - intros ->. reflexivity.
  - intros ->. unfold files_visited. cbn. destruct stop_at; cbn; now rewrite app_nil_r.
Qed.

End MoreJobs.

Lemma run_queue_keeps_existing_entries_witness :
  let logfile := ["out"; "mlo_cleaner_20240101_120000.log"] in
  let render := fun l : list LogMsg => pretty (length l) in
  disk_of logfile render
    (run_queue Sample.digest None [["mlo"]] ["out"]
               (mkOptions DEFAULT_KEEP_EXTS false true true false) Sample.fresh)
    !! ["mlo"; "a"; "x.ydr"]
  = Some (File "AAA" true).
Proof.
  cbn zeta.
  apply (proj1 (run_queue_keeps_existing_entries Sample.digest None
                  ["out"; "mlo_cleaner_20240101_120000.log"]
                  (fun l : list LogMsg => pretty (length l)) [["mlo"]] ["out"]
                  (mkOptions DEFAULT_KEEP_EXTS false true true false) Sample.fresh)).
  - discriminate.
  - by_running.
  - intros src Hsrc. apply list_elem_of_singleton in Hsrc. subst src. discriminate.
Defined.

Lemma job_leaves_manifest_witness :
  let o := mkOptions DEFAULT_KEEP_EXTS false true true false in
  w_fs (snd (clean_one Sample.digest None ["mlo"] ["out"] o None Sample.fresh))
    !! manifest_path (dest_root_of ["mlo"] ["out"])
  = Some (File (fxmanifest_content "mlo") true).
Proof.
  cbn zeta.
  apply (job_leaves_manifest Sample.digest None ["mlo"] ["out"]
           (mkOptions DEFAULT_KEEP_EXTS false true true false) None Sample.fresh
           (snd (clean_one Sample.digest None ["mlo"] ["out"]
                           (mkOptions DEFAULT_KEEP_EXTS false true true false)
                           None Sample.fresh))
           (3, 0, 1, Sample.dest_root)).
  - reflexivity.
  - by_running.
Defined.

Lemma job_progress_calls_witness :
  w_progress (snd (clean_one Sample.digest None ["mlo"] ["out"]
                             (Sample.options true false) None Sample.fresh))
  = [] ++ map (fun k => (Z.of_nat k, Z.of_nat (Nat.max 1 (length Sample.files))))
              (seq 1 (files_visited None 0 (length Sample.files))).
Proof.
  apply (job_progress_calls Sample.digest None ["mlo"] ["out"] (Sample.options true false)
           None Sample.fresh (Sample.ready Sample.fresh)
           (Sample.ctx (Sample.options true false) None) Sample.files).
  - by_running.
  - reflexivity.
Defined.

(* ===================================================================== *)
(** * More on the classifier *)
(* ===================================================================== *)

Section MoreClassifier.

Lemma string_app_assoc (a b d : string) : (a +:+ b) +:+ d = a +:+ b +:+ d.
Proof.
  induction a as [|x a IH]; [reflexivity|].
  change (String x ((a +:+ b) +:+ d) = String x (a +:+ b +:+ d)). now rewrite IH.
Qed.

Lemma lower_length (s : string) : String.length (Str.lower s) = String.length s.
Proof. induction s as [|a s IH]; [reflexivity|]. cbn. now rewrite IH. Qed.

Lemma lower_take (n : nat) (s : string) : Str.lower (Str.take n s) = Str.take n (Str.lower s).
Proof.
  revert s. induction n as [|n IH]; intros [|a s]; try reflexivity.
  cbn. now rewrite IH.
Qed.

Lemma lower_drop (n : nat) (s : string) : Str.lower (Str.drop n s) = Str.drop n (Str.lower s).
Proof.
  revert s. induction n as [|n IH]; intros [|a s]; try reflexivity. cbn. apply IH.
Qed.

Lemma take_app_length (a b : string) : Str.take (String.length a) (a +:+ b) = a.
Proof.
  induction a as [|x a IH]; [now destruct b|].
  change (String x a +:+ b) with (String x (a +:+ b)). cbn. now rewrite IH.
Qed.

Lemma drop_app_length (a b : string) : Str.drop (String.length a) (a +:+ b) = b.
Proof.
  induction a as [|x a IH]; [now destruct b|].
  change (String x a +:+ b) with (String x (a +:+ b)). cbn. exact IH.
Qed.

Lemma lower_dot (a : ascii) : Ascii.eqb (Str.lower_ascii a) "." = Ascii.eqb a ".".
Proof. destruct a as [[] [] [] [] [] [] [] []]; reflexivity. Qed.

Lemma rfind_dot_lower (s : string) : Str.rfind "." (Str.lower s) = Str.rfind "." s.
Proof.
  induction s as [|a s IH]; [reflexivity|].
  cbn [Str.lower Str.rfind]. now rewrite IH, lower_dot.
Qed.

Lemma suffix_of_lower (nm : string) :
  PathOps.suffix_of (Str.lower nm) = Str.lower (PathOps.suffix_of nm).
Proof.
  unfold PathOps.suffix_of, PathOps.suffix_pos.
  rewrite rfind_dot_lower, lower_length.
  destruct (Str.rfind "." nm) as [k|]; [|reflexivity].
  destruct ((0 <? k) && (k + 1 <? String.length nm)); [|reflexivity].
  symmetry. apply lower_drop.
Qed.

Lemma contains_occlusion_occl (s : string) :
  Str.contains "occlusion" s = true -> Str.contains "occl" s = true.
Proof.
  intros (pre & post & ->)%contains_inv.
  change "occlusion" with ("occl" +:+ "usion"). rewrite string_app_assoc.
  apply contains_app.
Qed.

(** X1. The second test of [is_occlusion_name] adds nothing: a name is an
    occlusion name exactly when it has a part that reads [occl] in lower
    case. *)
Theorem is_occlusion_name_iff (p : Path) :
  is_occlusion_name p = Str.contains "occl" (Str.lower (PathOps.name p)) /\
  (is_occlusion_name p = true <->
   exists pre mid post,
     PathOps.name p = pre +:+ mid +:+ post /\ Str.lower mid = "occl").
Proof.
  assert (E : is_occlusion_name p = Str.contains "occl" (Str.lower (PathOps.name p))).
  { unfold is_occlusion_name.
    destruct (Str.contains "occl" _) eqn:E1; [reflexivity|]. cbn.
    destruct (Str.contains "occlusion" _) eqn:E2; [|reflexivity].
    apply contains_occlusion_occl in E2. congruence. }
  split; [exact E|]. split.
  - rewrite E. intros (pre & post & H)%contains_inv.
    set (nm := PathOps.name p) in *.
    exists (Str.take (String.length pre) nm),
           (Str.take 4 (Str.drop (String.length pre) nm)),
           (Str.drop 4 (Str.drop (String.length pre) nm)).
    split.
    + now rewrite !take_drop.
    + rewrite lower_take, lower_drop, H, drop_app_length.
      apply (take_app_length "occl" post).
  - intros (pre & mid & post & Hn & Hm).
    apply (is_occlusion_name_intro p pre mid post Hn). now left.
Qed.

(** X6. For names of ASCII characters, on which [Str.lower] is Python's
    [str.lower], the verdict and the reason depend on the name through its
    lower-case form only: two paths that are both folders or both not, with
    ASCII names equal up to letter case, are classified alike. *)
Theorem classification_ignores_letter_case
    (fs : FS) (p q : Path) (exts : gset string) (flag : bool) :
  is_ascii (PathOps.name p) = true ->
  is_ascii (PathOps.name q) = true ->
  Fs.is_dir fs p = Fs.is_dir fs q ->
  Str.lower (PathOps.name p) = Str.lower (PathOps.name q) ->
  should_keep_file fs p exts flag = should_keep_file fs q exts flag.
Proof.
  intros _ _ Hd Hn. unfold should_keep_file, is_occlusion_name, PathOps.suffix.
  now rewrite Hd, <- !suffix_of_lower, Hn.
Qed.

(** X5. When a file is kept. A path is kept exactly when it is no folder, its
    name is no occlusion name, and its lower-cased suffix is [.ybn] with the
    collision flag on, or is another suffix that is allowed. So the flag
    alone decides on [.ybn] files, also when [.ybn] is among the allowed
    suffixes; and the reason is [kept] exactly for the kept files. *)
Theorem kept_iff (fs : FS) (p : Path) (exts : gset string) (flag : bool) :
  let ext := Str.lower (PathOps.suffix p) in
  (fst (should_keep_file fs p exts flag) = true <->
   Fs.is_dir fs p = false /\ is_occlusion_name p = false /\
   (ext = ".ybn" /\ flag = true \/ ext <> ".ybn" /\ ext ∈ exts)) /\
  (snd (should_keep_file fs p exts flag) = "kept" <->
   fst (should_keep_file fs p exts flag) = true).
Proof.
  cbn zeta. unfold should_keep_file.
  destruct (Fs.is_dir fs p) eqn:Ed.
  { cbn. split; split; try discriminate. intros (H & _). discriminate H. }
  destruct (is_occlusion_name p) eqn:Eo.
  { cbn. split; split; try discriminate. intros (_ & H & _). discriminate H. }
  destruct (String.eqb_spec (Str.lower (PathOps.suffix p)) ".ybn") as [E|E].
  - destruct flag; cbn [negb andb orb fst snd].
    + rewrite orb_true_r. cbn [fst snd]. split; split; try reflexivity.
      intros _. split_and!; try reflexivity. now left.
    + split; split; try discriminate.
      intros (_ & _ & [[_ H] | [H _]]); [discriminate H | contradiction].
  - cbn [andb]. rewrite andb_false_r, orb_false_r.
    destruct (decide (Str.lower (PathOps.suffix p) ∈ exts)) as [Hin|Hout].
    + rewrite (bool_decide_eq_true_2 _ Hin). cbn [fst snd].
      split; split; try reflexivity. intros _. split_and!; try reflexivity. now right.
    + rewrite (bool_decide_eq_false_2 _ Hout). cbn [fst snd].
      split; split; try discriminate.
      intros (_ & _ & [[H _] | [_ H]]); contradiction.
Qed.

End MoreClassifier.

Lemma classification_ignores_letter_case_witness :
  should_keep_file Sample.disk ["mlo"; "a"; "X.YDR"] DEFAULT_KEEP_EXTS false
  = should_keep_file Sample.disk ["mlo"; "a"; "x.ydr"] DEFAULT_KEEP_EXTS false.
Proof.
  apply (classification_ignores_letter_case Sample.disk ["mlo"; "a"; "X.YDR"]
           ["mlo"; "a"; "x.ydr"] DEFAULT_KEEP_EXTS false).
  - reflexivity.
  - reflexivity.
  - by_running.
  - by_running.
Defined.

(* ===================================================================== *)
(** * The walk: iter_files *)
(* ===================================================================== *)

Section Walk.

Lemma is_file_iff (fs : FS) (p : Path) :
  Fs.is_file fs p = true <-> exists data r, fs !! p = Some (File data r).
Proof.
  unfold Fs.is_file. destruct (fs !! p) as [[data r|]|]; split; try discriminate; eauto.
  - intros (? & ? & [=]).
  - intros (? & ? & [=]).
Qed.

Lemma is_dir_iff (fs : FS) (p : Path) : Fs.is_dir fs p = true <-> fs !! p = Some Dir.
Proof. unfold Fs.is_dir. destruct (fs !! p) as [[data r|]|]; split; congruence. Qed.

Lemma listdir_spec (fs : FS) (d : Path) (x : string) (nd : Node) :
  (x, nd) ∈ Fs.listdir fs d <-> fs !! (d ++ [x]) = Some nd /\ x <> "".
Proof.
  unfold Fs.listdir. rewrite list_elem_of_omap. split.
  - intros ([p nd'] & Hin & H). apply elem_of_map_to_list in Hin.
    destruct (PathOps.relative_to p d) as [[|y [|? ?]]|] eqn:Er; try discriminate.
    destruct (String.eqb y "") eqn:E; [discriminate|].
    injection H as -> ->. apply relative_to_Some in Er as ->.
    split; [exact Hin | now apply String.eqb_neq].
  - intros [Hl Hx]. exists (d ++ [x], nd). split; [now apply elem_of_map_to_list|].
    rewrite relative_to_app. now apply String.eqb_neq in Hx as ->.
Qed.

Lemma files_in_spec (fs : FS) (d f : Path) :
  f ∈ Fs.files_in d (Fs.listdir fs d) <->
  exists x, f = d ++ [x] /\ x <> "" /\ Fs.is_file fs f = true.
Proof.
  unfold Fs.files_in. rewrite list_elem_of_omap. split.
  - intros ([x nd] & Hin & H). apply listdir_spec in Hin as [Hl Hx].
    destruct nd; [|discriminate]. injection H as Ef. subst f.
    exists x. split_and!; try done. apply is_file_iff. eauto.
  - intros (x & -> & Hx & (data & r & E)%is_file_iff).
    exists (x, File data r). split; [now apply listdir_spec | reflexivity].
Qed.

Lemma subdirs_in_spec (fs : FS) (d s : Path) :
  s ∈ Fs.subdirs_in d (Fs.listdir fs d) <->
  exists x, s = d ++ [x] /\ x <> "" /\ Fs.is_dir fs s = true.
Proof.
  unfold Fs.subdirs_in. rewrite list_elem_of_omap. split.
  - intros ([x nd] & Hin & H). apply listdir_spec in Hin as [Hl Hx].
    destruct nd; [discriminate|]. injection H as Ef. subst s.
    exists x. split_and!; try done. now apply is_dir_iff.
  - intros (x & -> & Hx & E%is_dir_iff).
    exists (x, Dir). split; [now apply listdir_spec | reflexivity].
Qed.

Lemma reachable_here (fs : FS) (d : Path) (x : string) :
  x <> "" -> Fs.is_file fs (d ++ [x]) = true -> reachable fs d (d ++ [x]).
Proof.
  intros Hx Hf. exists [x]. split_and!; try done.
  all: try (repeat constructor; done).
  all: cbn; intros; lia.
Qed.

Lemma reachable_down (fs : FS) (d f : Path) (x : string) :
  x <> "" -> Fs.is_dir fs (d ++ [x]) = true -> reachable fs (d ++ [x]) f -> reachable fs d f.
Proof.
  intros Hx Hd (r & Hr & -> & Hall & Hdirs & Hf).
  exists (x :: r). split_and!; try done.
  - now rewrite <- app_assoc.
  - now constructor.
  - intros [|k] Hk; [lia|]. cbn [take]. destruct k as [|k].
    + now rewrite take_0.
    + change (d ++ x :: take (S k) r) with (d ++ [x] ++ take (S k) r).
      rewrite app_assoc. apply Hdirs. cbn in Hk. lia.
Qed.

Lemma walk_sound (depth : nat) (fs : FS) (d f : Path) :
  f ∈ Fs.walk depth fs d -> reachable fs d f.
Proof.
  revert d. induction depth as [|k IH]; intros d; cbn [Fs.walk].
  - intros H. now apply elem_of_nil in H.
  - intros [H|H]%elem_of_app.
    + apply files_in_spec in H as (x & -> & Hx & Hf). now apply reachable_here.
    + apply list_elem_of_In, in_flat_map in H as (sub & Hsub & H).
      apply list_elem_of_In in Hsub, H.
      apply subdirs_in_spec in Hsub as (x & -> & Hx & Hd).
      apply (reachable_down fs d f x Hx Hd). now apply IH.
Qed.

Lemma walk_complete (fs : FS) (r : list string) :
  forall (depth : nat) (d : Path),
    r <> [] -> length r <= depth ->
    Forall (fun x => x <> "") r ->
    (forall k, 0 < k < length r -> Fs.is_dir fs (d ++ take k r) = true) ->
    Fs.is_file fs (d ++ r) = true ->
    d ++ r ∈ Fs.walk depth fs d.
Proof.
  induction r as [|x r IH]; intros depth d Hr Hlen Hall Hdirs Hf; [done|].
  destruct depth as [|depth]; [cbn in Hlen; lia|].
  apply Forall_cons in Hall as [Hx Hall]. cbn [Fs.walk].
  apply elem_of_app. destruct r as [|y r].
  - left. apply files_in_spec. now exists x.
  - right. apply list_elem_of_In, in_flat_map. exists (d ++ [x]). split.
    + apply list_elem_of_In, subdirs_in_spec. exists x. split_and!; try done.
      specialize (Hdirs 1). cbn in Hdirs. apply Hdirs. lia.
    + apply list_elem_of_In.
      change (d ++ x :: y :: r) with (d ++ [x] ++ y :: r). rewrite app_assoc.
      apply IH; try done.
      * cbn in Hlen |- *. lia.
      * intros k Hk. rewrite <- app_assoc. apply (Hdirs (S k)). cbn in Hk |- *. lia.
      * now rewrite <- app_assoc.
Qed.

(** A path that the walk can get to is no deeper below the root than the
    file system has entries. *)
Lemma reachable_depth (fs : FS) (root : Path) (r : list string) :
  (forall k, 0 < k < length r -> Fs.is_dir fs (root ++ take k r) = true) ->
  Fs.is_file fs (root ++ r) = true ->
  length r <= size fs.
Proof.
  intros Hdirs Hf.
  set (keys := (fun k => root ++ take k r) <$> seq 1 (length r)).
  assert (Hnd : NoDup keys).
  { apply NoDup_fmap_2_strong; [|apply NoDup_seq].
    intros a b Ha Hb E. apply elem_of_seq in Ha, Hb.
    apply (f_equal (@length string)) in E. rewrite !length_app, !length_take in E. lia. }
  assert (Hsub : (list_to_set keys : gset Path) ⊆ dom fs).
  { intros p Hp. apply elem_of_list_to_set, list_elem_of_fmap in Hp as (k & -> & Hk).
    apply elem_of_seq in Hk. apply elem_of_dom.
    destruct (decide (k = length r)) as [->|Hne].
    - rewrite firstn_all. apply is_file_iff in Hf as (data & rd & ->). eauto.
    - specialize (Hdirs k ltac:(lia)). apply is_dir_iff in Hdirs as ->. eauto. }
  apply subseteq_size in Hsub. rewrite size_list_to_set in Hsub by assumption.
  rewrite size_dom in Hsub. unfold keys in Hsub.
  now rewrite length_fmap, length_seq in Hsub.
Qed.

Lemma NoDup_omap_inj {A B} (g : A -> option B) (l : list A) :
  NoDup l ->
  (forall x y z, x ∈ l -> y ∈ l -> g x = Some z -> g y = Some z -> x = y) ->
  NoDup (omap g l).
Proof.
  induction 1 as [|a l Ha Hl IH]; intros Hinj; [constructor|].
  cbn. destruct (g a) as [b|] eqn:E.
  - constructor.
    + intros (y & Hy & Ey)%list_elem_of_omap.
      assert (a = y) as -> by (eapply Hinj; eauto using list_elem_of_here, list_elem_of_further).
      contradiction.
    + apply IH. intros x y z Hx Hy. apply Hinj; now apply list_elem_of_further.
  - apply IH. intros x y z Hx Hy. apply Hinj; now apply list_elem_of_further.
Qed.

Lemma NoDup_flat_map_disjoint {A B} (g : A -> list B) (l : list A) :
  NoDup l ->
  (forall x, x ∈ l -> NoDup (g x)) ->
  (forall x y z, x ∈ l -> y ∈ l -> z ∈ g x -> z ∈ g y -> x = y) ->
  NoDup (flat_map g l).
Proof.
  induction 1 as [|a l Ha Hl IH]; intros Hnd Hdis; [constructor|].
  cbn. apply NoDup_app. split_and!.
  - apply Hnd, list_elem_of_here.
  - intros z Hz Hz'. apply list_elem_of_In, in_flat_map in Hz' as (y & Hy & Hzy).
    apply list_elem_of_In in Hy, Hzy.
    assert (a = y) as -> by (eapply Hdis; eauto using list_elem_of_here, list_elem_of_further).
    contradiction.
  - apply IH.
    + intros x Hx. now apply Hnd, list_elem_of_further.
    + intros x y z Hx Hy. apply Hdis; now apply list_elem_of_further.
Qed.

Lemma NoDup_listdir (fs : FS) (d : Path) : NoDup (Fs.listdir fs d).
Proof.
  unfold Fs.listdir. apply NoDup_omap_inj; [apply NoDup_map_to_list|].
  intros [p1 n1] [p2 n2] [x nd] _ _ H1 H2.
  destruct (PathOps.relative_to p1 d) as [[|y1 [|? ?]]|] eqn:E1; try discriminate.
  destruct (PathOps.relative_to p2 d) as [[|y2 [|? ?]]|] eqn:E2; try discriminate.
  destruct (String.eqb y1 ""); [discriminate|].
  destruct (String.eqb y2 ""); [discriminate|].
  apply relative_to_Some in E1, E2. congruence.
Qed.

Lemma listdir_functional (fs : FS) (d : Path) (x : string) (n1 n2 : Node) :
  (x, n1) ∈ Fs.listdir fs d -> (x, n2) ∈ Fs.listdir fs d -> n1 = n2.
Proof. intros [H1 _]%listdir_spec [H2 _]%listdir_spec. congruence. Qed.

Lemma NoDup_walk (depth : nat) (fs : FS) (d : Path) : NoDup (Fs.walk depth fs d).
Proof.
  revert d. induction depth as [|k IH]; intros d; cbn [Fs.walk]; [constructor|].
  apply NoDup_app. split_and!.
  - unfold Fs.files_in. apply NoDup_omap_inj; [apply NoDup_listdir|].
    intros [x1 n1] [x2 n2] z H1 H2 E1 E2.
    destruct n1; [|discriminate]. destruct n2; [|discriminate].
    injection E1 as <-. injection E2 as E2. apply app_inv_head in E2. injection E2 as ->.
    f_equal. eapply listdir_functional; eauto.
  - intros f Hf Hf'.
    apply files_in_spec in Hf as (x & -> & _).
    apply list_elem_of_In, in_flat_map in Hf' as (sub & Hsub & Hf').
    apply list_elem_of_In in Hsub, Hf'.
    apply subdirs_in_spec in Hsub as (y & -> & _).
    apply walk_walked in Hf' as [(r & Hr & E) _].
    apply (f_equal (@length string)) in E. rewrite !length_app in E. cbn in E.
    destruct r; [done | cbn in E; lia].
  - apply NoDup_flat_map_disjoint.
    + unfold Fs.subdirs_in. apply NoDup_omap_inj; [apply NoDup_listdir|].
      intros [x1 n1] [x2 n2] z H1 H2 E1 E2.
      destruct n1; [discriminate|]. destruct n2; [discriminate|].
      injection E1 as <-. injection E2 as E2. apply app_inv_head in E2. now injection E2 as ->.
    + intros s _. apply IH.
    + intros s1 s2 f Hs1 Hs2 H1 H2.
      apply subdirs_in_spec in Hs1 as (x1 & -> & _), Hs2 as (x2 & -> & _).
      apply walk_walked in H1 as [(r1 & _ & E1) _], H2 as [(r2 & _ & E2) _].
      rewrite E1, <- !app_assoc in E2. apply app_inv_head in E2. cbn in E2.
      now injection E2 as ->.
Qed.

(** X4. No file is yielded twice. *)
Theorem iter_files_no_duplicates (fs : FS) (root : Path) : NoDup (iter_files fs root).
Proof. apply NoDup_walk. Qed.

End Walk.

(* ===================================================================== *)
(** * The walk with folders that are not entered *)
(* ===================================================================== *)

Section OsWalkProofs.

Variable unlistable : Path -> bool.
Variable islink : Path -> bool.

Lemma reachable_os_here (fs : FS) (d : Path) (x : string) :
  unlistable d = false -> x <> "" -> Fs.is_file fs (d ++ [x]) = true ->
  reachable_os unlistable islink fs d (d ++ [x]).
Proof.
  intros Hl Hx Hf. exists [x]. split_and!; try done.
  - now apply Forall_singleton.
  - cbn. intros k Hk. lia.
  - cbn. intros [|k] Hk; [|lia]. now rewrite take_0, app_nil_r.
Qed.

Lemma reachable_os_down (fs : FS) (d f : Path) (x : string) :
  unlistable d = false -> x <> "" ->
  Fs.is_dir fs (d ++ [x]) = true -> islink (d ++ [x]) = false ->
  reachable_os unlistable islink fs (d ++ [x]) f -> reachable_os unlistable islink fs d f.
Proof.
  intros Hl Hx Hd Hlk (r & Hr & -> & Hall & Hdirs & Hlist & Hf).
  exists (x :: r). split_and!; try done.
  - now rewrite <- app_assoc.
  - now constructor.
  - intros [|k] Hk; [lia|]. cbn [take]. destruct k as [|k].
    + now rewrite take_0.
    + change (d ++ x :: take (S k) r) with (d ++ [x] ++ take (S k) r).
      rewrite app_assoc. apply Hdirs. cbn in Hk. lia.
  - intros [|k] Hk.
    + now rewrite take_0, app_nil_r.
    + cbn [take]. change (d ++ x :: take k r) with (d ++ [x] ++ take k r).
      rewrite app_assoc. apply Hlist. cbn in Hk. lia.
Qed.

Lemma walk_os_sound (depth : nat) (fs : FS) (d f : Path) :
  f ∈ walk_os unlistable islink depth fs d -> reachable_os unlistable islink fs d f.
Proof.
  revert d. induction depth as [|k IH]; intros d; cbn [walk_os].
  - intros H. now apply elem_of_nil in H.
  - destruct (unlistable d) eqn:Hl; [intros H; now apply elem_of_nil in H|].
    intros [H|H]%elem_of_app.
    + apply files_in_spec in H as (x & -> & Hx & Hf). now apply reachable_os_here.
    + apply list_elem_of_In, in_flat_map in H as (sub & Hsub & H).
      apply list_elem_of_In in Hsub, H.
      apply subdirs_in_spec in Hsub as (x & -> & Hx & Hd).
      destruct (islink (d ++ [x])) eqn:Hlk; [now apply elem_of_nil in H|].
      apply (reachable_os_down fs d f x Hl Hx Hd Hlk). now apply IH.
Qed.

Lemma walk_os_complete (fs : FS) (r : list string) :
  forall (depth : nat) (d : Path),
    r <> [] -> length r <= depth ->
    Forall (fun x => x <> "") r ->
    (forall k, 0 < k < length r ->
               Fs.is_dir fs (d ++ take k r) = true /\ islink (d ++ take k r) = false) ->
    (forall k, k < length r -> unlistable (d ++ take k r) = false) ->
    Fs.is_file fs (d ++ r) = true ->
    d ++ r ∈ walk_os unlistable islink depth fs d.
Proof.
  induction r as [|x r IH]; intros depth d Hr Hlen Hall Hdirs Hlist Hf; [done|].
  destruct depth as [|depth]; [cbn in Hlen; lia|].
  apply Forall_cons in Hall as [Hx Hall]. cbn [walk_os].
  assert (Hl : unlistable d = false).
  { specialize (Hlist 0 ltac:(cbn; lia)). now rewrite take_0, app_nil_r in Hlist. }
  rewrite Hl. apply elem_of_app. destruct r as [|y r].
  - left. apply files_in_spec. now exists x.
  - destruct (Hdirs 1 ltac:(cbn; lia)) as [Hd1 Hk1]. cbn in Hd1, Hk1.
    right. apply list_elem_of_In, in_flat_map. exists (d ++ [x]). split.
    + apply list_elem_of_In, subdirs_in_spec. exists x. now split_and!.
    + rewrite Hk1. apply list_elem_of_In.
      change (d ++ x :: y :: r) with (d ++ [x] ++ y :: r). rewrite app_assoc.
      apply IH; try done.
      * cbn in Hlen |- *. lia.
      * intros k Hk. rewrite <- app_assoc. apply (Hdirs (S k)). cbn in Hk |- *. lia.
      * intros k Hk. rewrite <- app_assoc. apply (Hlist (S k)). cbn in Hk |- *. lia.
      * now rewrite <- app_assoc.
Qed.

Lemma walk_os_plain (depth : nat) (fs : FS) (d : Path) :
  (forall p, unlistable p = false) -> (forall p, islink p = false) ->
  walk_os unlistable islink depth fs d = Fs.walk depth fs d.
Proof.
  intros Hl Hk. revert d. induction depth as [|k IH]; intros d; [reflexivity|].
  cbn [walk_os Fs.walk]. rewrite Hl. f_equal.
  apply flat_map_ext. intros sub. now rewrite Hk.
Qed.


End OsWalkProofs.


(* ===================================================================== *)
(** * [sha1_file] and the size of its chunks *)
(* ===================================================================== *)

Section Chunks.

Variable sha1 : string -> string.

Lemma string_app_empty_r (s : string) : s +:+ EmptyString = s.
Proof.
  induction s as [|a s IH]; [reflexivity|].
  change (String a (s +:+ EmptyString) = String a s). now rewrite IH.
Qed.

Lemma drop_length (n : nat) (s : string) :
  String.length (Str.drop n s) = String.length s - n.
Proof. revert s. induction n as [|n IH]; intros [|a s]; cbn; auto. Qed.

(** Positive chunks: every turn but the last feeds a non-empty chunk. *)
Lemma hash_chunks_positive (n : Z) (fuel : nat) (fed rest : string) :
  (0 < n)%Z -> String.length rest < fuel ->
  hash_chunks sha1 fuel n fed rest = Some (Digest (sha1 (fed +:+ rest))).
Proof.
  intros Hn. revert fed rest. induction fuel as [|k IH]; intros fed rest Hl; [lia|].
  cbn [hash_chunks]. unfold read_chunk.
  destruct (Z.ltb_spec n (-1)) as [?|_]; [lia|].
  destruct (Z.eqb_spec n (-1)) as [?|_]; [lia|].
  destruct (Z.to_nat n) as [|m] eqn:Em; [lia|].
  destruct rest as [|a rest].
  - cbn. now rewrite string_app_empty_r.
  - cbn [Str.take Str.drop].
    rewrite IH.
    + do 3 f_equal. rewrite string_app_assoc. f_equal.
      change (String a (Str.take m rest +:+ Str.drop m rest) = String a rest).
      now rewrite take_drop.
    + rewrite drop_length. cbn in Hl. lia.
Qed.

(** [chunk_size = -1]: one read takes the whole file, the next is empty. *)
Lemma hash_chunks_all (fuel : nat) (fed rest : string) :
  2 <= fuel ->
  hash_chunks sha1 fuel (-1) fed rest = Some (Digest (sha1 (fed +:+ rest))).
Proof.
  intros Hf. destruct fuel as [|[|k]]; [lia | lia |].
  cbn [hash_chunks]. unfold read_chunk. cbn.
  destruct rest as [|a rest]; [now rewrite string_app_empty_r | reflexivity].
Qed.


End Chunks.


(* ===================================================================== *)
(** * The progress bar *)
(* ===================================================================== *)

Section Bar.

Variable sha1 : string -> string.
Variable stop_at : option nat.

Lemma FireBar_set_ok (v : Z) (m : option Z) (b : FireBar) :
  (0 < maximum b)%Z -> bar_ok (FireBar_set v m b).
Proof.
  intros Hb. unfold bar_ok, FireBar_set. cbn [value maximum].
  destruct m as [m|]; [destruct (Z.ltb_spec 0 m)|]; lia.
Qed.

Lemma _progress_ok (current total : Z) (b : FireBar) :
  (0 < maximum b)%Z -> bar_ok (_progress current total b).
Proof. intros Hb. unfold _progress. destruct (total <=? 0)%Z; now apply FireBar_set_ok. Qed.

Lemma replay_snoc (calls : list (Z * Z)) (current total : Z) (b : FireBar) :
  replay (calls ++ [(current, total)]) b = _progress current total (replay calls b).
Proof. unfold replay. now rewrite fold_left_app. Qed.

Lemma replay_ok (calls : list (Z * Z)) (b : FireBar) : bar_ok b -> bar_ok (replay calls b).
Proof.
  revert b. induction calls as [|[cur tot] calls IH]; intros b Hb; [exact Hb|].
  apply IH, _progress_ok, Hb.
Qed.

(** A call with a positive total sets both numbers, whatever the bar
    held. *)
Lemma _progress_positive (current total : Z) (b : FireBar) :
  (0 < total)%Z ->
  _progress current total b = mkFireBar (Z.max 0 (Z.min current total)) total.
Proof.
  intros Ht. unfold _progress, FireBar_set.
  destruct (Z.leb_spec total 0); [lia|].
  destruct (Z.ltb_spec 0 total); [reflexivity | lia].
Qed.

(** X16. The bar never leaves its range: from the bar as [__init__] makes it,
    or any bar in range, every [set] and every sequence of progress calls
    leaves [0 < maximum] and [0 <= value <= maximum], so [_render] never takes
    its [maximum <= 0] branch and divides a value of that range by a positive
    maximum. A call with
    [total <= 0] resets the bar to 0 of 100; and when the calls are those of
    a queue, all of the form [(val, 100)], the bar ends at [val] clamped to
    [0..100], of 100. *)
Theorem bar_stays_in_range (b : FireBar) :
  bar_ok b ->
  bar_ok FireBar_init /\
  (forall v m, bar_ok (FireBar_set v m b)) /\
  (forall calls, bar_ok (replay calls b)) /\
  (forall current total, (total <= 0)%Z -> _progress current total b = mkFireBar 0 100) /\
  (forall calls val,
      replay (calls ++ [(val, 100%Z)]) b = mkFireBar (Z.max 0 (Z.min val 100)) 100).
Proof.
  intros Hb. split_and!.
  - unfold bar_ok, FireBar_init. cbn. lia.
  - intros v m. apply FireBar_set_ok, Hb.
  - intros calls. now apply replay_ok.
  - intros current total Ht. unfold _progress, FireBar_set.
    destruct (Z.leb_spec total 0); [reflexivity | lia].
  - intros calls val. rewrite replay_snoc. now apply _progress_positive.
Qed.


End Bar.

Lemma bar_stays_in_range_witness :
  bar_ok (replay [(1, 4); (7, 4); (3, 0); (-5, 100)]%Z FireBar_init) /\
  replay ([(1, 4); (7, 4)] ++ [(250, 100)])%Z FireBar_init = mkFireBar 100 100.
Proof.
  destruct (bar_stays_in_range FireBar_init) as (_ & _ & H & _ & H100).
  - unfold bar_ok. cbn. lia.
  - split; [apply H | apply (H100 [(1, 4); (7, 4)]%Z 250%Z)].
Defined.


(* ===================================================================== *)
(** * The queue of source folders *)
(* ===================================================================== *)

Section QueueProofs.

Variable resolve : string -> Path.
Variable str : Path -> string.

Lemma unselected_none {A} (i : nat) (sel : list nat) (l : list A) :
  Forall (fun x => x < i) sel -> unselected i sel l = l.
Proof.
  revert i. induction l as [|x r IH]; intros i Hs; [reflexivity|].
  cbn [unselected]. destruct (decide (i ∈ sel)) as [Hin|_].
  - rewrite Forall_forall in Hs. specialize (Hs i Hin). lia.
  - f_equal. apply IH. eapply Forall_impl; [exact Hs|]. cbn. lia.
Qed.

(** Deleting the last selected position first leaves the earlier ones
    where they were. *)
Lemma unselected_delete {A} (i s : nat) (sel : list nat) (l : list A) :
  Forall (fun x => x < i + s) sel -> s < length l ->
  unselected i sel (delete s l) = unselected i (sel ++ [i + s]) l.
Proof.
  revert i s. induction l as [|x r IH]; intros i s Hs Hl; [cbn in Hl; lia|].
  destruct s as [|s'].
  - cbn [delete list_delete unselected].
    rewrite decide_True by (rewrite Nat.add_0_r; set_solver).
    rewrite !unselected_none; [reflexivity | |].
    + apply Forall_app. split.
      * eapply Forall_impl; [exact Hs|]. cbn. lia.
      * apply Forall_singleton. lia.
    + eapply Forall_impl; [exact Hs|]. cbn. lia.
  - cbn [delete list_delete unselected].
    assert (E : unselected (S i) sel (delete s' r)
                = unselected (S i) (sel ++ [i + S s']) r).
    { replace (i + S s') with (S i + s') by lia.
      apply IH; [|cbn in Hl; lia].
      eapply Forall_impl; [exact Hs|]. cbn. lia. }
    destruct (decide (i ∈ sel)) as [Hin|Hnin].
    + rewrite decide_True by set_solver. exact E.
    + rewrite decide_False; [f_equal; exact E|].
      rewrite elem_of_app, list_elem_of_singleton. intros [?|?]; [done | lia].
Qed.

Lemma unselected_map {A B} (g : A -> B) (i : nat) (sel : list nat) (l : list A) :
  unselected i sel (map g l) = map g (unselected i sel l).
Proof.
  revert i. induction l as [|x r IH]; intros i; [reflexivity|].
  cbn [map unselected]. rewrite IH. now destruct (decide (i ∈ sel)).
Qed.

Lemma unselected_sublist {A} (i : nat) (sel : list nat) (l : list A) :
  unselected i sel l `sublist_of` l.
Proof.
  revert i. induction l as [|x r IH]; intros i; [constructor|].
  cbn [unselected]. destruct (decide (i ∈ sel)).
  - apply sublist_cons, IH.
  - apply sublist_skip, IH.
Qed.

(** What is left holds an item exactly when it sat at a position that was
    not selected. *)
Lemma unselected_elem_of {A} (i : nat) (sel : list nat) (l : list A) (x : A) :
  x ∈ unselected i sel l <-> exists k, l !! k = Some x /\ i + k ∉ sel.
Proof.
  revert i. induction l as [|y r IH]; intros i.
  - cbn. split; [intros H; inversion H | intros (k & Hk & _); destruct k; discriminate].
  - cbn [unselected]. destruct (decide (i ∈ sel)) as [Hin|Hnin].
    + rewrite IH. split.
      * intros (k & Hk & Hn). exists (S k). split; [exact Hk|].
        now replace (i + S k) with (S i + k) by lia.
      * intros ([|k] & Hk & Hn).
        -- rewrite Nat.add_0_r in Hn. contradiction.
        -- exists k. split; [exact Hk|]. now replace (S i + k) with (i + S k) by lia.
    + rewrite elem_of_cons, IH. split.
      * intros [->|(k & Hk & Hn)].
        -- exists 0. split; [reflexivity|]. now rewrite Nat.add_0_r.
        -- exists (S k). split; [exact Hk|]. now replace (i + S k) with (S i + k) by lia.
      * intros ([|k] & Hk & Hn).
        -- left. cbn in Hk. congruence.
        -- right. exists k. split; [exact Hk|].
           now replace (S i + k) with (i + S k) by lia.
Qed.

Lemma remove_each_spec (sel : list nat) (srcs : list Path) (lb : list string) :
  length lb = length srcs ->
  selection_of sel (length srcs) ->
  remove_each (reverse sel) (mkQueue srcs lb)
  = Some (mkQueue (unselected 0 sel srcs) (unselected 0 sel lb)).
Proof.
  revert srcs lb. induction sel as [|s sel' IH] using rev_ind; intros srcs lb Hlen [Hso Hin].
  - cbn. now rewrite !unselected_none by constructor.
  - rewrite reverse_snoc. cbn [remove_each sources listbox].
    apply Forall_app in Hin as [Hin' Hs]. apply Forall_inv in Hs.
    assert (Hlt : Forall (fun x => x < s) sel').
    { apply Forall_forall. intros x Hx.
      apply (StronglySorted_app_1_elem_of _ _ _ _ _ Hso Hx). apply list_elem_of_here. }
    unfold del_item. rewrite decide_True by exact Hs.
    assert (Hd : forall (A : Type) (l : list A),
               length l = length srcs -> length (delete s l) = length srcs - 1).
    { intros A l El. rewrite length_delete; [lia|].
      apply lookup_lt_is_Some. lia. }
    rewrite IH.
    + f_equal. f_equal; apply (unselected_delete 0 s); cbn; try assumption; lia.
    + rewrite !Hd; [reflexivity | reflexivity | exact Hlen].
    + split; [exact (StronglySorted_app_1_l _ _ _ Hso)|].
      rewrite Hd by reflexivity.
      eapply Forall_impl; [exact Hlt|]. cbn. lia.
Qed.

(** X18. Adding a folder keeps the list box showing the queue, with no folder
    queued twice: a cancelled dialog changes nothing, a folder that is queued
    already is refused with the notice, any other is put last in both
    lists. Clearing empties both. *)
Theorem add_source_keeps_queue (p : string) (q : Queue) :
  queue_ok str q ->
  let q' := fst (add_source resolve str p q) in
  let notice := snd (add_source resolve str p q) in
  queue_ok str q' /\
  queue_ok str (clear_sources q) /\
  (notice = Some AlreadyAdded <-> p <> EmptyString /\ resolve p ∈ sources q) /\
  (p <> EmptyString -> resolve p ∈ sources q') /\
  (p = EmptyString \/ resolve p ∈ sources q -> q' = q) /\
  (p <> EmptyString -> resolve p ∉ sources q ->
   sources q' = sources q ++ [resolve p] /\ listbox q' = listbox q ++ [str (resolve p)]).
Proof.
  intros [Hlb Hnd]. cbn zeta. unfold add_source.
  destruct p as [|a p'].
  - cbn. split_and!; try done.
    + split; [constructor | constructor].
    + split; [discriminate | intros [[] _]; reflexivity].
  - set (path := resolve (String a p')).
    destruct (decide (path ∈ sources q)) as [Hin|Hnin]; cbn [fst snd sources listbox].
    + split_and!; try done.
      * split; [constructor | constructor].
    + split_and!.
      * split; cbn [sources listbox].
        -- now rewrite Hlb, map_app.
        -- apply NoDup_app. split_and!; [exact Hnd | | apply NoDup_singleton].
           intros x Hx ->%list_elem_of_singleton. contradiction.
      * split; [constructor | constructor].
      * split; [discriminate | intros [_ ?]; contradiction].
      * intros _. apply elem_of_app. right. apply list_elem_of_here.
      * intros [?|?]; [discriminate | contradiction].
      * intros _ _. split; reflexivity.
Qed.

(** X19. Removing the selection, last position first, raises no [IndexError]
    and takes out of the queue and of the list box exactly the items at the
    selected positions: the others stay, in their order, and the list box
    still shows the queue. *)
Theorem remove_selected_removes_selection (sel : list nat) (q : Queue) :
  queue_ok str q ->
  selection_of sel (length (listbox q)) ->
  exists q',
    remove_selected sel q = Some q' /\
    sources q' = unselected 0 sel (sources q) /\
    listbox q' = unselected 0 sel (listbox q) /\
    queue_ok str q' /\
    (forall x, x ∈ sources q' <-> exists k, sources q !! k = Some x /\ k ∉ sel).
Proof.
  intros [Hlb Hnd] Hsel.
  assert (Hlen : length (listbox q) = length (sources q)) by (rewrite Hlb; apply length_map).
  rewrite Hlen in Hsel.
  exists (mkQueue (unselected 0 sel (sources q)) (unselected 0 sel (listbox q))).
  split_and!.
  - unfold remove_selected. destruct sel as [|s sel'] eqn:Es.
    + rewrite !unselected_none by constructor. now destruct q.
    + rewrite <- Es in *. destruct q as [srcs lb]. now apply remove_each_spec.
  - reflexivity.
  - reflexivity.
  - split; cbn [sources listbox].
    + now rewrite Hlb, unselected_map.
    + eapply sublist_NoDup; [exact Hnd | apply unselected_sublist].
  - intros x. cbn [sources]. apply unselected_elem_of.
Qed.

End QueueProofs.

Lemma add_source_keeps_queue_witness :
  let q := mkQueue [["mlo"]] ["/mlo"] in
  let show := fun p : Path => String.concat "" (map (fun x => "/" +:+ x) p) in
  fst (add_source (fun s => [s]) show "twins" q)
  = mkQueue [["mlo"]; ["twins"]] ["/mlo"; "/twins"] /\
  add_source (fun s => [s]) show "mlo" q = (q, Some AlreadyAdded).
Proof.
  cbn zeta.
  destruct (add_source_keeps_queue (fun s => [s])
              (fun p : Path => String.concat "" (map (fun x => "/" +:+ x) p))
              "twins" (mkQueue [["mlo"]] ["/mlo"]))
    as (_ & _ & _ & _ & _ & H).
  - split; [reflexivity | cbn; by_running].
  - destruct H as [Hs Hl]; [discriminate | by_running |].
    split; [|by_running].
    destruct (add_source _ _ "twins" _) as [[srcs lb] n]. cbn in Hs, Hl |- *.
    now rewrite Hs, Hl.
Defined.

Lemma remove_selected_removes_selection_witness :
  exists q',
    remove_selected [0; 2] (mkQueue [["a"]; ["b"]; ["c"]; ["d"]] ["/a"; "/b"; "/c"; "/d"])
    = Some q' /\
    sources q' = [["b"]; ["d"]] /\ listbox q' = ["/b"; "/d"].
Proof.
  cbn zeta.
  destruct (remove_selected_removes_selection
              (fun p : Path => String.concat "" (map (fun x => "/" +:+ x) p))
              [0; 2] (mkQueue [["a"]; ["b"]; ["c"]; ["d"]] ["/a"; "/b"; "/c"; "/d"]))
    as (q' & Hr & Hs & Hl & _).
  - split; [reflexivity | cbn; by_running].
  - unfold selection_of. by_running.
  - exists q'. split_and!; [exact Hr | rewrite Hs; by_running | rewrite Hl; by_running].
Defined.

(* ===================================================================== *)
(** * Where the files a job writes come from *)
(* ===================================================================== *)

Section Provenance.

Variable sha1 : string -> string.
Variable stop_at : option nat.

Section Loop.

Variable c : Ctx.
Hypothesis layout : ctx_layout c.
Variable fs0 : FS.
Variable files : list Path.
Hypothesis Hfiles : forall f, f ∈ files -> walked (c_src c) f /\ Fs.is_file fs0 f = true.

(** The invariant of the loop: the disk it started from is still there,
    and every other regular file is a copy of a kept file. *)
Local Abbreviation only_copies j :=
  (fs0 ⊆ fs_of j /\
   forall p data r,
     fs_of j !! p = Some (File data r) ->
     fs0 !! p = Some (File data r) \/ (r = true /\ copy_of_kept fs0 c files p data)).

Lemma process_file_only_copies (i : nat) (f : Path) (j : Job) :
  f ∈ files -> only_copies j -> only_copies (process_file sha1 c i f j).
Proof.
  intros Hf [Hsub Hprov]. split.
  { transitivity (fs_of j); [exact Hsub | apply (process_file_fs sha1 c layout)]. }
  intros p data r Hp.
  destruct (Hfiles f Hf) as [Hwalk Hfile].
  apply is_file_iff in Hfile as (data0 & r0 & Hf0).
  pose proof (lookup_weaken _ _ _ _ Hf0 Hsub) as Hfj.
  destruct (should_keep_file (fs_of j) f (keep_exts (c_opts c)) (include_ybn (c_opts c)))
    as [keep reason] eqn:Ek.
  assert (Ek0 : should_keep_file fs0 f (keep_exts (c_opts c)) (include_ybn (c_opts c))
                = (keep, reason)).
  { rewrite <- Ek. apply should_keep_file_fs.
    now rewrite (is_dir_of_file _ _ _ _ Hf0), (is_dir_of_file _ _ _ _ Hfj). }
  destruct (process_file_outcome sha1 c layout i f j) as
    [reason' Hrej E | e j1 Hprep E | k j1 Hprep _ E
     | j1 dest d rel data' Hprep _ Hdest Hd Hfree Hread Hrel E];
    rewrite E in Hp; cbn in Hp.
  - now apply Hprov.
  - apply Hprov. now apply (proj2 (prep_fs _ _ Hprep)).
  - apply Hprov. now apply (proj2 (prep_fs _ _ Hprep)).
  - destruct (decide (p = d)) as [->|Hne].
    + rewrite lookup_insert_eq in Hp. injection Hp as <- <-.
      right. split; [reflexivity|]. split.
      * pose proof (dest_path_for_walked c f dest layout Hwalk Hdest) as Hb.
        destruct Hd as [->|(m & _ & ->)]; [exact Hb | now apply below_with_name].
      * exists f. split_and!; [exact Hf | |].
        -- apply (proj2 (prep_fs _ _ Hprep)) in Hread. congruence.
        -- rewrite Ek0. cbn. destruct keep; [reflexivity|].
           exfalso. revert E. unfold process_file. rewrite Ek. cbn [negb].
           intros E. apply (f_equal (fun j => last (w_log (world j)))) in E.
           cbn in E. rewrite !last_snoc in E. discriminate E.
    + rewrite lookup_insert_ne in Hp by congruence.
      apply Hprov. now apply (proj2 (prep_fs _ _ Hprep)).
Qed.

Lemma process_files_only_copies (rest : list Path) (i : nat) (j : Job) :
  (forall f, f ∈ rest -> f ∈ files) ->
  only_copies j -> only_copies (process_files sha1 stop_at c i rest j).
Proof.
  revert i j. induction rest as [|f rest IH]; intros i j Hin Hj; [exact Hj|].
  cbn [process_files]. destruct (is_set stop_at (world j)); [exact Hj|].
  apply IH.
  - intros g Hg. apply Hin. now apply list_elem_of_further.
  - apply process_file_only_copies; [apply Hin, list_elem_of_here | exact Hj].
Qed.

End Loop.

Lemma job_files_provenance
    (src out_dir : Path) (o : Options) (range : option (Z * Z)) (w w0 : World)
    (c : Ctx) (files : list Path) (p : Path) (data : string) (r : bool) :
  setup_job src out_dir o range w = (Ok (c, files, w0), w0) ->
  w_fs (snd (clean_one sha1 stop_at src out_dir o range w)) !! p = Some (File data r) ->
  w_fs w !! p = Some (File data r) \/
  (make_fxmanifest o = true /\ p = manifest_path (dest_root_of src out_dir) /\
   data = fxmanifest_content (PathOps.name src) /\ r = true) \/
  (r = true /\ copy_of_kept (w_fs w0) c files p data).
Proof.
  intros Hs Hp.
  pose proof (setup_job_layout _ _ _ _ _ _ _ _ _ Hs) as L.
  destruct (setup_job_Ok _ _ _ _ _ _ _ _ _ Hs) as (_ & _ & Ec & Efiles & _ & _).
  rewrite (clean_one_setup sha1 stop_at _ _ _ _ _ _ _ _ _ Hs) in Hp.
  cbn [snd finish_job] in Hp. cbn [w_fs logger ui_log] in Hp.
  assert (Hsrc : c_src c = src) by (rewrite Ec; reflexivity).
  assert (Hall : forall f, f ∈ files -> walked (c_src c) f /\ Fs.is_file (w_fs w0) f = true).
  { intros f Hf. rewrite Efiles in Hf. unfold iter_files in Hf. rewrite Hsrc. split.
    - exact (walk_walked _ _ _ _ Hf).
    - apply walk_sound in Hf as (r' & _ & _ & _ & _ & Hfile). exact Hfile. }
  destruct (process_files_only_copies c L (w_fs w0) files Hall files 1 (start_job c w0))
    as [_ Hprov].
  { auto. }
  { split; [reflexivity | intros; now left]. }
  destruct (Hprov p data r Hp) as [H0 | Hcopy]; [|right; right; exact Hcopy].
  clear Hprov Hp. revert Hs. unfold setup_job.
  destruct (negb (Fs.exists_ (w_fs w) src) || negb (Fs.is_dir (w_fs w) src));
    [discriminate|].
  destruct (Fs.mkdir_parents _ _) as [fs1|e] eqn:Em; [|discriminate].
  destruct (make_fxmanifest o) eqn:Eo.
  - destruct (write_fxmanifest _ _ _) as [fs2|e] eqn:Ew; [|discriminate].
    intros [= _ _ <-]. cbn in H0. apply write_fxmanifest_Ok in Ew as ->.
    destruct (decide (p = manifest_path (dest_root_of src out_dir))) as [->|Hne].
    + rewrite lookup_insert_eq in H0. injection H0 as <- <-. right. left. now split_and!.
    + rewrite lookup_insert_ne in H0 by congruence. left.
      now apply (mkdir_parents_file _ _ _ _ _ _ Em).
  - intros [= _ _ <-]. cbn in H0. left. now apply (mkdir_parents_file _ _ _ _ _ _ Em).
Qed.

Section OnDisk2.

Variable logfile : Path.
Variable render : list LogMsg -> string.


End OnDisk2.

End Provenance.


(* ===================================================================== *)
(** * Dedupe over a whole job *)
(* ===================================================================== *)

Section JobDedupe.

Variable sha1 : string -> string.
Variable stop_at : option nat.

Lemma copy_sources_app (l k : list LogMsg) :
  copy_sources (l ++ k) = copy_sources l ++ copy_sources k.
Proof. unfold copy_sources. apply omap_app. Qed.

Lemma copy_sources_notes (notes : list LogMsg) :
  Forall is_note notes -> copy_sources notes = [].
Proof.
  induction 1 as [|m notes Hm _ IH]; [reflexivity|].
  unfold copy_sources in *. cbn. destruct m; try contradiction; exact IH.
Qed.

Section Loop.

Variable c : Ctx.
Hypothesis layout : ctx_layout c.
Hypothesis dedupe_on : dedupe (c_opts c) = true.
Variable fs0 : FS.
Variable files : list Path.
Variable base : list LogMsg.

(** The invariant of the loop: the digests of the files copied so far
    are pairwise different and all in the index. *)
Local Abbreviation distinct_so_far j :=
  (fs0 ⊆ fs_of j /\
   exists new,
     w_log (world j) = base ++ new /\
     Forall (fun f => f ∈ files) (copy_sources new) /\
     NoDup (map (fun f => sha1 (content fs0 f)) (copy_sources new)) /\
     forall f, f ∈ copy_sources new -> is_Some (seen_hashes j !! sha1 (content fs0 f))).

Lemma process_file_distinct (i : nat) (f : Path) (j : Job) :
  f ∈ files -> Fs.is_file fs0 f = true ->
  distinct_so_far j -> distinct_so_far (process_file sha1 c i f j).
Proof.
  intros Hin Hfile (Hsub & new & Hlog & Hfiles & Hnd & Hseen). split.
  { transitivity (fs_of j); [exact Hsub | apply (process_file_fs sha1 c layout)]. }
  pose proof (process_file_seen sha1 c layout i f j) as Hgrow.
  assert (Hkeep : forall g, g ∈ copy_sources new ->
            is_Some (seen_hashes (process_file sha1 c i f j) !! sha1 (content fs0 g))).
  { intros g Hg. destruct (Hseen g Hg) as [d Hd]. exists d.
    exact (lookup_weaken _ _ _ _ Hd Hgrow). }
  revert Hgrow Hkeep.
  destruct (process_file_outcome sha1 c layout i f j) as
    [reason _ E | e j1 Hprep E | k j1 Hprep _ E
     | j1 dest d rel data Hprep Hidx Hdest Hd Hfree Hread Hrel E];
    rewrite E; intros Hgrow Hkeep.
  - exists (new ++ [LogSkip f reason]). cbn. rewrite Hlog, <- app_assoc.
    rewrite copy_sources_app, app_nil_r. now split_and!.
  - destruct (prep_log _ _ Hprep) as (notes & En & Hnotes).
    exists (new ++ notes ++ [LogError f e]). cbn. rewrite En, Hlog, <- !app_assoc.
    rewrite !copy_sources_app, (copy_sources_notes notes Hnotes), !app_nil_r.
    now split_and!.
  - destruct (prep_log _ _ Hprep) as (notes & En & Hnotes).
    exists (new ++ notes ++ [skip_log f k]). cbn. rewrite En, Hlog, <- !app_assoc.
    rewrite !copy_sources_app, (copy_sources_notes notes Hnotes).
    replace (copy_sources [skip_log f k]) with (@nil Path) by now destruct k.
    rewrite !app_nil_r. now split_and!.
  - destruct (prep_log _ _ Hprep) as (notes & En & Hnotes).
    exists (new ++ notes ++ [LogCopy f d]). cbn. rewrite En, Hlog, <- !app_assoc.
    rewrite !copy_sources_app, (copy_sources_notes notes Hnotes). cbn [app].
    change (copy_sources [LogCopy f d]) with [f].
    apply is_file_iff in Hfile as Hf0. destruct Hf0 as (data0 & r0 & Hf0).
    assert (Edata : content fs0 f = data).
    { unfold content. rewrite Hf0.
      pose proof (lookup_weaken _ _ _ _ Hf0 Hsub) as Hfj.
      pose proof (lookup_weaken _ _ _ _ Hfj (proj1 (prep_fs _ _ Hprep))) as Hf1.
      congruence. }
    destruct (index_step_on sha1 c dedupe_on f j j1 data Hidx Hread) as [Hnone _].
    split_and!.
    + reflexivity.
    + apply Forall_app. split; [exact Hfiles | now apply Forall_singleton].
    + rewrite map_app. apply NoDup_app. split_and!; [exact Hnd | | apply NoDup_singleton].
      intros x Hx Hx'. cbn in Hx'. apply list_elem_of_singleton in Hx'. subst x.
      apply list_elem_of_fmap in Hx as (g & Eg & Hg).
      destruct (Hseen g Hg) as [d' Hd']. rewrite <- Eg, Edata in Hd'. congruence.
    + intros g [Hg | ->%list_elem_of_singleton]%elem_of_app; [now apply Hkeep|].
      rewrite Edata. cbn.
      destruct (index_step_on sha1 c dedupe_on f j j1 data Hidx Hread) as [_ [dst ->]].
      rewrite lookup_insert_eq. now eexists.
Qed.

Lemma process_files_distinct (rest : list Path) (i : nat) (j : Job) :
  Forall (fun f => f ∈ files /\ Fs.is_file fs0 f = true) rest ->
  distinct_so_far j -> distinct_so_far (process_files sha1 stop_at c i rest j).
Proof.
  revert i j. induction rest as [|f rest IH]; intros i j Hall Hj; [exact Hj|].
  apply Forall_cons in Hall as [[Hin Hf] Hrest].
  cbn [process_files]. destruct (is_set stop_at (world j)).
  - destruct Hj as (Hsub & new & Hlog & Hfiles & Hnd & Hseen). split; [exact Hsub|].
    exists (new ++ [LogStopRequested (c_resource_name c)]). cbn.
    rewrite Hlog, <- app_assoc, copy_sources_app, app_nil_r. now split_and!.
  - apply IH; [exact Hrest|]. now apply process_file_distinct.
Qed.

End Loop.

(** X12. With dedupe on, the files one job reports as copied have pairwise
    different SHA-1 digests: no content is copied twice by a job, however the
    files are named and wherever they lie, also when the job is stopped. *)
Theorem job_copies_have_distinct_digests
    (src out_dir : Path) (o : Options) (range : option (Z * Z)) (w w0 : World)
    (c : Ctx) (files : list Path) :
  setup_job src out_dir o range w = (Ok (c, files, w0), w0) ->
  dedupe o = true ->
  exists new,
    w_log (snd (clean_one sha1 stop_at src out_dir o range w)) = w_log w ++ new /\
    Forall (fun f => f ∈ files /\ Fs.is_file (w_fs w0) f = true) (copy_sources new) /\
    NoDup (map (fun f => sha1 (content (w_fs w0) f)) (copy_sources new)).
Proof.
  intros Hs Hon.
  pose proof (setup_job_layout _ _ _ _ _ _ _ _ _ Hs) as L.
  destruct (setup_job_Ok _ _ _ _ _ _ _ _ _ Hs) as (_ & _ & Ec & Efiles & Hw0 & _).
  rewrite (clean_one_setup sha1 stop_at _ _ _ _ _ _ _ _ _ Hs). cbn [snd finish_job].
  assert (Hd : dedupe (c_opts c) = true) by (rewrite Ec; exact Hon).
  assert (Hall : Forall (fun f => f ∈ files /\ Fs.is_file (w_fs w0) f = true) files).
  { apply Forall_forall. intros f Hf. split; [exact Hf|].
    rewrite Efiles in Hf. unfold iter_files in Hf.
    apply walk_sound in Hf as (r' & _ & _ & _ & _ & Hfile). exact Hfile. }
  destruct (process_files_distinct c L Hd (w_fs w0) files (w_log (world (start_job c w0)))
              files 1 (start_job c w0) Hall)
    as (_ & new & Hlog & Hfiles & Hnd & _).
  { split; [reflexivity|]. exists []. rewrite app_nil_r.
    split_and!; [reflexivity | constructor | constructor | intros f Hf; inversion Hf]. }
  set (jend := process_files sha1 stop_at c 1 files (start_job c w0)) in *.
  assert (Elog : w_log w0 = w_log w) by (rewrite Hw0; reflexivity).
  exists ([LogStart (c_resource_name c) (c_src c) (c_dest_root c);
           LogOptions (include_ybn (c_opts c)) (make_fxmanifest (c_opts c))
                      (flatten_stream (c_opts c)) (dedupe (c_opts c))]
          ++ new
          ++ [LogDone (c_resource_name c) (copied jend) (skipped jend) (errors jend)]).
  assert (Ecs : forall a b z, copy_sources ([a; b] ++ new ++ [z])
                              = copy_sources [a; b] ++ copy_sources new ++ copy_sources [z]).
  { intros a b z. now rewrite !copy_sources_app. }
  rewrite Ecs. cbn [copy_sources omap app]. rewrite app_nil_r.
  split_and!.
  - cbn [w_log logger ui_log]. rewrite Hlog. cbn [start_job world w_log logger ui_log].
    rewrite Elog, <- !app_assoc. reflexivity.
  - apply Forall_forall. intros f Hf. rewrite Forall_forall in Hfiles, Hall.
    apply Hall, Hfiles, Hf.
  - exact Hnd.
Qed.

End JobDedupe.

Lemma job_copies_have_distinct_digests_witness :
  exists new,
    w_log (snd (clean_one Sample.digest None ["twins"] ["out"] (Sample.options true true)
                          None Sample.twins_fresh))
    = [] ++ new /\
    Forall (fun f => f ∈ [["twins"; "q.ydr"]; ["twins"; "p.ydr"]] /\
                     Fs.is_file (w_fs Sample.twins_ready) f = true)
           (copy_sources new) /\
    NoDup (map (fun f => Sample.digest (content (w_fs Sample.twins_ready) f))
               (copy_sources new)).
Proof.
  apply (job_copies_have_distinct_digests Sample.digest None ["twins"] ["out"]
           (Sample.options true true) None Sample.twins_fresh Sample.twins_ready
           Sample.twins_ctx [["twins"; "q.ydr"]; ["twins"; "p.ydr"]]).
  - by_running.
  - reflexivity.
Defined.
